(** * Road damage analysis: the repair estimator and the area aggregator

    A shallow embedding of [utils/damage_analysis.py] (class
    [DamageAnalyzer]).  Python values are modelled by a small universe of
    dynamic values, Python floats by the primitive binary64 floats, Python
    integers by [Z], dictionaries by [gmap], and exceptions by an error
    monad. *)

From stdpp Require Import gmap strings list fin_maps pretty.
From Stdlib Require Import QArith Qabs Lqa.
From Stdlib Require Import ZArith Floats Lia.
From Stdlib Require Uint63.

Set Warnings "-inexact-float,-register-all".
Local Open Scope Z_scope.

(** ** Exceptions *)

Inductive exn :=
  TypeError | ValueError | OverflowError | ZeroDivisionError | KeyError.

Inductive exc (A : Type) :=
| Ok (a : A)
| Raise (e : exn).
Arguments Ok {A} a.
Arguments Raise {A} e.

#[global] Instance exc_ret : MRet exc := @Ok.
#[global] Instance exc_bind : MBind exc := λ A B f m,
  match m with
  | Ok a => f a
  | Raise e => Raise e
  end.

#[global] Instance exc_fmap : FMap exc := λ A B f m,
  match m with
  | Ok a => Ok (f a)
  | Raise e => Raise e
  end.

Definition returns {A} (m : exc A) : Prop := ∃ a, m = Ok a.

(** ** Python numbers *)

Module PyNum.

(** The double nearest to the rational [a / b] ([0 <= a], [0 < b]), ties to
    even: the quotient is taken with at least 55 bits and a sticky bit, and
    rounded once by [binary_normalize]. *)
Definition RN_ratio (a b : Z) : spec_float :=
  if a =? 0 then S754_zero false
  else
    let k := Z.max 0 (55 + Z.log2 b - Z.log2 a) in
    let q := Z.shiftl a k / b in
    let r := Z.shiftl a k mod b in
    binary_normalize prec emax (2 * q + (if r =? 0 then 0 else 1)) (- k - 1) false.

(** [float(z)] for a Python int: correctly rounded, [OverflowError] when the
    integer is too large for a double. *)
Definition float_of_Z (z : Z) : exc float :=
  match binary_normalize prec emax (Z.abs z) 0 false with
  | S754_infinity _ => Raise OverflowError
  | sf => Ok (if z <? 0 then (- SF2Prim sf)%float else SF2Prim sf)
  end.

(** The integer nearest to [num / den] ([0 < den]), ties to even. *)
Definition round_half_even (num den : Z) : Z :=
  let q := num / den in
  let r := num mod den in
  match 2 * r ?= den with
  | Lt => q
  | Gt => q + 1
  | Eq => if Z.even q then q else q + 1
  end.

(** [round(x, ndigits)] on a float, [0 <= ndigits]: the exact value of [x]
    is rounded half-even to [ndigits] decimals and the decimal result maps
    to the nearest double; zeros, infinities and NaN are returned as is. *)
Definition py_round (x : float) (ndigits : nat) : float :=
  match Prim2SF x with
  | S754_finite s m e =>
      let p := 10 ^ Z.of_nat ndigits in
      let n := if 0 <=? e then Z.pos m * p * 2 ^ e
               else round_half_even (Z.pos m * p) (2 ^ (- e)) in
      let mag := SF2Prim (RN_ratio n p) in
      if s then (- mag)%float else mag
  | _ => x
  end.

(** [math.ceil(x)]: [ValueError] on NaN, [OverflowError] on an infinity. *)
Definition py_ceil (x : float) : exc Z :=
  match Prim2SF x with
  | S754_nan => Raise ValueError
  | S754_infinity _ => Raise OverflowError
  | S754_zero _ => Ok 0
  | S754_finite s m e =>
      let v := if s then Z.neg m else Z.pos m in
      Ok (if 0 <=? e then v * 2 ^ e else - ((- v) / 2 ^ (- e)))
  end.

(** Exact comparison of a Python int with a float, as Python does for
    mixed comparisons; [None] when the float is a NaN. *)
Definition Z_compare_float (z : Z) (x : float) : option comparison :=
  match Prim2SF x with
  | S754_nan => None
  | S754_infinity s => Some (if s then Gt else Lt)
  | S754_zero _ => Some (z ?= 0)
  | S754_finite s m e =>
      let v := if s then Z.neg m else Z.pos m in
      Some (if 0 <=? e then z ?= v * 2 ^ e else z * 2 ^ (- e) ?= v)
  end.

(** [a / b] on Python ints: the correctly rounded quotient. *)
Definition int_true_divide (a b : Z) : exc float :=
  if b =? 0 then Raise ZeroDivisionError
  else
    match RN_ratio (Z.abs a) (Z.abs b) with
    | S754_infinity _ => Raise OverflowError
    | sf => Ok (if Z.sgn a * Z.sgn b <? 0 then (- SF2Prim sf)%float else SF2Prim sf)
    end.

(** [x / y] on floats *)
Definition float_div (x y : float) : exc float :=
  if (y =? 0)%float then Raise ZeroDivisionError else Ok (x / y)%float.

(** [sum(l)] over floats as CPython adds them up to 3.11: one by one, left
    to right, starting at [0] ([py_sum_compensated] below is the sum of
    3.12 and later). *)
Definition py_sum (l : list float) : float :=
  fold_left (λ acc x, acc + x)%float l 0%float.

(** [sum(l)] and [max(l)] over ints *)
Definition Zsum (l : list Z) : Z := fold_left Z.add l 0.

Definition Zmax_list (l : list Z) : Z :=
  match l with
  | [] => 0
  | x :: l' => fold_left Z.max l' x
  end.

Inductive number :=
| NInt (z : Z)
| NFloat (f : float).

Definition to_float (n : number) : exc float :=
  match n with
  | NInt z => float_of_Z z
  | NFloat f => Ok f
  end.

(** [a - b] *)
Definition num_sub (a b : number) : exc number :=
  match a, b with
  | NInt x, NInt y => Ok (NInt (x - y))
  | _, _ => fa ← to_float a; fb ← to_float b; Ok (NFloat (fa - fb)%float)
  end.

(** [abs(a)] *)
Definition num_abs (a : number) : number :=
  match a with
  | NInt x => NInt (Z.abs x)
  | NFloat f => NFloat (abs f)
  end.

(** [a * r] for a float [r] *)
Definition num_mul_float (a : number) (r : float) : exc float :=
  fa ← to_float a; Ok (fa * r)%float.

(** [a >= c] for a float [c] *)
Definition num_ge_float (a : number) (c : float) : bool :=
  match a with
  | NInt z =>
      match Z_compare_float z c with
      | Some (Gt | Eq) => true
      | _ => false
      end
  | NFloat f => (c <=? f)%float
  end.

(** [a <= b] *)
Definition num_le (a b : number) : bool :=
  match a, b with
  | NInt x, NInt y => x <=? y
  | NInt x, NFloat g =>
      match Z_compare_float x g with
      | Some (Lt | Eq) => true
      | _ => false
      end
  | NFloat f, NInt y =>
      match Z_compare_float y f with
      | Some (Gt | Eq) => true
      | _ => false
      end
  | NFloat f, NFloat g => (f <=? g)%float
  end.

End PyNum.
Export PyNum.

(** ** Python values *)

Inductive pyval :=
| PNone
| PBool (b : bool)
| PInt (z : Z)
| PFloat (f : float)
| PStr (s : string)
| PList (l : list pyval).

(** [bool(v)] *)
Definition py_truthy (v : pyval) : bool :=
  match v with
  | PNone => false
  | PBool b => b
  | PInt z => negb (z =? 0)
  | PFloat f => negb (f =? 0)%float
  | PStr s => negb (String.eqb s "")
  | PList l => negb (Nat.eqb (length l) 0)
  end.

(** A Python string is a sequence of code points; a string here holds
    their UTF-8 bytes, where the bytes [10xxxxxx] continue a code point. *)
Definition utf8_continuation (c : Ascii.ascii) : bool :=
  match c with
  | Ascii.Ascii _ _ _ _ _ _ b6 b7 => b7 && negb b6
  end.

(** The code points of a string, each with its bytes. *)
Fixpoint utf8_chars (s : string) : list string :=
  match s with
  | EmptyString => []
  | String c s' =>
      let rest := utf8_chars s' in
      match s' with
      | String c' _ =>
          if utf8_continuation c' then
            match rest with
            | h :: t => String c h :: t
            | [] => [String c EmptyString]
            end
          else String c EmptyString :: rest
      | EmptyString => [String c EmptyString]
      end
  end.

(** [len(v)]: a string has as many items as code points. *)
Definition py_len (v : pyval) : exc Z :=
  match v with
  | PStr s => Ok (Z.of_nat (length (utf8_chars s)))
  | PList l => Ok (Z.of_nat (length l))
  | _ => Raise TypeError
  end.

(** The items of an iterable, for unpacking. *)
Definition py_iter (v : pyval) : exc (list pyval) :=
  match v with
  | PStr s => Ok (PStr <$> utf8_chars s)
  | PList l => Ok l
  | _ => Raise TypeError
  end.

(** [a, b, c, d = v] *)
Definition unpack4 (v : pyval) : exc (pyval * pyval * pyval * pyval) :=
  l ← py_iter v;
  match l with
  | [a; b; c; d] => Ok (a, b, c, d)
  | _ => Raise ValueError
  end.

(** Ints, bools (a subclass of int) and floats are the numbers. *)
Definition as_number (v : pyval) : exc number :=
  match v with
  | PBool b => Ok (NInt (if b then 1 else 0))
  | PInt z => Ok (NInt z)
  | PFloat f => Ok (NFloat f)
  | _ => Raise TypeError
  end.

(** [a - b] on values: a [TypeError] unless both are numbers. *)
Definition py_sub (a b : pyval) : exc number :=
  x ← as_number a; y ← as_number b; num_sub x y.

(** [v >= c] for a float literal [c] *)
Definition py_ge_float (v : pyval) (c : float) : exc bool :=
  x ← as_number v; Ok (num_ge_float x c).

(** [hash(v)]: lists are unhashable. *)
Definition py_hashable (v : pyval) : exc unit :=
  match v with
  | PList _ => Raise TypeError
  | _ => Ok ()
  end.

(** ** The analyzer's tables *)

Inductive Severity := minor | moderate | severe | critical.

#[global] Instance Severity_eq_dec : EqDecision Severity.
Proof. solve_decision. Defined.

Definition severity_name (s : Severity) : string :=
  match s with
  | minor => "minor"
  | moderate => "moderate"
  | severe => "severe"
  | critical => "critical"
  end.

(** [calculate_damage_area] *)
Definition calculate_damage_area (bbox image_shape : pyval)
    (pixel_to_meter_ratio : float) : exc float :=
  if negb (py_truthy bbox) then Ok 0.1%float
  else
    n ← py_len bbox;
    if n <? 4 then Ok 0.1%float
    else
      '(x1, y1, x2, y2) ← unpack4 bbox;
      dx ← py_sub x2 x1;
      let width_pixels := num_abs dx in
      dy ← py_sub y2 y1;
      let height_pixels := num_abs dy in
      width_meters ← num_mul_float width_pixels pixel_to_meter_ratio;
      height_meters ← num_mul_float height_pixels pixel_to_meter_ratio;
      Ok (width_meters * height_meters)%float.

Definition high_impact (damage_type : pyval) : bool :=
  match damage_type with
  | PStr s => bool_decide (s = "D20_Alligator_Crack" ∨ s = "D40_Pothole")
  | _ => false
  end.

(** [determine_severity] *)
Definition determine_severity (confidence damage_type : pyval)
    (area_sqm : float) : exc Severity :=
  c8 ← py_ge_float confidence 0.8;
  base_severity ←
    (if c8 : bool then Ok severe
     else
       c6 ← py_ge_float confidence 0.6;
       if c6 : bool then Ok moderate
       else
         c4 ← py_ge_float confidence 0.4;
         if c4 : bool then Ok minor else Ok minor);
  Ok (if high_impact damage_type then
        if (2.0 <? area_sqm)%float then
          match base_severity with
          | severe => critical
          | moderate => severe
          | _ => base_severity
          end
        else if (0.5 <? area_sqm)%float then
          match base_severity with
          | minor => moderate
          | _ => base_severity
          end
        else base_severity
      else base_severity).

(** *** Lookup tables *)

Record RepairInfo := {
  cost_per_m : Z;
  material : string;
  method : string
}.

Definition cost_row (a b c d : RepairInfo) (s : Severity) : RepairInfo :=
  match s with
  | minor => a
  | moderate => b
  | severe => c
  | critical => d
  end.

Definition time_row (a b c d : float) (s : Severity) : float :=
  match s with
  | minor => a
  | moderate => b
  | severe => c
  | critical => d
  end.

Definition repair_costs : gmap string (Severity → RepairInfo) :=
  list_to_map [
    ("D00_Longitudinal_Crack", cost_row
       {| cost_per_m := 1200; material := "Crack sealing compound"; method := "Hot pour crack sealing" |}
       {| cost_per_m := 2000; material := "Rubberized crack filler"; method := "Routing and sealing" |}
       {| cost_per_m := 3600; material := "Asphalt patching mix"; method := "Mill and overlay" |}
       {| cost_per_m := 6800; material := "Full depth asphalt"; method := "Complete reconstruction" |});
    ("D10_Transverse_Crack", cost_row
       {| cost_per_m := 1440; material := "Crack sealing compound"; method := "Surface sealing" |}
       {| cost_per_m := 2400; material := "Polymer-modified sealant"; method := "Crack routing and sealing" |}
       {| cost_per_m := 4000; material := "Asphalt overlay"; method := "Mill and resurface" |}
       {| cost_per_m := 7200; material := "Full reconstruction"; method := "Complete rebuild" |});
    ("D20_Alligator_Crack", cost_row
       {| cost_per_m := 2800; material := "Micro-surfacing"; method := "Surface treatment" |}
       {| cost_per_m := 5200; material := "Thin overlay"; method := "2-inch overlay" |}
       {| cost_per_m := 9600; material := "Full depth patching"; method := "Remove and replace" |}
       {| cost_per_m := 16000; material := "Complete reconstruction"; method := "Full depth reconstruction" |});
    ("D40_Pothole", cost_row
       {| cost_per_m := 2000; material := "Cold patch asphalt"; method := "Temporary patching" |}
       {| cost_per_m := 3600; material := "Hot mix asphalt"; method := "Permanent patching" |}
       {| cost_per_m := 6000; material := "Full depth patch"; method := "Saw cut and replace" |}
       {| cost_per_m := 12000; material := "Structural repair"; method := "Base repair and overlay" |});
    ("Repair", cost_row
       {| cost_per_m := 800; material := "Inspection only"; method := "Quality assessment" |}
       {| cost_per_m := 1600; material := "Touch-up materials"; method := "Minor repairs" |}
       {| cost_per_m := 3200; material := "Rework materials"; method := "Repair rework" |}
       {| cost_per_m := 6400; material := "Complete redo"; method := "Full reconstruction" |});
    ("Block_Crack", cost_row
       {| cost_per_m := 1600; material := "Crack sealing"; method := "Preventive sealing" |}
       {| cost_per_m := 3200; material := "Overlay preparation"; method := "Surface preparation" |}
       {| cost_per_m := 5600; material := "Milling and overlay"; method := "Remove and replace" |}
       {| cost_per_m := 10400; material := "Full reconstruction"; method := "Complete rebuild" |})
  ].

Definition repair_times : gmap string (Severity → float) :=
  list_to_map [
    ("D00_Longitudinal_Crack", time_row 0.5 1.0 2.5 6.0);
    ("D10_Transverse_Crack", time_row 0.6 1.2 3.0 7.0);
    ("D20_Alligator_Crack", time_row 1.5 3.0 6.0 12.0);
    ("D40_Pothole", time_row 1.0 2.0 4.0 8.0);
    ("Repair", time_row 0.3 0.8 2.0 5.0);
    ("Block_Crack", time_row 0.8 1.5 3.5 8.0)
  ]%float.

Record Priority := {
  level : Z;
  action : string;
  timeline : string;
  risk : string
}.

Definition priority_matrix (s : Severity) : Priority :=
  match s with
  | critical => {| level := 1; action := "IMMEDIATE"; timeline := "24-48 hours"; risk := "High safety risk" |}
  | severe => {| level := 2; action := "URGENT"; timeline := "1-2 weeks"; risk := "Moderate safety risk" |}
  | moderate => {| level := 3; action := "SCHEDULED"; timeline := "1-3 months"; risk := "Low safety risk" |}
  | minor => {| level := 4; action := "PREVENTIVE"; timeline := "3-6 months"; risk := "Minimal risk" |}
  end.

(** [table[key]] for a string literal [key] *)
Definition dict_index {A} (table : gmap string A) (key : string) : exc A :=
  match table !! key with
  | Some a => Ok a
  | None => Raise KeyError
  end.

(** [table.get(key, default)] on a table with string keys: the key is
    hashed first, and only a string can be equal to a key. *)
Definition dict_get {A} (table : gmap string A) (key : pyval) (dflt : A) : exc A :=
  _ ← py_hashable key;
  Ok (match key with
      | PStr s => default dflt (table !! s)
      | _ => dflt
      end).

(** *** Crew, equipment, safety, weather and traffic *)

Record CrewSize := {
  total : Z;
  roles : list (string * Z)
}.

(** [get_crew_roles] *)
Definition get_crew_roles (damage_type : pyval) (severity : Severity)
    (total_crew : Z) : list (string * Z) :=
  match severity with
  | critical | severe =>
      [("supervisor", 1);
       ("equipment_operator", if 3 <=? total_crew then 1 else 0);
       ("skilled_workers", Z.max 2 (total_crew - 2));
       ("traffic_control", if 4 <=? total_crew then 1 else 0);
       ("safety_officer", if 5 <=? total_crew then 1 else 0)]
  | _ =>
      [("supervisor", 1);
       ("skilled_workers", total_crew - 1);
       ("traffic_control", if 3 <=? total_crew then 1 else 0)]
  end.

(** [estimate_crew_size] *)
Definition estimate_crew_size (damage_type : pyval) (severity : Severity)
    (area_sqm : float) : CrewSize :=
  let base_crew :=
    match severity with
    | minor => 2
    | moderate => 3
    | severe => 4
    | critical => 6
    end in
  let crew :=
    if (5.0 <? area_sqm)%float then base_crew + 2
    else if (2.0 <? area_sqm)%float then base_crew + 1
    else base_crew in
  {| total := crew; roles := get_crew_roles damage_type severity crew |}.

(** [get_equipment_list] *)
Definition get_equipment_list (damage_type : pyval) (severity : Severity) : list string :=
  let base_equipment := ["Hand tools"; "Safety equipment"; "Traffic cones"] in
  match severity with
  | severe | critical =>
      if high_impact damage_type then
        base_equipment ++ ["Asphalt saw"; "Jackhammer"; "Compactor";
                           "Hot mix truck"; "Roller"; "Crack router"]
      else
        base_equipment ++ ["Crack router"; "Sealant applicator";
                           "Air compressor"; "Heating kettle"]
  | _ => base_equipment ++ ["Crack sealing equipment"; "Cleaning tools"]
  end.

(** [get_safety_requirements] *)
Definition get_safety_requirements (damage_type : pyval) (severity : Severity) : list string :=
  let base_safety := ["High-visibility clothing"; "Hard hats";
                      "Safety glasses"; "Work zone setup"] in
  match severity with
  | severe | critical =>
      base_safety ++ ["Traffic control plan"; "Flaggers"; "Temporary barriers";
                      "Warning signs"; "Emergency response plan"]
  | _ => base_safety ++ ["Basic traffic control"; "Warning signs"]
  end.

Record WeatherConstraints := {
  temperature_min : Z;
  temperature_max : Z;
  conditions : list string;
  seasonal_notes : string
}.

(** [get_weather_constraints] (the [optimal] temperature text is left out) *)
Definition get_weather_constraints (damage_type : pyval) : WeatherConstraints :=
  {| temperature_min := 40;
     temperature_max := 100;
     conditions := ["No precipitation during work"; "Dry surface required";
                    "Wind speed < 25 mph for sealants"; "No freezing conditions"];
     seasonal_notes := "Best performed in spring/summer/early fall" |}.

Record TrafficImpact := {
  lane_closure : string;
  duration : string;
  traffic_control : string;
  alternate_route : string;
  peak_hour_restrictions : string
}.

(** [assess_traffic_impact] *)
Definition assess_traffic_impact (damage_type : pyval) (severity : Severity)
    (area_sqm : float) : TrafficImpact :=
  if bool_decide (severity = critical ∨ severity = severe) || (1.0 <? area_sqm)%float then
    {| lane_closure := "Required";
       duration := "Full repair duration";
       traffic_control := "Flaggers and signs required";
       alternate_route := "Recommended for major repairs";
       peak_hour_restrictions := "Avoid 7-9 AM and 4-6 PM" |}
  else
    {| lane_closure := "Partial or rolling closure";
       duration := "Minimal disruption";
       traffic_control := "Basic signage sufficient";
       alternate_route := "Not required";
       peak_hour_restrictions := "Can work during off-peak hours" |}.

(** ** The unit estimator *)

Record DamageEstimate := {
  damage_type : pyval;
  severity : Severity;
  confidence : pyval;
  area_sqm : float;
  bbox : pyval;
  repair_cost : float;
  repair_time_hours : float;
  repair_days : Z;
  priority : Priority;
  repair_method : string;
  materials_needed : string;
  crew_size : CrewSize;
  equipment_needed : list string;
  safety_requirements : list string;
  weather_constraints : WeatherConstraints;
  traffic_impact : TrafficImpact
}.

(** [analyze_single_damage]; [total_time] exposes the unrounded
    [total_time_hours] next to the record. *)
Definition analyze_single_damage_aux (detection : gmap string pyval)
    (image_shape : pyval) : exc (DamageEstimate * float) :=
  let damage_type := default (PStr "Unknown") (detection !! "damage_type") in
  let confidence := default (PFloat 0.5) (detection !! "confidence") in
  let bbox := default (PList [PInt 0; PInt 0; PInt 100; PInt 100]) (detection !! "bbox") in
  area_sqm ← calculate_damage_area bbox image_shape 0.01;
  severity ← determine_severity confidence damage_type area_sqm;
  pothole_costs ← dict_index repair_costs "D40_Pothole";
  costs ← dict_get repair_costs damage_type pothole_costs;
  let repair_info := costs severity in
  pothole_times ← dict_index repair_times "D40_Pothole";
  times ← dict_get repair_times damage_type pothole_times;
  let repair_time := times severity in
  let priority_info := priority_matrix severity in
  cost_per_m ← float_of_Z (cost_per_m repair_info);
  let total_cost := (area_sqm * cost_per_m)%float in
  let total_time_hours := (area_sqm * repair_time)%float in
  let crew_size := estimate_crew_size damage_type severity area_sqm in
  let equipment_needed := get_equipment_list damage_type severity in
  repair_days ← py_ceil (total_time_hours / 8);
  Ok ({| damage_type := damage_type;
         severity := severity;
         confidence := confidence;
         area_sqm := py_round area_sqm 2;
         bbox := bbox;
         repair_cost := py_round total_cost 2;
         repair_time_hours := py_round total_time_hours 1;
         repair_days := repair_days;
         priority := priority_info;
         repair_method := method repair_info;
         materials_needed := material repair_info;
         crew_size := crew_size;
         equipment_needed := equipment_needed;
         safety_requirements := get_safety_requirements damage_type severity;
         weather_constraints := get_weather_constraints damage_type;
         traffic_impact := assess_traffic_impact damage_type severity area_sqm |},
      total_time_hours).

Definition analyze_single_damage (detection : gmap string pyval)
    (image_shape : pyval) : exc DamageEstimate :=
  fst <$> analyze_single_damage_aux detection image_shape.

(** ** The aggregator *)

#[global] Instance Severity_countable : Countable Severity.
Proof.
  refine (inj_countable'
    (λ s, match s with minor => 0 | moderate => 1 | severe => 2 | critical => 3 end)%nat
    (λ n, match n with 0 => minor | 1 => moderate | 2 => severe | _ => critical end)%nat _).
  by intros [].
Defined.

(** The wall clock: a date as its proleptic Gregorian ordinal and the time
    of day; [timedelta(days=n)] moves the ordinal. *)
Record datetime := {
  ordinal : Z;
  second_of_day : Z
}.

Definition add_days (t : datetime) (n : Z) : datetime :=
  {| ordinal := ordinal t + n; second_of_day := second_of_day t |}.

(** [counts[k] = counts.get(k, 0) + 1] *)
Definition count_incr `{Countable K} (counts : gmap K Z) (k : K) : gmap K Z :=
  <[k := default 0 (counts !! k) + 1]> counts.

(** Equality of dictionary keys among the hashable values. *)
Definition py_key_eqb (a b : pyval) : bool :=
  match a, b with
  | PNone, PNone => true
  | PStr s, PStr t => String.eqb s t
  | PList _, _ | _, PList _ | PNone, _ | _, PNone | PStr _, _ | _, PStr _ => false
  | _, _ =>
      match as_number a, as_number b with
      | Ok (NInt x), Ok (NInt y) => x =? y
      | Ok (NInt x), Ok (NFloat g) | Ok (NFloat g), Ok (NInt x) =>
          match Z_compare_float x g with Some Eq => true | _ => false end
      | Ok (NFloat f), Ok (NFloat g) => (f =? g)%float
      | _, _ => false
      end
  end.

(** The same update on a dictionary with arbitrary hashable keys, kept as an
    association list in insertion order. *)
Fixpoint assoc_incr (counts : list (pyval * Z)) (k : pyval) : list (pyval * Z) :=
  match counts with
  | [] => [(k, 1)]
  | (k', n) :: rest =>
      if py_key_eqb k' k then (k', n + 1) :: rest
      else (k', n) :: assoc_incr rest k
  end.

Record Breakdown := {
  severity_counts : gmap Severity Z;
  damage_type_counts : list (pyval * Z);
  priority_counts : gmap Z Z
}.

(** The counting loop of [generate_area_summary]. *)
Fixpoint count_damages (all_damages : list DamageEstimate) (acc : Breakdown) : exc Breakdown :=
  match all_damages with
  | [] => Ok acc
  | damage :: rest =>
      _ ← py_hashable (damage_type damage);
      count_damages rest
        {| severity_counts := count_incr (severity_counts acc) (severity damage);
           damage_type_counts := assoc_incr (damage_type_counts acc) (damage_type damage);
           priority_counts := count_incr (priority_counts acc) (level (priority damage)) |}
  end.

Record Phase := {
  damages : list DamageEstimate;
  duration_days : Z;
  description : string
}.

Record Timeline := {
  immediate_phase : Phase;
  urgent_phase : Phase;
  scheduled_phase : Phase;
  preventive_phase : Phase;
  total_days : Z
}.

(** The grouping loop of [calculate_project_timeline]:
    [priority_groups[priority].append(damage)]. *)
Fixpoint group_by_priority (all_damages : list DamageEstimate)
    (groups : gmap Z (list DamageEstimate)) : exc (gmap Z (list DamageEstimate)) :=
  match all_damages with
  | [] => Ok groups
  | damage :: rest =>
      let priority := level (priority damage) in
      match groups !! priority with
      | Some g => group_by_priority rest (<[priority := g ++ [damage]]> groups)
      | None => Raise KeyError
      end
  end.

(** [calculate_project_timeline] *)
Definition calculate_project_timeline (all_damages : list DamageEstimate) : exc Timeline :=
  priority_groups ← group_by_priority all_damages {[ 1 := []; 2 := []; 3 := []; 4 := [] ]};
  let group k := default [] (priority_groups !! k) in
  let immediate :=
    {| damages := group 1;
       duration_days := Zmax_list (repair_days <$> group 1);
       description := "Critical repairs - safety hazards" |} in
  let urgent :=
    {| damages := group 2;
       duration_days := Zsum (repair_days <$> group 2) / 2;
       description := "Urgent repairs - prevent deterioration" |} in
  let scheduled :=
    {| damages := group 3;
       duration_days := Zsum (repair_days <$> group 3) / 3;
       description := "Scheduled maintenance" |} in
  let preventive :=
    {| damages := group 4;
       duration_days := Zsum (repair_days <$> group 4) / 4;
       description := "Preventive maintenance" |} in
  let total_days :=
    Zsum (duration_days <$> [immediate; urgent; scheduled; preventive]) in
  Ok {| immediate_phase := immediate;
        urgent_phase := urgent;
        scheduled_phase := scheduled;
        preventive_phase := preventive;
        total_days := Z.max total_days 1 |}.

Record Categories := {
  materials : float;
  labor : float;
  equipment : float;
  traffic_control_budget : float;
  contingency : float
}.

Record Budget := {
  categories : Categories;
  total_budget : float;
  cost_per_sqm_average : float
}.

(** The accumulation loop of [generate_budget_breakdown]. *)
Definition accumulate_categories (all_damages : list DamageEstimate) : Categories :=
  fold_left
    (λ acc damage,
       let repair_cost := repair_cost damage in
       {| materials := materials acc + repair_cost * 0.4;
          labor := labor acc + repair_cost * 0.35;
          equipment := equipment acc + repair_cost * 0.15;
          traffic_control_budget := traffic_control_budget acc + repair_cost * 0.05;
          contingency := contingency acc + repair_cost * 0.05 |})%float
    all_damages
    {| materials := 0; labor := 0; equipment := 0;
       traffic_control_budget := 0; contingency := 0 |}%float.

(** [max(x, 1)] for a float [x]: the int [1] wins only when [1 > x]. *)
Definition max_with_one (x : float) : number :=
  match Z_compare_float 1 x with
  | Some Gt => NInt 1
  | _ => NFloat x
  end.

(** [generate_budget_breakdown]; [budget_total] exposes the unrounded
    [total] next to the record. *)
Definition generate_budget_breakdown_aux (all_damages : list DamageEstimate)
    : exc (Budget * float) :=
  let acc := accumulate_categories all_damages in
  let total :=
    py_sum [materials acc; labor acc; equipment acc;
            traffic_control_budget acc; contingency acc] in
  divisor ← to_float (max_with_one (py_sum (area_sqm <$> all_damages)));
  average ← float_div total divisor;
  Ok ({| categories :=
           {| materials := py_round (materials acc) 2;
              labor := py_round (labor acc) 2;
              equipment := py_round (equipment acc) 2;
              traffic_control_budget := py_round (traffic_control_budget acc) 2;
              contingency := py_round (contingency acc) 2 |};
         total_budget := py_round total 2;
         cost_per_sqm_average := py_round average 2 |},
      total).

Definition generate_budget_breakdown (all_damages : list DamageEstimate) : exc Budget :=
  fst <$> generate_budget_breakdown_aux all_damages.

Record Resources := {
  peak_crew_size : Z;
  total_equipment_types : Z;
  equipment_list : gset string;
  material_types : gset string;
  estimated_trucks_needed : Z;
  storage_requirements : string
}.

(** [calculate_total_resources]; the two lists are built from sets, so
    they are kept as sets. *)
Definition calculate_total_resources (all_damages : list DamageEstimate) : exc Resources :=
  let max_crew := Zmax_list ((λ d, total (crew_size d)) <$> all_damages) in
  let all_equipment : gset string :=
    foldl (λ acc d, acc ∪ list_to_set (equipment_needed d)) ∅ all_damages in
  let all_materials : gset string :=
    foldl (λ acc d, acc ∪ {[ materials_needed d ]}) ∅ all_damages in
  per_truck ← int_true_divide (Z.of_nat (length all_damages)) 5;
  trucks ← py_ceil per_truck;
  Ok {| peak_crew_size := max_crew;
        total_equipment_types := Z.of_nat (size all_equipment);
        equipment_list := all_equipment;
        material_types := all_materials;
        estimated_trucks_needed := trucks;
        storage_requirements :=
          if 10 <? Z.of_nat (length all_damages) then "Medium" else "Small" |}.

Record Recommendation := {
  rec_priority : string;
  rec_action : string;
  rec_reason : string
}.

Definition count_severity (s : Severity) (all_damages : list DamageEstimate) : Z :=
  Z.of_nat (length (filter (λ d, severity d = s) all_damages)).

(** [generate_recommendations] *)
Definition generate_recommendations (all_damages : list DamageEstimate)
    (area_name : string) : list Recommendation :=
  let critical_count := count_severity critical all_damages in
  let severe_count := count_severity severe all_damages in
  let alligator_count :=
    Z.of_nat (length (filter (λ d, py_key_eqb (damage_type d) (PStr "D20_Alligator_Crack") = true)
                             all_damages)) in
  (if 0 <? critical_count then
     [{| rec_priority := "IMMEDIATE";
         rec_action := "Address " +:+ pretty critical_count
                       +:+ " critical damage(s) within 24-48 hours";
         rec_reason := "Safety hazard - risk of accidents or further deterioration" |}]
   else []) ++
  (if 0 <? severe_count then
     [{| rec_priority := "URGENT";
         rec_action := "Schedule " +:+ pretty severe_count
                       +:+ " severe repair(s) within 1-2 weeks";
         rec_reason := "Prevent escalation to critical condition" |}]
   else []) ++
  (if 2 <? alligator_count then
     [{| rec_priority := "STRATEGIC";
         rec_action := "Consider full section overlay due to multiple alligator cracks";
         rec_reason := "Multiple alligator cracks indicate structural issues" |}]
   else []) ++
  (if 10 <? Z.of_nat (length all_damages) then
     [{| rec_priority := "PLANNING";
         rec_action := "Develop comprehensive rehabilitation plan";
         rec_reason := "High damage density suggests systematic approach needed" |}]
   else []) ++
  [{| rec_priority := "PREVENTIVE";
      rec_action := "Implement regular inspection schedule every 6 months";
      rec_reason := "Early detection prevents costly major repairs" |}].

Record Risk := {
  risk_level : string;
  risk_score : Z;
  factors : list (string * pyval);
  mitigation : list string;
  monitoring_frequency : string
}.

(** [get_mitigation_strategies] *)
Definition get_mitigation_strategies (risk_level : string) : list string :=
  if bool_decide (risk_level = "VERY HIGH" ∨ risk_level = "HIGH") then
    ["Implement immediate traffic control measures";
     "Post warning signs for hazardous areas";
     "Consider temporary road closure if necessary";
     "Expedite critical repairs";
     "Increase inspection frequency"]
  else if bool_decide (risk_level = "MEDIUM") then
    ["Schedule repairs within recommended timeframes";
     "Monitor high-risk areas weekly";
     "Prepare contingency repair materials";
     "Plan traffic management during repairs"]
  else
    ["Continue regular monitoring";
     "Schedule preventive maintenance";
     "Document baseline conditions"].

(** [get_monitoring_frequency] *)
Definition get_monitoring_frequency (risk_level : string) : string :=
  default "Quarterly"
    (({[ "VERY HIGH" := "Weekly"; "HIGH" := "Bi-weekly";
         "MEDIUM" := "Monthly"; "LOW" := "Quarterly" ]} : gmap string string) !! risk_level).

(** [assess_overall_risk] on a non-empty list; a risk factor keeps its
    label and the damage type it is formatted with. *)
Definition assess_overall_risk (all_damages : list DamageEstimate) : Risk :=
  let '(risk_score, risk_factors) :=
    fold_left
      (λ '(score, fs) damage,
         match severity damage with
         | critical => (score + 4, fs ++ [("Critical", damage_type damage)])
         | severe => (score + 3, fs ++ [("Severe", damage_type damage)])
         | moderate => (score + 2, fs)
         | minor => (score + 1, fs)
         end)
      all_damages (0, []) in
  let risk_level :=
    if 15 <=? risk_score then "VERY HIGH"
    else if 10 <=? risk_score then "HIGH"
    else if 5 <=? risk_score then "MEDIUM"
    else "LOW" in
  {| risk_level := risk_level;
     risk_score := risk_score;
     factors := take 5 risk_factors;
     mitigation := get_mitigation_strategies risk_level;
     monitoring_frequency := get_monitoring_frequency risk_level |}.

Record SummaryStatistics := {
  total_images_surveyed : Z;
  damaged_locations : Z;
  damage_rate_percentage : float;
  total_damaged_area_sqm : float;
  total_repair_cost_usd : float;
  total_repair_time_hours : float;
  estimated_project_duration_days : Z
}.

Record CleanAreaReport := {
  clean_area_name : string;
  clean_survey_date : datetime;
  clean_overall_condition : string;
  clean_condition_description : string;
  clean_summary_statistics : SummaryStatistics;
  clean_recommendations : list string;
  next_inspection : Z;
  clean_maintenance_schedule : list (string * string)
}.

(** The report of the non-empty branch; its [maintenance_schedule], keyed
    by calendar-week strings, is left out. *)
Record AreaSummary := {
  area_name : string;
  survey_date : datetime;
  overall_condition : string;
  condition_description : string;
  summary_statistics : SummaryStatistics;
  severity_breakdown : gmap Severity Z;
  damage_type_breakdown : list (pyval * Z);
  priority_breakdown : gmap Z Z;
  project_timeline : Timeline;
  budget_breakdown : Budget;
  resource_requirements : Resources;
  recommendations : list Recommendation;
  risk_assessment : Risk
}.

Inductive AreaReport :=
| CleanReport (r : CleanAreaReport)
| FullReport (r : AreaSummary).

(** [generate_clean_area_report]; [next_inspection] is the date 180 days
    after the clock reading. *)
Definition generate_clean_area_report (now : datetime) (area_name : string)
    (total_images : Z) : CleanAreaReport :=
  {| clean_area_name := area_name;
     clean_survey_date := now;
     clean_overall_condition := "EXCELLENT";
     clean_condition_description := "No damage detected - road in excellent condition";
     clean_summary_statistics :=
       {| total_images_surveyed := total_images;
          damaged_locations := 0;
          damage_rate_percentage := 0.0;
          total_damaged_area_sqm := 0.0;
          total_repair_cost_usd := 0.0;
          total_repair_time_hours := 0.0;
          estimated_project_duration_days := 0 |};
     clean_recommendations :=
       ["Continue regular monitoring";
        "Schedule preventive maintenance in 6-12 months";
        "Monitor for early signs of wear";
        "Maintain current maintenance practices"];
     next_inspection := ordinal (add_days now 180);
     clean_maintenance_schedule :=
       [("preventive_sealing", "12-18 months");
        ("crack_monitoring", "6 months");
        ("surface_treatment", "3-5 years")] |}.

(** [generate_area_summary] *)
Definition generate_area_summary (now : datetime) (area_name : string)
    (all_damages : list DamageEstimate) (total_images : Z) : exc AreaReport :=
  match all_damages with
  | [] => Ok (CleanReport (generate_clean_area_report now area_name total_images))
  | _ :: _ =>
      let total_cost := py_sum (repair_cost <$> all_damages) in
      let total_time_hours := py_sum (repair_time_hours <$> all_damages) in
      let total_area := py_sum (area_sqm <$> all_damages) in
      counts ← count_damages all_damages
                 {| severity_counts := ∅; damage_type_counts := []; priority_counts := ∅ |};
      let critical_count := default 0 (severity_counts counts !! critical) in
      let severe_count := default 0 (severity_counts counts !! severe) in
      let '(overall_condition, condition_description) :=
        if 0 <? critical_count then
          ("CRITICAL", "Immediate attention required")
        else if 2 <? severe_count then
          ("POOR", "Urgent repairs needed")
        else if (0 <? severe_count) || (5 <? Z.of_nat (length all_damages)) then
          ("FAIR", "Scheduled maintenance required")
        else
          ("GOOD", "Minor maintenance needed") in
      project_timeline ← calculate_project_timeline all_damages;
      let recommendations := generate_recommendations all_damages area_name in
      damage_rate ← int_true_divide (Z.of_nat (length all_damages)) total_images;
      budget ← generate_budget_breakdown all_damages;
      resources ← calculate_total_resources all_damages;
      Ok (FullReport
            {| area_name := area_name;
               survey_date := now;
               overall_condition := overall_condition;
               condition_description := condition_description;
               summary_statistics :=
                 {| total_images_surveyed := total_images;
                    damaged_locations := Z.of_nat (length all_damages);
                    damage_rate_percentage := py_round (damage_rate * 100) 1;
                    total_damaged_area_sqm := py_round total_area 2;
                    total_repair_cost_usd := py_round total_cost 2;
                    total_repair_time_hours := py_round total_time_hours 1;
                    estimated_project_duration_days := total_days project_timeline |};
               severity_breakdown := severity_counts counts;
               damage_type_breakdown := damage_type_counts counts;
               priority_breakdown := priority_counts counts;
               project_timeline := project_timeline;
               budget_breakdown := budget;
               resource_requirements := resources;
               recommendations := recommendations;
               risk_assessment := assess_overall_risk all_damages |})
  end.

(** The summary fields shared by both report shapes. *)
Definition report_condition (r : AreaReport) : string :=
  match r with
  | CleanReport c => clean_overall_condition c
  | FullReport f => overall_condition f
  end.

Definition report_statistics (r : AreaReport) : SummaryStatistics :=
  match r with
  | CleanReport c => clean_summary_statistics c
  | FullReport f => summary_statistics f
  end.

(** ** Sample inputs and the predicates of the statements *)

Definition demo_pothole : gmap string pyval :=
  {[ "damage_type" := PStr "D40_Pothole";
     "confidence" := PFloat 0.85;
     "bbox" := PList [PInt 100; PInt 150; PInt 180; PInt 220] ]}.

(** The sign of a double that is not a NaN. *)
Definition SFsign_is (s : bool) (x : spec_float) : Prop :=
  match x with
  | S754_zero s' | S754_infinity s' | S754_finite s' _ _ => s' = s
  | S754_nan => False
  end.

(** A zero or a finite double of sign [s] and of magnitude below [2 ^ k],
    with the exponent a double of that magnitude has. *)
Definition SFbelow (s : bool) (k : Z) (x : spec_float) : Prop :=
  match x with
  | S754_zero s' => s' = s
  | S754_finite s' m e =>
      s' = s ∧ Zdigits2 (Z.pos m) + e <= k ∧ e <= Z.max (k - 53) (-1074)
  | _ => False
  end.

(** *** Detections *)

(** The bounding box [analyze_single_damage] works on. *)
Definition detection_bbox (detection : gmap string pyval) : pyval :=
  default (PList [PInt 0; PInt 0; PInt 100; PInt 100]) (detection !! "bbox").

(** A bool, an int or a float. *)
Definition numeric (v : pyval) : Prop := returns (as_number v).

(** A pixel coordinate: a number of absolute value at most a million. *)
Definition pixel (v : pyval) : Prop :=
  match v with
  | PBool _ => True
  | PInt z => Z.abs z <= 1000000
  | PFloat f => (abs f <=? 1000000)%float = true
  | _ => False
  end.

(** A bounding box that is falsy ([None], empty, zero) or has fewer than
    four entries. *)
Definition short_bbox (v : pyval) : Prop :=
  py_truthy v = false ∨ ∃ n, py_len v = Ok n ∧ n < 4.

(** A bounding box the estimator handles: a short one, or four pixel
    coordinates. *)
Definition bbox_ok (b : pyval) : Prop :=
  short_bbox b ∨
  ∃ x1 y1 x2 y2, b = PList [x1; y1; x2; y2] ∧ pixel x1 ∧ pixel y1 ∧ pixel x2 ∧ pixel y2.

(** The confidence, when given, is a number, and the damage type, when
    given, is hashable. *)
Definition detection_ok (detection : gmap string pyval) : Prop :=
  (∀ c, detection !! "confidence" = Some c -> numeric c) ∧
  (∀ t, detection !! "damage_type" = Some t -> py_hashable t = Ok ()).

Definition text_bbox_detection : gmap string pyval :=
  {[ "damage_type" := PStr "D40_Pothole";
     "confidence" := PFloat 0.85;
     "bbox" := PList [PStr "a"; PStr "b"; PStr "c"; PStr "d"] ]}.

Definition long_bbox_detection : gmap string pyval :=
  {[ "damage_type" := PStr "D40_Pothole";
     "confidence" := PFloat 0.85;
     "bbox" := PList [PInt 100; PInt 150; PInt 180; PInt 220; PInt 1] ]}.

Definition short_bbox_detection : gmap string pyval :=
  {[ "damage_type" := PStr "D40_Pothole";
     "confidence" := PFloat 0.85;
     "bbox" := PList [PInt 100; PInt 150] ]}.

Definition small_crack : gmap string pyval :=
  {[ "damage_type" := PStr "D00_Longitudinal_Crack";
     "confidence" := PFloat 0.5;
     "bbox" := PList [PInt 0; PInt 0; PInt 20; PInt 30] ]}.

Definition wide_crack : gmap string pyval :=
  {[ "damage_type" := PStr "D00_Longitudinal_Crack";
     "confidence" := PFloat 0.5;
     "bbox" := PList [PInt 0; PInt 0; PInt 200; PInt 100] ]}.

Definition old_repair : gmap string pyval :=
  {[ "damage_type" := PStr "Repair";
     "confidence" := PFloat 0.5;
     "bbox" := PList [PInt 0; PInt 0; PInt 100; PInt 100] ]}.

Definition large_pothole : gmap string pyval :=
  {[ "damage_type" := PStr "D40_Pothole";
     "confidence" := PFloat 0.9;
     "bbox" := PList [PInt 0; PInt 0; PInt 300; PInt 100] ]}.

(** A crack of one pixel: a repair of 12 cents. *)
Definition one_pixel_crack : gmap string pyval :=
  {[ "damage_type" := PStr "D00_Longitudinal_Crack";
     "confidence" := PFloat 0.5;
     "bbox" := PList [PInt 0; PInt 0; PInt 1; PInt 1] ]}.

(** *** Severities and confidences *)

Definition severity_rank (s : Severity) : Z :=
  match s with
  | minor => 0
  | moderate => 1
  | severe => 2
  | critical => 3
  end.

Definition number_value (n : number) : pyval :=
  match n with
  | NInt z => PInt z
  | NFloat f => PFloat f
  end.

(** The thresholds of [determine_severity] lie strictly between 0 and 1. *)
Definition threshold (c : float) : Prop :=
  ∃ m e, Prim2SF c = S754_finite false m e ∧ e <= -53 ∧ Z.pos m < 2 ^ (- e).

(** *** Estimates *)

(** An estimate the unit estimator returned. *)
Definition estimator_output (d : DamageEstimate) : Prop :=
  ∃ detection image_shape, analyze_single_damage detection image_shape = Ok d.

(** The estimates of the detections the estimator accepts, in order. *)
Definition estimates_of (detections : list (gmap string pyval)) : list DamageEstimate :=
  omap (λ detection,
          match analyze_single_damage detection PNone with
          | Ok d => Some d
          | Raise _ => None
          end) detections.

Definition demo_estimates : list DamageEstimate :=
  estimates_of [large_pothole; demo_pothole; small_crack].

Definition demo_clock : datetime := {| ordinal := 739000; second_of_day := 36000 |}.

(** *** Doubles *)

(** A double that is not negative: a NaN, or of sign [+]. *)
Definition SFnn (x : spec_float) : Prop :=
  match x with
  | S754_nan => True
  | S754_zero s | S754_infinity s | S754_finite s _ _ => s = false
  end.

(** A positive finite double below [2 ^ k]. *)
Definition SFpositive (k : Z) (x : spec_float) : Prop :=
  match x with
  | S754_finite false m e => Zdigits2 (Z.pos m) + e <= k ∧ e <= Z.max (k - 53) (-1074)
  | _ => False
  end.

(** Numbers of magnitude below [2 ^ k]. *)
Definition num_below (k : Z) (n : number) : Prop :=
  match n with
  | NInt z => Z.abs z < 2 ^ k
  | NFloat f => ∃ s, SFbelow s k (Prim2SF f)
  end.

Definition num_nonneg_below (k : Z) (n : number) : Prop :=
  match n with
  | NInt z => 0 <= z < 2 ^ k
  | NFloat f => SFbelow false k (Prim2SF f)
  end.

(** ** Further parts of the program and the predicates of their statements *)

(** *** Boxes without width or height *)

(** A zero of either sign. *)
Definition SFzero (x : spec_float) : Prop := ∃ s, x = S754_zero s.

(** A number that is zero. *)
Definition num_is_zero (n : number) : Prop :=
  match n with
  | NInt z => z = 0
  | NFloat f => SFzero (Prim2SF f)
  end.

(** A detection whose box has no height. *)
Definition flat_box_detection : gmap string pyval :=
  {[ "damage_type" := PStr "D10_Transverse_Crack";
     "confidence" := PFloat 0.7;
     "bbox" := PList [PInt 40; PInt 60; PInt 90; PInt 60] ]}.

(** ** The detector's class names *)

(** [_map_class_to_damage] of the detector: [demo_mapping.get(class_id,
    f'Unknown_Damage_{class_id}')] for an int [class_id]. *)
Definition demo_mapping : gmap Z string :=
  {[ 0 := "D40_Pothole";
     1 := "D00_Longitudinal_Crack";
     2 := "D10_Transverse_Crack";
     3 := "D20_Alligator_Crack";
     4 := "Repair";
     5 := "Block_Crack" ]}.

Definition map_class_to_damage (class_id : Z) : string :=
  default ("Unknown_Damage_" +:+ pretty class_id) (demo_mapping !! class_id).

(** The detection [detect_damage] builds for a box of the model. *)
Definition detection_of (x1 y1 x2 y2 confidence : float) (class_id : Z)
    : gmap string pyval :=
  {[ "bbox" := PList [PFloat x1; PFloat y1; PFloat x2; PFloat y2];
     "confidence" := PFloat confidence;
     "damage_type" := PStr (map_class_to_damage class_id);
     "class_id" := PInt class_id ]}.

(** A detection of a class the tables have no row for. *)
Definition unknown_damage : gmap string pyval :=
  {[ "damage_type" := PStr "Unknown_Damage_7";
     "confidence" := PFloat 0.9;
     "bbox" := PList [PInt 0; PInt 0; PInt 300; PInt 100] ]}.

(** *** Counts *)

(** The number of estimates of a priority level. *)
Definition count_priority (k : Z) (all_damages : list DamageEstimate) : Z :=
  Z.of_nat (length (filter (λ d, level (priority d) = k) all_damages)).

(** The number of estimates whose damage type is the string [s]. *)
Definition count_type (s : string) (all_damages : list DamageEstimate) : Z :=
  Z.of_nat (length (filter (λ d, py_key_eqb (damage_type d) (PStr s) = true) all_damages)).

(** The entries of a breakdown under the key [s]. *)
Definition entries_of (s : string) (counts : list (pyval * Z)) : list (pyval * Z) :=
  filter (λ e, py_key_eqb e.1 (PStr s) = true) counts.

(** The estimates of a priority level, in order. *)
Definition of_level (k : Z) (all_damages : list DamageEstimate) : list DamageEstimate :=
  filter (λ d, level (priority d) = k) all_damages.

(** A priority level that is a key of [priority_groups]. *)
Definition valid_level (d : DamageEstimate) : Prop := 1 <= level (priority d) <= 4.

(** *** Risk *)

(** The points of a severity in the risk score. *)
Definition risk_points (s : Severity) : Z :=
  match s with
  | critical => 4
  | severe => 3
  | moderate => 2
  | minor => 1
  end.

(** The risk factor an estimate contributes, if any. *)
Definition risk_factor (d : DamageEstimate) : option (string * pyval) :=
  match severity d with
  | critical => Some ("Critical", damage_type d)
  | severe => Some ("Severe", damage_type d)
  | _ => None
  end.

(** The risk level of a score, with its monitoring frequency and the number
    of its mitigation strategies. *)
Definition risk_band (score : Z) : string * string * nat :=
  if 15 <=? score then ("VERY HIGH", "Weekly", 5%nat)
  else if 10 <=? score then ("HIGH", "Bi-weekly", 5%nat)
  else if 5 <=? score then ("MEDIUM", "Monthly", 4%nat)
  else ("LOW", "Quarterly", 3%nat).

(** The order in which recommendations are listed. *)
Definition recommendation_order : list string :=
  ["IMMEDIATE"; "URGENT"; "STRATEGIC"; "PLANNING"; "PREVENTIVE"].

(** ** Exact values of doubles *)

(** A double that is a zero or finite. *)
Definition SFreal (x : spec_float) : Prop :=
  match x with
  | S754_zero _ | S754_finite _ _ _ => True
  | _ => False
  end.

(** The exact value of a double in units of [2 ^ -1074], the spacing of the
    smallest doubles: every finite double is a whole number of them. *)
Definition SFunits (x : spec_float) : Z :=
  match x with
  | S754_finite s m e => cond_Zopp s (Z.pos m * 2 ^ (e + 1074))
  | _ => 0
  end.

(** A double that is neither an infinity nor a NaN. *)
Definition finite_float (x : float) : Prop := SFreal (Prim2SF x).

(** The value of a double in units of [2 ^ -1074]. *)
Definition float_units (x : float) : Z := SFunits (Prim2SF x).

(** The exact value of a finite double, as a rational. *)
Definition float_value (x : float) : Q :=
  (inject_Z (float_units x) / inject_Z (2 ^ 1074))%Q.

(** *** The interpreter's [sum] *)

(** One item of [sum] over floats since CPython 3.12, which adds with
    Neumaier's compensation: [f_result] is the running sum and [c] collects
    what the additions lost.
    [[
        double t = f_result + x;
        if (fabs(f_result) >= fabs(x)) c += (f_result - t) + x;
        else                           c += (x - t) + f_result;
        f_result = t;
    ]] *)
Definition cs_add (state : float * float) (x : float) : float * float :=
  let '(f_result, c) := state in
  let t := (f_result + x)%float in
  let c :=
    if (abs x <=? abs f_result)%float then (c + ((f_result - t) + x))%float
    else (c + ((x - t) + f_result))%float in
  (t, c).

(** [sum(l)] over floats since CPython 3.12.  The first item is added to
    the start value, the int [0]; the others go through the compensated
    loop; at the end the compensation is added if it is neither zero nor
    infinite nor a NaN ([if (c && Py_IS_FINITE(c)) f_result += c]). *)
Definition py_sum_compensated (l : list float) : float :=
  match l with
  | [] => 0%float
  | x :: l' =>
      let '(f_result, c) := fold_left cs_add l' ((0 + x)%float, 0%float) in
      if negb (is_zero c) && is_finite c then (f_result + c)%float else f_result
  end.

(** The two ways the interpreter adds floats in [sum]: one by one (up to
    CPython 3.11, [py_sum]) or with compensation (from 3.12 on). *)
Inductive sum_algorithm := plain_sum | compensated_sum.

Definition builtin_sum (algorithm : sum_algorithm) (l : list float) : float :=
  match algorithm with
  | plain_sum => py_sum l
  | compensated_sum => py_sum_compensated l
  end.

(** ** The budget under either summation *)

(** [acc = 0; for x in l: acc += x]: the total a loop accumulates. *)
Definition running_total (l : list float) : float :=
  fold_left (λ acc x, acc + x)%float l 0%float.

(** [generate_budget_breakdown] under either summation of the interpreter;
    the unrounded [total] is returned next to the record. *)
Definition generate_budget_breakdown_with (algorithm : sum_algorithm)
    (all_damages : list DamageEstimate) : exc (Budget * float) :=
  let acc := accumulate_categories all_damages in
  let total :=
    builtin_sum algorithm
      [materials acc; labor acc; equipment acc;
       traffic_control_budget acc; contingency acc] in
  divisor ← to_float (max_with_one (builtin_sum algorithm (area_sqm <$> all_damages)));
  average ← float_div total divisor;
  Ok ({| categories :=
           {| materials := py_round (materials acc) 2;
              labor := py_round (labor acc) 2;
              equipment := py_round (equipment acc) 2;
              traffic_control_budget := py_round (traffic_control_budget acc) 2;
              contingency := py_round (contingency acc) 2 |};
         total_budget := py_round total 2;
         cost_per_sqm_average := py_round average 2 |},
      total).

(** ** The per-image totals of the batch processor *)

(** [['minor', 'moderate', 'severe', 'critical'].index(s)] *)
Definition severity_index (s : Severity) : Z :=
  match s with
  | minor => 0
  | moderate => 1
  | severe => 2
  | critical => 3
  end.

(** [min(l)] over ints: a [ValueError] on an empty sequence. *)
Definition py_min (l : list Z) : exc Z :=
  match l with
  | [] => Raise ValueError
  | x :: l' => Ok (fold_left Z.min l' x)
  end.

(** [max(l, key=key)]: the first item of the largest key wins; a
    [ValueError] on an empty sequence. *)
Definition py_max_by {A} (key : A → Z) (l : list A) : exc A :=
  match l with
  | [] => Raise ValueError
  | x :: l' => Ok (fold_left (λ best y, if key best <? key y then y else best) l' x)
  end.

(** The keys [process_single_image] adds to the result of an image with
    damage; [image_repair_cost] and [image_repair_time_hours] stand for the
    keys ['total_repair_cost'] and ['total_repair_time_hours']. *)
Record DamageTotals := {
  detailed_damage_analysis : list DamageEstimate;
  image_repair_cost : float;
  image_repair_time_hours : float;
  highest_priority : Z;
  most_severe : Severity
}.

(** The block [if has_damage:] of [process_single_image], where
    [has_damage] is [len(detections) > 0]: the detections of the image are
    analyzed one by one ([image_shape] is the height of the image, or 640)
    and summarized; without a detection the block is skipped and the result
    gets none of its keys ([None]).  An exception of the estimator leaves
    the block, to the [except] of the function. *)
Definition detailed_damage_totals (algorithm : sum_algorithm)
    (detections : list (gmap string pyval)) (image_shape : pyval)
    : exc (option DamageTotals) :=
  let has_damage := 0 <? Z.of_nat (length detections) in
  if has_damage then
    detailed_damages ←
      mapM (λ detection, analyze_single_damage detection image_shape) detections;
    highest ← py_min (level ∘ priority <$> detailed_damages);
    worst ← py_max_by (severity_index ∘ severity) detailed_damages;
    Ok (Some {| detailed_damage_analysis := detailed_damages;
                image_repair_cost := builtin_sum algorithm (repair_cost <$> detailed_damages);
                image_repair_time_hours :=
                  builtin_sum algorithm (repair_time_hours <$> detailed_damages);
                highest_priority := highest;
                most_severe := severity worst |})
  else Ok None.

(** ** The maintenance schedule *)

(** An entry of the schedule. *)
Record ScheduleEntry := {
  entry_damage_type : pyval;
  entry_severity : Severity;
  estimated_duration : Z;
  cost : float;
  entry_crew_size : Z
}.

(** The days from now to [start_date], by priority level: the [if] chain
    of [create_maintenance_schedule], whose last branch takes every other
    level. *)
Definition start_offset (priority_level : Z) : Z :=
  if priority_level =? 1 then 1
  else if priority_level =? 2 then 7
  else if priority_level =? 3 then 30
  else 90.

(** The entry appended to [schedule[week_key]]. *)
Definition schedule_entry (damage : DamageEstimate) : ScheduleEntry :=
  {| entry_damage_type := damage_type damage;
     entry_severity := severity damage;
     estimated_duration := repair_days damage;
     cost := repair_cost damage;
     entry_crew_size := total (crew_size damage) |}.

(** [create_maintenance_schedule]; [strftime] stands for
    [start_date.strftime('%Y-W%U')] and [now] for the clock reading. *)
Definition create_maintenance_schedule (strftime : datetime → string) (now : datetime)
    (all_damages : list DamageEstimate) : gmap string (list ScheduleEntry) :=
  fold_left
    (λ schedule damage,
       let priority_level := level (priority damage) in
       let start_date := add_days now (start_offset priority_level) in
       let week_key := strftime start_date in
       <[week_key := default [] (schedule !! week_key) ++ [schedule_entry damage]]> schedule)
    all_damages ∅.

(** The week an estimate is scheduled in. *)
Definition week_of (strftime : datetime → string) (now : datetime)
    (damage : DamageEstimate) : string :=
  strftime (add_days now (start_offset (level (priority damage)))).

(** A sample week label: the number of the seven-day period a date falls
    in. *)
Definition week_label (t : datetime) : string := "W" +:+ pretty (ordinal t / 7).

(** * Properties *)

(** ** Binary64 rounding: signs and magnitudes *)

Lemma digits2_pos_size p : digits2_pos p = Pos.size p.
Proof. induction p; simpl; congruence. Qed.

Lemma Zdigits2_le m k : 0 <= m -> 0 <= k -> (Zdigits2 m <= k <-> m < 2 ^ k).
Proof.
  intros Hm Hk. destruct m as [|p|p]; simpl; [|rewrite digits2_pos_size|lia].
  - split; [intros _; apply Z.pow_pos_nonneg; lia|lia].
  - split; intros H.
    + pose proof (Pos.size_gt p) as Hg.
      apply Pos2Z.pos_lt_pos in Hg. rewrite Pos2Z.inj_pow in Hg.
      eapply Z.lt_le_trans; [exact Hg|]. apply Z.pow_le_mono_r; lia.
    + pose proof (Pos.size_le p) as Hl.
      apply Pos2Z.pos_le_pos in Hl. rewrite Pos2Z.inj_pow in Hl.
      destruct (Z.le_gt_cases (Z.pos (Pos.size p)) k) as [|Hgt]; [done|].
      exfalso.
      assert (2 ^ (k + 1) <= 2 ^ Z.pos (Pos.size p)) by (apply Z.pow_le_mono_r; lia).
      rewrite Z.pow_add_r in * by lia. change (Z.pos p~0) with (2 * Z.pos p) in Hl. lia.
Qed.

Lemma Zdigits2_nonneg m : 0 <= Zdigits2 m.
Proof. destruct m; simpl; lia. Qed.

Lemma Zdigits2_div_pow m n :
  0 <= m -> 0 <= n -> Zdigits2 (m / 2 ^ n) <= Z.max 0 (Zdigits2 m - n).
Proof.
  intros Hm Hn.
  assert (0 < 2 ^ n) by (apply Z.pow_pos_nonneg; lia).
  assert (0 <= m / 2 ^ n) by (apply Z.div_pos; lia).
  apply Zdigits2_le; [done|lia|].
  pose proof (Zdigits2_nonneg m).
  assert (m < 2 ^ Zdigits2 m) as Hlt by (apply Zdigits2_le; lia).
  destruct (Z.le_gt_cases n (Zdigits2 m)).
  - rewrite Z.max_r by lia. apply Z.div_lt_upper_bound; [done|].
    rewrite <- Z.pow_add_r by lia. by replace (n + (Zdigits2 m - n)) with (Zdigits2 m) by lia.
  - rewrite Z.max_l by lia. simpl. apply Z.div_lt_upper_bound; [done|].
    eapply Z.lt_le_trans; [exact Hlt|]. rewrite Z.mul_1_r. apply Z.pow_le_mono_r; lia.
Qed.

Lemma Zdigits2_succ_le m m' :
  0 <= m -> 0 <= m' <= m + 1 -> Zdigits2 m' <= Zdigits2 m + 1.
Proof.
  intros Hm Hm'. pose proof (Zdigits2_nonneg m).
  apply Zdigits2_le; [lia..|].
  assert (m < 2 ^ Zdigits2 m) by (apply Zdigits2_le; lia).
  rewrite Z.pow_add_r by lia. lia.
Qed.

Lemma shr_1_m r : 0 <= shr_m r -> shr_m (shr_1 r) = shr_m r / 2.
Proof.
  destruct r as [m r s]. simpl. intros Hm.
  destruct m as [|[p|p|]|]; cbn [shr_m]; try lia; try reflexivity.
  - apply Z.div_unique with 1; lia.
  - apply Z.div_unique with 0; lia.
Qed.

Lemma pow2_xO p : 2 ^ Z.pos p~0 = 2 ^ Z.pos p * 2 ^ Z.pos p.
Proof. rewrite <- Z.pow_add_r by lia. f_equal. lia. Qed.

Lemma pow2_xI p : 2 ^ Z.pos p~1 = 2 * (2 ^ Z.pos p * 2 ^ Z.pos p).
Proof.
  replace (Z.pos p~1) with (1 + Z.pos p~0) by lia.
  rewrite Z.pow_add_r by lia. by rewrite pow2_xO.
Qed.

Lemma iter_shr_1_m p r :
  0 <= shr_m r -> shr_m (iter_pos shr_1 p r) = shr_m r / 2 ^ Z.pos p.
Proof.
  revert r. induction p as [p IH|p IH|]; intros r Hr; simpl iter_pos.
  - assert (0 <= shr_m (shr_1 r)) by (rewrite shr_1_m by done; apply Z.div_pos; lia).
    assert (0 < 2 ^ Z.pos p) by (apply Z.pow_pos_nonneg; lia).
    rewrite IH; [|rewrite IH by done; apply Z.div_pos; lia].
    rewrite IH by done. rewrite shr_1_m by done.
    rewrite !Z.div_div by lia. by rewrite pow2_xI.
  - assert (0 < 2 ^ Z.pos p) by (apply Z.pow_pos_nonneg; lia).
    rewrite IH; [|rewrite IH by done; apply Z.div_pos; lia].
    rewrite IH by done. rewrite Z.div_div by lia. by rewrite pow2_xO.
  - by rewrite shr_1_m.
Qed.

Lemma shr_record_of_loc_m m l : shr_m (shr_record_of_loc m l) = m.
Proof. by destruct l as [|[]]. Qed.

(** The mantissa and exponent [shr_fexp] leaves. *)
Lemma shr_fexp_spec m e l :
  0 <= m ->
  let n := fexp prec emax (Zdigits2 m + e) - e in
  shr_m (shr_fexp prec emax m e l).1 = (if 0 <? n then m / 2 ^ n else m) ∧
  (shr_fexp prec emax m e l).2 = (if 0 <? n then e + n else e).
Proof.
  intros Hm n. unfold shr_fexp. fold n. unfold shr.
  destruct n as [|p|p]; simpl; rewrite ?shr_record_of_loc_m; try done.
  by rewrite iter_shr_1_m by (by rewrite shr_record_of_loc_m); rewrite shr_record_of_loc_m.
Qed.

Lemma round_nearest_even_bounds m l :
  m <= round_nearest_even m l <= m + 1.
Proof. destruct l as [|[]]; simpl; try lia. destruct (Z.even m); lia. Qed.

Lemma fexp_eq k : fexp prec emax k = Z.max (k - 53) (-1074).
Proof. reflexivity. Qed.

Lemma binary_round_aux_sign s m e l :
  0 <= m -> SFsign_is s (binary_round_aux prec emax s m e l).
Proof.
  intros Hm. unfold binary_round_aux.
  destruct (shr_fexp prec emax m e l) as [r1 e1] eqn:E1.
  pose proof (shr_fexp_spec m e l Hm) as [Hr1 _]. rewrite E1 in Hr1. simpl in Hr1.
  set (m1 := round_nearest_even (shr_m r1) (loc_of_shr_record r1)).
  assert (0 <= shr_m r1) as Hr1'.
  { rewrite Hr1. case_match; [|done]. apply Z.div_pos; [done|]. apply Z.pow_pos_nonneg; lia. }
  assert (0 <= m1) as Hm1.
  { pose proof (round_nearest_even_bounds (shr_m r1) (loc_of_shr_record r1)). lia. }
  destruct (shr_fexp prec emax m1 e1 loc_Exact) as [r2 e2] eqn:E2.
  pose proof (shr_fexp_spec m1 e1 loc_Exact Hm1) as [Hr2 _]. rewrite E2 in Hr2. simpl in Hr2.
  assert (0 <= shr_m r2) as Hr2'.
  { rewrite Hr2. case_match; [|done]. apply Z.div_pos; [done|]. apply Z.pow_pos_nonneg; lia. }
  destruct (shr_m r2) eqn:Ep; [done| |by destruct Hr2']. by destruct (e2 <=? _).
Qed.

Lemma binary_round_aux_below s m e l k :
  0 <= m -> Zdigits2 m + e <= k -> -1074 <= k <= 1023 ->
  e <= Z.max (k - 53) (-1074) ->
  SFbelow s (k + 1) (binary_round_aux prec emax s m e l).
Proof.
  intros Hm Hk Hrange He. unfold binary_round_aux.
  destruct (shr_fexp prec emax m e l) as [r1 e1] eqn:E1.
  pose proof (shr_fexp_spec m e l Hm) as [Hr1 He1]. rewrite E1 in Hr1, He1.
  cbn [fst snd] in Hr1, He1. rewrite fexp_eq in Hr1, He1.
  set (m1 := round_nearest_even (shr_m r1) (loc_of_shr_record r1)).
  pose proof (round_nearest_even_bounds (shr_m r1) (loc_of_shr_record r1)) as Hrne.
  fold m1 in Hrne.
  pose proof (Zdigits2_nonneg m) as Hd.
  assert (0 <= shr_m r1 ∧ Zdigits2 (shr_m r1) + e1 <= k ∧ e1 <= Z.max (k - 53) (-1074))
    as (Hr1' & Hk1 & He1').
  { rewrite Hr1, He1. case_match eqn:En.
    - apply Z.ltb_lt in En.
      assert (0 < 2 ^ (Z.max (Zdigits2 m + e - 53) (-1074) - e)) by (apply Z.pow_pos_nonneg; lia).
      split; [apply Z.div_pos; lia|].
      pose proof (Zdigits2_div_pow m (Z.max (Zdigits2 m + e - 53) (-1074) - e)). lia.
    - lia. }
  assert (0 <= m1) as Hm1 by lia.
  assert (Zdigits2 m1 + e1 <= k + 1) as Hk1'.
  { pose proof (Zdigits2_succ_le (shr_m r1) m1). lia. }
  destruct (shr_fexp prec emax m1 e1 loc_Exact) as [r2 e2] eqn:E2.
  pose proof (shr_fexp_spec m1 e1 loc_Exact Hm1) as [Hr2 He2]. rewrite E2 in Hr2, He2.
  cbn [fst snd] in Hr2, He2. rewrite fexp_eq in Hr2, He2.
  pose proof (Zdigits2_nonneg m1) as Hd1.
  assert (0 <= shr_m r2 ∧ (shr_m r2 = 0 ∨ Zdigits2 (shr_m r2) + e2 <= k + 1)
          ∧ e2 <= Z.max (k + 1 - 53) (-1074))
    as (Hr2' & Hk2 & He2').
  { rewrite Hr2, He2. case_match eqn:En.
    - apply Z.ltb_lt in En.
      assert (0 < 2 ^ (Z.max (Zdigits2 m1 + e1 - 53) (-1074) - e1)) by (apply Z.pow_pos_nonneg; lia).
      split; [apply Z.div_pos; lia|]. split; [|lia].
      pose proof (Zdigits2_div_pow m1 (Z.max (Zdigits2 m1 + e1 - 53) (-1074) - e1)).
      destruct (Z.eq_dec (m1 / 2 ^ (Z.max (Zdigits2 m1 + e1 - 53) (-1074) - e1)) 0) as [->|Hne].
      { by left. }
      right.
      assert (0 < Zdigits2 (m1 / 2 ^ (Z.max (Zdigits2 m1 + e1 - 53) (-1074) - e1))).
      { destruct (m1 / 2 ^ (Z.max (Zdigits2 m1 + e1 - 53) (-1074) - e1)) eqn:?; simpl; lia. }
      lia.
    - lia. }
  destruct (shr_m r2) as [|p|p] eqn:Ep; [done| |by destruct Hr2'].
  assert ((e2 <=? emax - prec) = true) as -> by (apply Z.leb_le; unfold emax, prec; lia).
  simpl. split; [done|]. destruct Hk2 as [?|?]; [done|]. simpl in *. lia.
Qed.

Lemma SFbelow_mono s k k' x : k <= k' -> SFbelow s k x -> SFbelow s k' x.
Proof. intros Hk. destruct x; simpl; try done. intros (? & ? & ?). split; [done|lia]. Qed.

Lemma binary_round_aux_below' s m e l k :
  0 <= m -> Zdigits2 m + e <= k -> k <= 1023 -> e <= Z.max (k - 53) (-1074) ->
  SFbelow s (Z.max k (-1074) + 1) (binary_round_aux prec emax s m e l).
Proof. intros. apply binary_round_aux_below; lia. Qed.

Lemma digits2_pos_iter_xO m d :
  Z.pos (digits2_pos (Pos.iter xO m d)) = Z.pos (digits2_pos m) + Z.pos d.
Proof.
  induction d as [|d IH] using Pos.peano_ind.
  - simpl. lia.
  - rewrite Pos.iter_succ. simpl. lia.
Qed.

Lemma shl_align_spec mx ex ex' :
  let '(mz, ez) := shl_align mx ex ex' in
  Z.pos (digits2_pos mz) + ez = Z.pos (digits2_pos mx) + ex ∧ ez = Z.min ex ex'.
Proof.
  unfold shl_align. destruct (ex' - ex) as [|d|d] eqn:Ed.
  - lia.
  - lia.
  - rewrite digits2_pos_iter_xO. lia.
Qed.

Lemma binary_round_sign s mx ex : SFsign_is s (binary_round prec emax s mx ex).
Proof.
  unfold binary_round. destruct (shl_align _ _ _) as [mz ez].
  by apply binary_round_aux_sign.
Qed.

Lemma binary_round_below s mx ex k :
  Z.pos (digits2_pos mx) + ex <= k -> k <= 1023 ->
  SFbelow s (Z.max k (-1074) + 1) (binary_round prec emax s mx ex).
Proof.
  intros Hk Hr. unfold binary_round.
  pose proof (shl_align_spec mx ex (fexp prec emax (Z.pos (digits2_pos mx) + ex))) as Hs.
  destruct (shl_align _ _ _) as [mz ez]. destruct Hs as [Hd He].
  rewrite fexp_eq in He.
  apply binary_round_aux_below'; simpl; lia.
Qed.

Lemma binary_normalize_below m e k :
  0 <= m -> Zdigits2 m + e <= k -> k <= 1023 ->
  SFbelow false (Z.max k (-1074) + 1) (binary_normalize prec emax m e false).
Proof.
  intros Hm Hk Hr. destruct m as [|p|p]; simpl; [done| |lia].
  by apply binary_round_below.
Qed.

Lemma binary_normalize_sign m e :
  0 <= m -> SFsign_is false (binary_normalize prec emax m e false).
Proof.
  intros Hm. destruct m as [|p|p]; simpl; [done| |lia]. apply binary_round_sign.
Qed.

Lemma Zdigits2_mul m n :
  Zdigits2 (Z.pos (m * n)) <= Zdigits2 (Z.pos m) + Zdigits2 (Z.pos n).
Proof.
  pose proof (Zdigits2_nonneg (Z.pos m)). pose proof (Zdigits2_nonneg (Z.pos n)).
  apply Zdigits2_le; [lia..|].
  assert (Z.pos m < 2 ^ Zdigits2 (Z.pos m)) by (apply Zdigits2_le; lia).
  assert (Z.pos n < 2 ^ Zdigits2 (Z.pos n)) by (apply Zdigits2_le; lia).
  rewrite Z.pow_add_r by lia. rewrite Pos2Z.inj_mul. nia.
Qed.

Lemma SFmul_below sx sy kx ky x y :
  SFbelow sx kx x -> SFbelow sy ky y ->
  -1074 <= kx -> -1074 <= ky -> kx + ky <= 1023 ->
  SFbelow (xorb sx sy) (Z.max (kx + ky) (-1074) + 1) (SFmul prec emax x y).
Proof.
  intros Hx Hy Hkx Hky Hk.
  destruct x as [s1| | |s1 m1 e1], y as [s2| | |s2 m2 e2]; simpl in *; try done.
  - by subst.
  - destruct Hy as [-> _]. by subst.
  - destruct Hx as [-> _]. by subst.
  - destruct Hx as (-> & Hd1 & He1), Hy as (-> & Hd2 & He2).
    pose proof (Zdigits2_mul m1 m2). simpl in *.
    apply binary_round_aux_below'; simpl; lia.
Qed.

Lemma SFabs_below s k x : SFbelow s k x -> SFbelow false k (SFabs x).
Proof. destruct x; simpl; try done. by intros (_ & ?). Qed.

Lemma SFopp_below s k x : SFbelow s k x -> SFbelow (negb s) k (SFopp x).
Proof. destruct x; simpl; try done; [by intros ->|]. by intros (-> & ?). Qed.

Lemma Zdigits2_lower p : 2 ^ (Zdigits2 (Z.pos p) - 1) <= Z.pos p.
Proof.
  simpl. rewrite digits2_pos_size.
  pose proof (Pos.size_le p) as Hl.
  apply Pos2Z.pos_le_pos in Hl. rewrite Pos2Z.inj_pow in Hl.
  change (Z.pos p~0) with (2 * Z.pos p) in Hl.
  replace (Z.pos (Pos.size p)) with (1 + (Z.pos (Pos.size p) - 1)) in Hl by lia.
  rewrite Z.pow_add_r in Hl by lia. lia.
Qed.

Lemma SFdiv_core_binary_spec m1 e1 m2 e2 k :
  (Z.pos (digits2_pos m1) + e1) - (Z.pos (digits2_pos m2) + e2) + 1 <= k ->
  -1074 <= k ->
  let '(q, e', l) := SFdiv_core_binary prec emax (Z.pos m1) e1 (Z.pos m2) e2 in
  0 <= q ∧ Zdigits2 q + e' <= k ∧ e' <= Z.max (k - 53) (-1074).
Proof.
  intros Hk Hk'. unfold SFdiv_core_binary. rewrite fexp_eq. cbn [Zdigits2].
  set (d1 := Z.pos (digits2_pos m1)) in *. set (d2 := Z.pos (digits2_pos m2)) in *.
  set (e' := Z.min (Z.max (d1 + e1 - (d2 + e2) - 53) (-1074)) (e1 - e2)).
  set (s := e1 - e2 - e').
  assert (0 <= s) as Hs by lia.
  set (m' := match s with Z.pos _ => Z.shiftl (Z.pos m1) s | 0 => Z.pos m1 | Z.neg _ => 0 end).
  assert (m' = Z.pos m1 * 2 ^ s) as Hm'.
  { unfold m'. destruct s eqn:Es; [lia| |lia]. by rewrite Z.shiftl_mul_pow2. }
  pose proof (Z_div_mod m' (Z.pos m2) eq_refl) as Hdm.
  destruct (Z.div_eucl m' (Z.pos m2)) as [q r]. destruct Hdm as [Hq Hr].
  assert (0 < 2 ^ s) by (apply Z.pow_pos_nonneg; lia).
  assert (0 <= q) as Hq0 by nia.
  split; [done|]. split; [|lia].
  pose proof (Zdigits2_lower m2) as Hl2. fold d2 in Hl2. cbn [Zdigits2] in Hl2. fold d2 in Hl2.
  assert (Z.pos m1 < 2 ^ d1) as Hu1 by (apply (Zdigits2_le (Z.pos m1)); [lia|lia|done]).
  assert (0 < d2) by (unfold d2; lia). assert (0 < d1) by (unfold d1; lia).
  assert (0 < 2 ^ (d2 - 1)) by (apply Z.pow_pos_nonneg; lia).
  cut (Zdigits2 q <= Z.max 0 (d1 + s - d2 + 1)); [lia|].
  apply Zdigits2_le; [done|lia|].
  destruct (Z.le_gt_cases 0 (d1 + s - d2 + 1)).
  - rewrite Z.max_r by lia.
    assert (q * 2 ^ (d2 - 1) < 2 ^ (d1 + s - d2 + 1) * 2 ^ (d2 - 1)); [|nia].
    rewrite <- Z.pow_add_r by lia. replace (d1 + s - d2 + 1 + (d2 - 1)) with (d1 + s) by lia.
    rewrite Z.pow_add_r by lia. nia.
  - rewrite Z.max_l by lia. simpl.
    assert (Z.pos m1 * 2 ^ s < 2 ^ (d2 - 1)); [|nia].
    assert (2 ^ d1 * 2 ^ s <= 2 ^ (d2 - 1)); [|nia].
    rewrite <- Z.pow_add_r by lia. apply Z.pow_le_mono_r; lia.
Qed.

Lemma SFdiv_below sx sy kx ly x my ey :
  SFbelow sx kx x ->
  ly <= Z.pos (digits2_pos my) + ey ->
  kx - ly + 1 <= 1023 ->
  SFbelow (xorb sx sy) (Z.max (kx - ly + 1) (-1074) + 1)
    (SFdiv prec emax x (S754_finite sy my ey)).
Proof.
  intros Hx Hy Hk. destruct x as [s1| | |s1 m1 e1]; simpl in Hx; try done.
  - by subst.
  - destruct Hx as (-> & Hd1 & He1). cbn [SFdiv].
    pose proof (SFdiv_core_binary_spec m1 e1 my ey (Z.max (kx - ly + 1) (-1074))) as Hc.
    destruct (SFdiv_core_binary prec emax (Z.pos m1) e1 (Z.pos my) ey) as [[q e'] l].
    destruct Hc as (Hq & Hd & He); [simpl in *; lia..|].
    apply binary_round_aux_below; [done|done|lia|done].
Qed.

Lemma Zdigits2_mono a b : 0 <= a <= b -> Zdigits2 a <= Zdigits2 b.
Proof.
  intros Hab. pose proof (Zdigits2_nonneg b).
  apply Zdigits2_le; [lia..|].
  assert (b < 2 ^ Zdigits2 b) by (apply Zdigits2_le; lia). lia.
Qed.

Lemma Zdigits2_abs m : Zdigits2 (Z.abs m) = Zdigits2 m.
Proof. by destruct m. Qed.

Lemma binary_normalize_below_any m e k :
  Zdigits2 m + e <= k -> k <= 1023 ->
  ∃ s, SFbelow s (Z.max k (-1074) + 1) (binary_normalize prec emax m e false).
Proof.
  intros Hk Hr. destruct m as [|p|p]; simpl.
  - by exists false.
  - exists false. by apply binary_round_below.
  - exists true. by apply binary_round_below.
Qed.

Lemma shl_align_value mx ex ez :
  ez <= ex -> Z.pos (fst (shl_align mx ex ez)) < 2 ^ (Z.pos (digits2_pos mx) + ex - ez).
Proof.
  intros He. pose proof (shl_align_spec mx ex ez) as Hs.
  destruct (shl_align mx ex ez) as [mz ez']. destruct Hs as [Hd Hz]. simpl.
  apply (Zdigits2_le (Z.pos mz)); [lia|lia|simpl; lia].
Qed.

Lemma SFsub_below sx sy kx ky x y :
  SFbelow sx kx x -> SFbelow sy ky y -> Z.max kx ky + 1 <= 1023 ->
  ∃ s, SFbelow s (Z.max (Z.max kx ky + 1) (-1074) + 1) (SFsub prec emax x y).
Proof.
  intros Hx Hy Hk.
  destruct x as [s1| | |s1 m1 e1], y as [s2| | |s2 m2 e2]; simpl in Hx, Hy; try done.
  - simpl. destruct s1, s2; by eexists.
  - exists (negb s2). simpl. destruct Hy as (_ & ? & ?). split; [done|lia].
  - exists s1. simpl. destruct Hx as (_ & ? & ?). split; [done|lia].
  - destruct Hx as (_ & Hd1 & He1), Hy as (_ & Hd2 & He2). cbn [SFsub].
    set (ez := Z.min e1 e2).
    pose proof (shl_align_value m1 e1 ez ltac:(lia)) as H1.
    pose proof (shl_align_value m2 e2 ez ltac:(lia)) as H2.
    set (a := Z.pos (shl_align m1 e1 ez).1) in *. set (b := Z.pos (shl_align m2 e2 ez).1) in *.
    apply binary_normalize_below_any; [|lia].
    rewrite <- Zdigits2_abs.
    simpl in Hd1, Hd2.
    assert (2 ^ (Z.pos (digits2_pos m1) + e1 - ez) <= 2 ^ (Z.max kx ky - ez))
      by (apply Z.pow_le_mono_r; lia).
    assert (2 ^ (Z.pos (digits2_pos m2) + e2 - ez) <= 2 ^ (Z.max kx ky - ez))
      by (apply Z.pow_le_mono_r; lia).
    cut (Zdigits2 (Z.abs (cond_Zopp s1 a - cond_Zopp s2 b)) <= Z.max kx ky - ez + 1); [lia|].
    apply Zdigits2_le; [lia|lia|].
    rewrite Z.pow_add_r by lia.
    unfold cond_Zopp. destruct s1, s2; lia.
Qed.

(** [SF2Prim] builds a finite double with [of_uint63] and [ldexp]; reading
    it back keeps the sign and the magnitude bound. *)
Lemma Prim2SF_SF2Prim_sign s x :
  SFsign_is s x -> SFsign_is s (Prim2SF (SF2Prim x)).
Proof.
  destruct x as [s'|s'| |s' m e]; simpl; try done.
  - intros ->. by destruct s.
  - intros ->. by destruct s.
  - intros ->.
    assert (SFsign_is false (Prim2SF (Z.ldexp (of_uint63 (Uint63.of_Z (Z.pos m))) e))) as Hf.
    { rewrite Z_ldexp_spec, of_uint63_spec.
      pose proof (Uint63.to_Z_bounded (Uint63.of_Z (Z.pos m))) as Hb.
      pose proof (binary_normalize_sign (Uint63.to_Z (Uint63.of_Z (Z.pos m))) 0 ltac:(lia)) as Hn.
      destruct (binary_normalize _ _ _ _ _) as [| | |s2 m2 e2]; simpl in *; try done.
      subst. apply binary_round_sign. }
    destruct s; [|done]. rewrite FloatAxioms.opp_spec.
    destruct (Prim2SF _); simpl in *; by subst.
Qed.

Lemma Prim2SF_SF2Prim_below s k x :
  SFbelow s k x -> k + 1 <= 1023 ->
  SFbelow s (Z.max (k + 1) (-1074) + 1) (Prim2SF (SF2Prim x)).
Proof.
  destruct x as [s'|s'| |s' m e]; simpl; try done.
  - intros -> _. by destruct s.
  - intros (-> & Hd & He) Hk.
    assert (SFbelow false (Z.max (k + 1) (-1074) + 1)
              (Prim2SF (Z.ldexp (of_uint63 (Uint63.of_Z (Z.pos m))) e))) as Hf.
    { rewrite Z_ldexp_spec, of_uint63_spec.
      pose proof (Uint63.to_Z_bounded (Uint63.of_Z (Z.pos m))) as Hb.
      rewrite Uint63.of_Z_spec in *.
      assert (Z.pos m mod Uint63.wB <= Z.pos m) as Hle by (apply Z.mod_le; lia).
      pose proof (Zdigits2_mono (Z.pos m mod Uint63.wB) (Z.pos m) ltac:(lia)) as Hdm.
      assert (Zdigits2 (Z.pos m mod Uint63.wB) <= 63) as H63.
      { apply Zdigits2_le; [lia|lia|]. apply Hb. }
      pose proof (binary_normalize_below (Z.pos m mod Uint63.wB) 0
                    (Zdigits2 (Z.pos m mod Uint63.wB)) ltac:(lia) ltac:(lia) ltac:(lia)) as Hn.
      pose proof (Zdigits2_nonneg (Z.pos m mod Uint63.wB)).
      rewrite Z.max_l in Hn by lia.
      destruct (binary_normalize _ _ _ _ _) as [| | |s2 m2 e2]; simpl in Hn; try done.
      destruct Hn as (-> & Hd2 & He2). cbn [SFldexp].
      eapply SFbelow_mono; [|apply (binary_round_below false m2 (e2 + e) (k + 1))];
        simpl in *; lia. }
    destruct s; [|done]. rewrite FloatAxioms.opp_spec.
    destruct (Prim2SF _); simpl in *; try done; [by subst|].
    by destruct Hf as (-> & ?).
Qed.

Lemma py_ceil_returns s k x : SFbelow s k (Prim2SF x) -> returns (py_ceil x).
Proof.
  unfold py_ceil, returns. destruct (Prim2SF x); simpl; try done; eauto.
Qed.

Lemma leb_zero_nonneg x : SFsign_is false (Prim2SF x) -> (0 <=? x)%float = true.
Proof.
  rewrite leb_spec. change (Prim2SF 0) with (S754_zero false).
  destruct (Prim2SF x) as [s|s| |s m e]; simpl; try done; by intros ->.
Qed.

Lemma SFbelow_sign s k x : SFbelow s k x -> SFsign_is s x.
Proof. destruct x; simpl; try done. by intros (-> & _). Qed.

Lemma float_of_Z_sign z f :
  float_of_Z z = Ok f -> 0 <= z -> SFsign_is false (Prim2SF f).
Proof.
  unfold float_of_Z. intros Hf Hz.
  pose proof (binary_normalize_sign (Z.abs z) 0 ltac:(lia)) as Hn.
  assert ((z <? 0) = false) as Hneg by lia. rewrite Hneg in Hf.
  pose proof (Prim2SF_SF2Prim_sign false _ Hn) as Hp.
  destruct (binary_normalize prec emax (Z.abs z) 0 false) eqn:E;
    [injection Hf as <-; exact Hp|discriminate Hf|injection Hf as <-; exact Hp..].
Qed.

Lemma float_of_Z_below z k :
  0 <= k -> Z.abs z < 2 ^ k -> k + 3 <= 1023 ->
  ∃ f, float_of_Z z = Ok f ∧ SFbelow (z <? 0) (k + 3) (Prim2SF f).
Proof.
  intros Hk Hz Hr. unfold float_of_Z.
  assert (Zdigits2 (Z.abs z) + 0 <= k) as Hd by (rewrite Z.add_0_r; apply Zdigits2_le; lia).
  pose proof (binary_normalize_below (Z.abs z) 0 k ltac:(lia) Hd ltac:(lia)) as Hn.
  rewrite Z.max_l in Hn by lia.
  pose proof (Prim2SF_SF2Prim_below false (k + 1) _ Hn ltac:(lia)) as Hp.
  rewrite Z.max_l in Hp by lia. replace (k + 1 + 1 + 1) with (k + 3) in Hp by lia.
  destruct (binary_normalize prec emax (Z.abs z) 0 false) eqn:E; try done.
  - eexists; split; [done|]. destruct (z <? 0); [|done].
    rewrite FloatAxioms.opp_spec. by apply (SFopp_below false).
  - eexists; split; [done|]. destruct (z <? 0); [|done].
    rewrite FloatAxioms.opp_spec. by apply (SFopp_below false).
Qed.

(** A double whose absolute value is at most a positive finite constant. *)
Lemma abs_leb_below x c mc ec :
  Prim2SF c = S754_finite false mc ec -> -1074 <= ec ->
  (abs x <=? c)%float = true -> ∃ s, SFbelow s (53 + ec) (Prim2SF x).
Proof.
  intros Hc Hec. rewrite leb_spec, abs_spec, Hc.
  pose proof (Prim2SF_valid x) as Hv.
  destruct (Prim2SF x) as [s|s| |s m e]; simpl; try done.
  - by exists s.
  - simpl in Hv. unfold bounded, canonical_mantissa in Hv.
    apply andb_prop in Hv as [Hcan _]. apply Z.eqb_eq in Hcan. rewrite fexp_eq in Hcan.
    intros Hle. exists s. split; [done|].
    unfold SFleb in Hle. simpl in Hle.
    destruct (Z.compare_spec e ec); try done; lia.
Qed.

(** ** The error monad *)

Lemma bind_Ok_inv {A B} (m : exc A) (f : A → exc B) b :
  m ≫= f = Ok b -> ∃ a, m = Ok a ∧ f a = Ok b.
Proof. destruct m as [a|e]; simpl; [eauto|done]. Qed.

Lemma bind_Ok {A B} (m : exc A) (f : A → exc B) a : m = Ok a -> m ≫= f = f a.
Proof. by intros ->. Qed.

Lemma fmap_Ok_inv {A B} (m : exc A) (f : A → B) b :
  f <$> m = Ok b -> ∃ a, m = Ok a ∧ b = f a.
Proof. destruct m as [a|e]; simpl; [|done]. intros [= <-]. eauto. Qed.

Ltac exc_inv H :=
  let a := fresh "a" in
  let E := fresh "E" in
  apply bind_Ok_inv in H as (a & E & H).

(** ** Numbers within a magnitude *)

Lemma to_float_below n k :
  0 <= k -> k + 3 <= 1023 -> num_below k n ->
  ∃ f, to_float n = Ok f ∧ ∃ s, SFbelow s (k + 3) (Prim2SF f).
Proof.
  intros Hk Hr. destruct n as [z|f]; simpl.
  - intros Hz. destruct (float_of_Z_below z k Hk Hz Hr) as (f & ? & ?). eauto.
  - intros [s Hs]. exists f. split; [done|]. exists s. eapply SFbelow_mono; [|done]. lia.
Qed.

Lemma to_float_nonneg_below n k :
  0 <= k -> k + 3 <= 1023 -> num_nonneg_below k n ->
  ∃ f, to_float n = Ok f ∧ SFbelow false (k + 3) (Prim2SF f).
Proof.
  intros Hk Hr. destruct n as [z|f]; simpl.
  - intros Hz. destruct (float_of_Z_below z k Hk ltac:(lia) Hr) as (f & ? & Hf).
    assert ((z <? 0) = false) as Hneg by lia. rewrite Hneg in Hf. eauto.
  - intros Hs. exists f. split; [done|]. eapply SFbelow_mono; [|done]. lia.
Qed.

Lemma num_sub_below a b k :
  0 <= k -> k + 5 <= 1023 -> num_below k a -> num_below k b ->
  ∃ c, num_sub a b = Ok c ∧ num_below (k + 5) c.
Proof.
  intros Hk Hr Ha Hb.
  assert (∃ fa fb, to_float a = Ok fa ∧ to_float b = Ok fb
            ∧ num_below (k + 5) (NFloat (fa - fb)%float)) as (fa & fb & Hfa & Hfb & Hc).
  { destruct (to_float_below a k Hk ltac:(lia) Ha) as (fa & Hfa & sa & Hsa).
    destruct (to_float_below b k Hk ltac:(lia) Hb) as (fb & Hfb & sb & Hsb).
    exists fa, fb. split; [done|]. split; [done|]. simpl. rewrite sub_spec.
    destruct (SFsub_below sa sb (k + 3) (k + 3) _ _ Hsa Hsb ltac:(lia)) as [s Hs].
    exists s. eapply SFbelow_mono; [|done]. lia. }
  destruct a as [x|fx], b as [y|fy]; simpl in *.
  - eexists; split; [done|]. simpl.
    assert (2 ^ (k + 5) = 2 ^ k * 32) as -> by (rewrite Z.pow_add_r by lia; done). lia.
  - rewrite Hfa. simpl. injection Hfb as <-. eauto.
  - injection Hfa as <-. rewrite Hfb. simpl. eauto.
  - injection Hfa as <-. injection Hfb as <-. eauto.
Qed.

Lemma num_abs_below k n : num_below k n -> num_nonneg_below k (num_abs n).
Proof.
  destruct n as [z|f]; simpl; [lia|].
  intros [s Hs]. rewrite abs_spec. by apply (SFabs_below s).
Qed.

Lemma num_mul_float_below n r k kr :
  0 <= k -> k + 3 <= 1023 -> -1074 <= kr -> k + 3 + kr <= 1023 ->
  num_nonneg_below k n -> SFbelow false kr (Prim2SF r) ->
  ∃ f, num_mul_float n r = Ok f
       ∧ SFbelow false (Z.max (k + 3 + kr) (-1074) + 1) (Prim2SF f).
Proof.
  intros Hk Hk3 Hkr Hsum Hn Hr. unfold num_mul_float.
  destruct (to_float_nonneg_below n k Hk Hk3 Hn) as (f & -> & Hf). simpl.
  eexists; split; [done|]. rewrite mul_spec.
  apply (SFmul_below false false); [done|done|lia..].
Qed.

Lemma pixel_number v : pixel v -> ∃ n, as_number v = Ok n ∧ num_below 20 n.
Proof.
  destruct v as [|b|z|f|s|l]; simpl; try done.
  - intros _. eexists; split; [done|]. simpl. destruct b; simpl; lia.
  - intros Hz. eexists; split; [done|]. simpl. lia.
  - intros Hf. eexists; split; [done|]. simpl.
    by apply (abs_leb_below f 1000000 8589934592000000 (-33)).
Qed.

Lemma py_sub_pixels a b :
  pixel a -> pixel b -> ∃ c, py_sub a b = Ok c ∧ num_below 25 c.
Proof.
  intros (x & Hx & Hbx)%pixel_number (y & Hy & Hby)%pixel_number.
  unfold py_sub. rewrite Hx, Hy. simpl.
  by apply (num_sub_below x y 20).
Qed.

Lemma calculate_damage_area_short bbox image_shape ratio :
  short_bbox bbox -> calculate_damage_area bbox image_shape ratio = Ok 0.1%float.
Proof.
  unfold calculate_damage_area. intros [Hf|(n & Hn & Hlt)].
  - by rewrite Hf.
  - destruct (py_truthy bbox); [|done]. simpl. rewrite Hn. simpl.
    by assert ((n <? 4) = true) as -> by lia.
Qed.

Lemma calculate_damage_area_pixels x1 y1 x2 y2 image_shape :
  pixel x1 -> pixel y1 -> pixel x2 -> pixel y2 ->
  ∃ a, calculate_damage_area (PList [x1; y1; x2; y2]) image_shape 0.01 = Ok a
       ∧ SFbelow false 47 (Prim2SF a).
Proof.
  intros H1 H2 H3 H4. unfold calculate_damage_area. simpl.
  destruct (py_sub_pixels x2 x1 H3 H1) as (dx & -> & Hdx).
  destruct (py_sub_pixels y2 y1 H4 H2) as (dy & -> & Hdy). simpl.
  assert (SFbelow false (-6) (Prim2SF 0.01)) as Hr by (vm_compute; repeat split; discriminate).
  destruct (num_mul_float_below (num_abs dx) 0.01 25 (-6)) as (w & -> & Hw);
    [lia..|by apply num_abs_below|done|].
  destruct (num_mul_float_below (num_abs dy) 0.01 25 (-6)) as (h & -> & Hh);
    [lia..|by apply num_abs_below|done|].
  simpl. eexists; split; [done|]. rewrite mul_spec.
  rewrite Z.max_l in Hw, Hh by lia.
  eapply SFbelow_mono; [|apply (SFmul_below false false _ _ _ _ Hw Hh)]; lia.
Qed.

(** ** The tables *)

Lemma repair_costs_bound s row sev :
  repair_costs !! s = Some row -> 0 <= cost_per_m (row sev) < 2 ^ 14.
Proof.
  intros H%elem_of_list_to_map_2.
  repeat (apply elem_of_cons in H as [[= _ ->]|H]; [destruct sev; simpl; lia|]).
  by apply elem_of_nil in H.
Qed.

Lemma SFpositive_below k x : SFpositive k x -> SFbelow false k x.
Proof. destruct x as [| | |[] m e]; simpl; try done. Qed.

Lemma repair_times_bound s row sev :
  repair_times !! s = Some row -> SFpositive 4 (Prim2SF (row sev)).
Proof.
  intros H%elem_of_list_to_map_2.
  repeat (apply elem_of_cons in H as [[= _ ->]|H];
          [destruct sev; vm_compute; split; discriminate|]).
  by apply elem_of_nil in H.
Qed.

Lemma dict_index_costs :
  ∃ row, dict_index repair_costs "D40_Pothole" = Ok row
         ∧ repair_costs !! "D40_Pothole" = Some row.
Proof. unfold dict_index. destruct (repair_costs !! "D40_Pothole") eqn:E; [eauto|done]. Qed.

Lemma dict_index_times :
  ∃ row, dict_index repair_times "D40_Pothole" = Ok row
         ∧ repair_times !! "D40_Pothole" = Some row.
Proof. unfold dict_index. destruct (repair_times !! "D40_Pothole") eqn:E; [eauto|done]. Qed.

Lemma dict_get_inv {A} (P : A → Prop) (table : gmap string A) key dflt :
  (∀ s a, table !! s = Some a -> P a) -> P dflt ->
  py_hashable key = Ok () ->
  ∃ a, dict_get table key dflt = Ok a ∧ P a.
Proof.
  intros Ht Hd Hk. unfold dict_get. rewrite Hk. simpl.
  eexists; split; [done|].
  destruct key; try done. destruct (table !! s) eqn:E; simpl; eauto.
Qed.

Lemma dict_get_Ok_inv {A} (P : A → Prop) (table : gmap string A) key dflt a :
  (∀ s a, table !! s = Some a -> P a) -> P dflt ->
  dict_get table key dflt = Ok a -> P a ∧ py_hashable key = Ok ().
Proof.
  intros Ht Hd. unfold dict_get. destruct (py_hashable key) as [[]|] eqn:Hk; [|done].
  simpl. intros [= <-]. split; [|done].
  destruct key; try done. destruct (table !! s) eqn:E; simpl; eauto.
Qed.

(** ** The unit estimator *)

Lemma determine_severity_returns c dt a :
  numeric c -> returns (determine_severity c dt a).
Proof.
  intros [n Hn]. unfold determine_severity, py_ge_float. rewrite Hn. simpl.
  destruct (num_ge_float n 0.8); simpl; [by eexists|].
  destruct (num_ge_float n 0.6); simpl; [by eexists|].
  destruct (num_ge_float n 0.4); simpl; by eexists.
Qed.

Lemma analyze_aux_returns detection image_shape a s :
  detection_ok detection ->
  calculate_damage_area (detection_bbox detection) image_shape 0.01 = Ok a ->
  SFbelow s 1000 (Prim2SF a) ->
  ∃ d t, analyze_single_damage_aux detection image_shape = Ok (d, t)
         ∧ area_sqm d = py_round a 2.
Proof.
  intros [Hc Ht] Ha Hb. unfold analyze_single_damage_aux. fold (detection_bbox detection).
  rewrite Ha. simpl.
  set (dt := default (PStr "Unknown") (detection !! "damage_type")).
  set (c := default (PFloat 0.5) (detection !! "confidence")).
  assert (numeric c) as Hnc.
  { unfold c. destruct (detection !! "confidence") eqn:E; simpl; [eauto|by eexists]. }
  assert (py_hashable dt = Ok ()) as Hdt.
  { unfold dt. destruct (detection !! "damage_type") eqn:E; simpl; [eauto|done]. }
  destruct (determine_severity_returns c dt a Hnc) as [sev ->]. simpl.
  destruct dict_index_costs as (prow & -> & Hprow). simpl.
  destruct (dict_get_inv (λ row, ∀ sev, 0 <= cost_per_m (row sev) < 2 ^ 14)
              repair_costs dt prow) as (costs & -> & Hcosts);
    [intros; by eapply repair_costs_bound|intros; by eapply repair_costs_bound|done|].
  simpl. destruct dict_index_times as (trow & -> & Htrow). simpl.
  destruct (dict_get_inv (λ row, ∀ sev, SFpositive 4 (Prim2SF (row sev)))
              repair_times dt trow) as (times & -> & Htimes);
    [intros; by eapply repair_times_bound|intros; by eapply repair_times_bound|done|].
  simpl.
  destruct (float_of_Z_below (cost_per_m (costs sev)) 14) as (cf & -> & _);
    [lia|specialize (Hcosts sev); lia|lia|].
  simpl.
  assert (returns (py_ceil (a * times sev / 8))) as [days ->].
  { apply (py_ceil_returns (xorb (xorb s false) false) 1023).
    rewrite div_spec, mul_spec. change (Prim2SF 8) with (S754_finite false 4503599627370496 (-49)).
    eapply SFbelow_mono; [|apply (SFdiv_below _ _ 1022 4)]; [lia| |simpl; lia|lia].
    eapply SFbelow_mono; [|apply (SFmul_below s false 1000 4)];
      [lia|done|by apply SFpositive_below|lia..]. }
  simpl. by eexists _, _.
Qed.

Lemma bbox_ok_area b image_shape :
  bbox_ok b ->
  ∃ a, calculate_damage_area b image_shape 0.01 = Ok a ∧ SFbelow false 47 (Prim2SF a).
Proof.
  intros [Hs|(x1 & y1 & x2 & y2 & -> & H1 & H2 & H3 & H4)].
  - exists 0.1%float. split; [by apply calculate_damage_area_short|].
    vm_compute. repeat split; discriminate.
  - by apply calculate_damage_area_pixels.
Qed.

Lemma default_bbox_ok : bbox_ok (PList [PInt 0; PInt 0; PInt 100; PInt 100]).
Proof. right. eexists _, _, _, _. split; [done|]. simpl. lia. Qed.

(** C1 (as amended): for every detection whose confidence, when given, is
    a number, whose damage type, when given, is hashable, and whose bounding
    box is absent, falsy, shorter than four entries, or a list of four
    numbers of absolute value at most 1,000,000, [analyze_single_damage]
    returns an estimate and raises nothing. *)
Theorem analyze_single_damage_returns detection image_shape :
  detection_ok detection ->
  (∀ b, detection !! "bbox" = Some b -> bbox_ok b) ->
  returns (analyze_single_damage detection image_shape).
Proof.
  intros Hok Hb.
  assert (bbox_ok (detection_bbox detection)) as Hbb.
  { unfold detection_bbox. destruct (detection !! "bbox") eqn:E; simpl;
      [by apply Hb|apply default_bbox_ok]. }
  destruct (bbox_ok_area _ image_shape Hbb) as (a & Ha & Hbelow).
  destruct (analyze_aux_returns detection image_shape a false Hok Ha) as (d & t & Hd & _).
  { eapply SFbelow_mono; [|done]. lia. }
  exists d. unfold analyze_single_damage. by rewrite Hd.
Qed.

Lemma demo_pothole_ok : detection_ok demo_pothole.
Proof.
  split; intros v Hv; vm_compute in Hv; injection Hv as <-; [by eexists|done].
Qed.

Lemma analyze_single_damage_returns_witness :
  returns (analyze_single_damage demo_pothole PNone).
Proof.
  apply analyze_single_damage_returns; [exact demo_pothole_ok|].
  intros b Hb. vm_compute in Hb. injection Hb as <-.
  right. eexists _, _, _, _. split; [reflexivity|]. simpl. lia.
Defined.

(** A bounding box of four strings: the subtraction raises [TypeError]. *)
Lemma analyze_single_damage_text_bbox :
  analyze_single_damage text_bbox_detection PNone = Raise TypeError.
Proof. vm_compute. reflexivity. Qed.

(** A bounding box of five entries: the unpacking raises [ValueError]. *)
Example analyze_single_damage_long_bbox :
  analyze_single_damage long_bbox_detection PNone = Raise ValueError.
Proof. vm_compute. reflexivity. Qed.

(** C2 (as amended): for every detection whose bounding box is present
    and is falsy or has fewer than four entries, the estimator uses the
    nominal area and the returned [area_sqm] is 0.1; when the [bbox] key is
    absent the default box [[0, 0, 100, 100]] is used and the returned
    [area_sqm] is 1.0. *)
Theorem area_of_short_or_missing_bbox detection image_shape :
  detection_ok detection ->
  (∀ b, detection !! "bbox" = Some b -> short_bbox b ->
     ∃ d, analyze_single_damage detection image_shape = Ok d ∧ area_sqm d = 0.1%float) ∧
  (detection !! "bbox" = None ->
     ∃ d, analyze_single_damage detection image_shape = Ok d ∧ area_sqm d = 1%float).
Proof.
  intros Hok. split.
  - intros b Hb Hs.
    destruct (analyze_aux_returns detection image_shape 0.1 false Hok) as (d & t & Hd & Ha).
    { unfold detection_bbox. rewrite Hb. by apply calculate_damage_area_short. }
    { vm_compute. repeat split; discriminate. }
    exists d. unfold analyze_single_damage. rewrite Hd. split; [done|].
    rewrite Ha. vm_compute. reflexivity.
  - intros Hb.
    destruct (analyze_aux_returns detection image_shape 1 false Hok) as (d & t & Hd & Ha).
    { unfold detection_bbox. rewrite Hb. vm_compute. reflexivity. }
    { vm_compute. repeat split; discriminate. }
    exists d. unfold analyze_single_damage. rewrite Hd. split; [done|].
    rewrite Ha. vm_compute. reflexivity.
Qed.

Ltac solve_detection_ok :=
  split; intros ? Hv; vm_compute in Hv; injection Hv as <-; [by eexists|done].

Lemma area_of_short_or_missing_bbox_witness :
  (∃ d, analyze_single_damage short_bbox_detection PNone = Ok d ∧ area_sqm d = 0.1%float)
  ∧ (∃ d, analyze_single_damage ∅ PNone = Ok d ∧ area_sqm d = 1%float).
Proof.
  split.
  - refine (proj1 (area_of_short_or_missing_bbox short_bbox_detection PNone _)
              (PList [PInt 100; PInt 150]) _ _).
    + solve_detection_ok.
    + vm_compute. reflexivity.
    + right. exists 2. split; [reflexivity|lia].
  - refine (proj2 (area_of_short_or_missing_bbox ∅ PNone _) _).
    + split; intros ? Hv; vm_compute in Hv; discriminate Hv.
    + vm_compute. reflexivity.
Defined.


(** The empty detection gets the default box: one square meter, not 0.1. *)
Lemma missing_bbox_area :
  ∃ d, analyze_single_damage ∅ PNone = Ok d
       ∧ area_sqm d = 1%float ∧ (area_sqm d =? 0.1)%float = false.
Proof. eexists. split; [vm_compute; reflexivity|]. split; vm_compute; reflexivity. Qed.

Lemma SFsign_is_nn x : SFsign_is false x -> SFnn x.
Proof. by destruct x. Qed.

Lemma SFmul_nn x y : SFnn x -> SFnn y -> SFnn (SFmul prec emax x y).
Proof.
  destruct x as [s1|s1| |s1 m1 e1], y as [s2|s2| |s2 m2 e2]; simpl; try done;
    try (by intros -> ->).
  intros -> ->. apply SFsign_is_nn. by apply binary_round_aux_sign.
Qed.

Lemma to_float_abs_nn n f : to_float (num_abs n) = Ok f -> SFnn (Prim2SF f).
Proof.
  destruct n as [z|g]; simpl.
  - intros Hf. apply SFsign_is_nn. apply (float_of_Z_sign (Z.abs z)); [done|lia].
  - intros [= <-]. rewrite abs_spec. by destruct (Prim2SF g).
Qed.

Lemma calculate_damage_area_nn bbox image_shape a :
  calculate_damage_area bbox image_shape 0.01 = Ok a -> SFnn (Prim2SF a).
Proof.
  unfold calculate_damage_area.
  destruct (negb (py_truthy bbox)); [by intros [= <-]|].
  intros H. exc_inv H. destruct (a0 <? 4); [by injection H as <-|].
  exc_inv H. destruct a1 as [[[x1 y1] x2] y2].
  exc_inv H. exc_inv H. unfold num_mul_float in H.
  exc_inv H. exc_inv E3. injection E3 as <-.
  exc_inv H. exc_inv E3. injection E3 as <-. injection H as <-.
  rewrite !mul_spec.
  assert (SFnn (Prim2SF 0.01)) by done.
  repeat apply SFmul_nn; try done; by eapply to_float_abs_nn.
Qed.

Lemma round_half_even_nonneg num den : 0 <= num -> 0 < den -> 0 <= round_half_even num den.
Proof.
  intros Hn Hd. unfold round_half_even.
  assert (0 <= num / den) by (apply Z.div_pos; lia).
  destruct (2 * (num mod den) ?= den); [destruct (Z.even _)|..]; lia.
Qed.

Lemma RN_ratio_sign a b : 0 <= a -> 0 < b -> SFsign_is false (RN_ratio a b).
Proof.
  intros Ha Hb. unfold RN_ratio. destruct (a =? 0); [done|].
  apply binary_normalize_sign.
  assert (0 <= Z.shiftl a (Z.max 0 (55 + Z.log2 b - Z.log2 a)) / b).
  { apply Z.div_pos; [|done]. apply Z.shiftl_nonneg. lia. }
  destruct (_ =? 0); lia.
Qed.

Lemma py_round_sign x ndigits :
  SFsign_is false (Prim2SF x) -> SFsign_is false (Prim2SF (py_round x ndigits)).
Proof.
  unfold py_round. destruct (Prim2SF x) as [s|s| |s m e] eqn:E; simpl; try done.
  - intros ->. by rewrite E.
  - intros ->. by rewrite E.
  - intros ->. apply Prim2SF_SF2Prim_sign.
    assert (0 < 10 ^ Z.of_nat ndigits) by (apply Z.pow_pos_nonneg; lia).
    apply RN_ratio_sign; [|done].
    destruct (0 <=? e) eqn:He.
    + apply Z.leb_le in He. assert (0 < 2 ^ e) by (apply Z.pow_pos_nonneg; lia). nia.
    + apply Z.leb_gt in He. apply round_half_even_nonneg; [lia|].
      apply Z.pow_pos_nonneg; lia.
Qed.

(** What a returned estimate was computed from. *)
Lemma analyze_aux_inv detection image_shape d t :
  analyze_single_damage_aux detection image_shape = Ok (d, t) ->
  ∃ a sev cost time cf,
    calculate_damage_area (detection_bbox detection) image_shape 0.01 = Ok a
    ∧ 0 <= cost < 2 ^ 14 ∧ float_of_Z cost = Ok cf
    ∧ SFpositive 4 (Prim2SF time)
    ∧ t = (a * time)%float
    ∧ py_ceil (t / 8) = Ok (repair_days d)
    ∧ severity d = sev
    ∧ priority d = priority_matrix sev
    ∧ py_hashable (damage_type d) = Ok ()
    ∧ area_sqm d = py_round a 2
    ∧ repair_cost d = py_round (a * cf) 2
    ∧ repair_time_hours d = py_round t 1.
Proof.
  unfold analyze_single_damage_aux. fold (detection_bbox detection). intros H.
  apply bind_Ok_inv in H as (a & Ha & H).
  apply bind_Ok_inv in H as (sev & Hsev & H).
  apply bind_Ok_inv in H as (prow & Hprow & H).
  apply bind_Ok_inv in H as (costs & Hcosts & H).
  apply bind_Ok_inv in H as (trow & Htrow & H).
  apply bind_Ok_inv in H as (times & Htimes & H).
  apply bind_Ok_inv in H as (cf & Hcf & H).
  apply bind_Ok_inv in H as (days & Hdays & H).
  injection H as <- <-.
  destruct dict_index_costs as (prow' & Hp1 & Hp2). rewrite Hprow in Hp1. injection Hp1 as <-.
  destruct dict_index_times as (trow' & Ht1 & Ht2). rewrite Htrow in Ht1. injection Ht1 as <-.
  apply (dict_get_Ok_inv (λ row, ∀ sev, 0 <= cost_per_m (row sev) < 2 ^ 14)) in Hcosts
    as [Hcb Hhash]; [|intros; by eapply repair_costs_bound..].
  apply (dict_get_Ok_inv (λ row, ∀ sev, SFpositive 4 (Prim2SF (row sev)))) in Htimes
    as [Htb _]; [|intros; by eapply repair_times_bound..].
  exists a, sev, (cost_per_m (costs sev)), (times sev), cf. simpl.
  repeat split; try done; apply Hcb || apply Htb.
Qed.

(** C4 (as amended): every returned estimate has [repair_cost >= 0] and
    [repair_time_hours >= 0]; [repair_time_hours] is the unrounded
    [total_time_hours] rounded to one decimal, and [repair_days] is the
    ceiling of the unrounded [total_time_hours] divided by 8. *)
Theorem estimate_costs_nonneg detection image_shape d :
  analyze_single_damage detection image_shape = Ok d ->
  (0 <=? repair_cost d)%float = true ∧
  (0 <=? repair_time_hours d)%float = true ∧
  ∃ total_time_hours,
    analyze_single_damage_aux detection image_shape = Ok (d, total_time_hours)
    ∧ repair_time_hours d = py_round total_time_hours 1
    ∧ py_ceil (total_time_hours / 8) = Ok (repair_days d).
Proof.
  unfold analyze_single_damage. intros ([d' t] & Haux & ->)%fmap_Ok_inv. simpl.
  destruct (analyze_aux_inv _ _ _ _ Haux)
    as (a & sev & cost & time & cf & Ha & Hcost & Hcf & Htime & -> & Hdays & _ & _ & _ & _ & Hrc & Hrt).
  assert (SFsign_is false (Prim2SF a) ∧ SFsign_is false (Prim2SF (a * time))) as [Hsa Hst].
  { pose proof (calculate_damage_area_nn _ _ _ Ha) as Hnn.
    unfold py_ceil in Hdays. rewrite div_spec, mul_spec in Hdays. rewrite mul_spec.
    change (Prim2SF 8) with (S754_finite false 4503599627370496 (-49)) in Hdays.
    destruct (Prim2SF time) as [| | |[] mt et]; try done.
    destruct (Prim2SF a) as [sa|sa| |sa ma ea]; simpl in *; try done.
    all: subst sa; split; [done|]; first [done|by apply binary_round_aux_sign]. }
  assert (SFsign_is false (Prim2SF (a * cf))) as Hsc.
  { rewrite mul_spec.
    destruct (float_of_Z_below cost 14) as (cf' & Hcf' & Hcs); [lia..|].
    rewrite Hcf in Hcf'. injection Hcf' as <-.
    assert ((cost <? 0) = false) as Hneg by lia. rewrite Hneg in Hcs.
    unfold py_ceil in Hdays. rewrite div_spec, mul_spec in Hdays.
    change (Prim2SF 8) with (S754_finite false 4503599627370496 (-49)) in Hdays.
    destruct (Prim2SF time) as [| | |[] mt et]; try done.
    destruct (Prim2SF a) as [sa|sa| |sa ma ea], (Prim2SF cf) as [sc|sc| |sc mc ec];
      simpl in *; try done; subst; try done.
    all: destruct Hcs as (-> & _); first [done|by apply binary_round_aux_sign]. }
  split; [rewrite Hrc; by apply leb_zero_nonneg, py_round_sign|].
  split; [rewrite Hrt; by apply leb_zero_nonneg, py_round_sign|].
  by exists (a * time)%float.
Qed.

Lemma estimate_costs_nonneg_witness :
  ∃ d, analyze_single_damage demo_pothole PNone = Ok d
       ∧ (0 <=? repair_cost d)%float = true
       ∧ (0 <=? repair_time_hours d)%float = true
       ∧ ∃ total_time_hours,
           analyze_single_damage_aux demo_pothole PNone = Ok (d, total_time_hours)
           ∧ repair_time_hours d = py_round total_time_hours 1
           ∧ py_ceil (total_time_hours / 8) = Ok (repair_days d).
Proof.
  eexists. split; [vm_compute; reflexivity|].
  apply (estimate_costs_nonneg demo_pothole PNone). vm_compute. reflexivity.
Defined.


(** ** Comparisons *)

Lemma SFleb_trans x y z :
  SFleb x y = true -> SFleb y z = true -> SFleb x z = true.
Proof.
  unfold SFleb.
  destruct x as [s1|s1| |s1 m1 e1], y as [s2|s2| |s2 m2 e2], z as [s3|s3| |s3 m3 e3];
    simpl; try done;
    try (destruct s1; try done); try (destruct s2; try done); try (destruct s3; try done).
  all: change (Pos.compare_cont Eq) with Pos.compare.
  all: destruct (Z.compare_spec e1 e2), (Z.compare_spec e2 e3), (Z.compare_spec e1 e3);
    try done; try lia; subst.
  all: destruct (Pos.compare_spec m1 m2), (Pos.compare_spec m2 m3), (Pos.compare_spec m1 m3);
    simpl; try done; try lia.
Qed.

Lemma Z_ge_threshold z c :
  threshold c ->
  match Z_compare_float z c with Some (Gt | Eq) => true | _ => false end = true <-> 1 <= z.
Proof.
  intros (m & e & Hc & He & Hm). unfold Z_compare_float. rewrite Hc.
  assert ((0 <=? e) = false) as -> by lia.
  assert (0 < 2 ^ (- e)) by (apply Z.pow_pos_nonneg; lia).
  destruct (Z.compare_spec (z * 2 ^ (- e)) (Z.pos m)); split; try done; nia.
Qed.

Lemma num_ge_float_mono c1 c2 t :
  threshold t -> num_le c1 c2 = true ->
  num_ge_float c1 t = true -> num_ge_float c2 t = true.
Proof.
  intros Ht Hle. pose proof Ht as (mt & et & Hpt & Het & Hmt).
  destruct c1 as [z1|f1], c2 as [z2|f2]; simpl in *.
  - rewrite !Z_ge_threshold by done. lia.
  - rewrite Z_ge_threshold by done. intros Hz.
    rewrite leb_spec, Hpt. unfold Z_compare_float in Hle.
    pose proof (Prim2SF_valid f2) as Hv.
    destruct (Prim2SF f2) as [s|s| |s m e]; simpl in *; try done.
    + destruct (Z.compare_spec z1 0); try done; lia.
    + unfold bounded, canonical_mantissa in Hv.
      apply andb_prop in Hv as [Hcan _]. apply Z.eqb_eq in Hcan. rewrite fexp_eq in Hcan.
      destruct s.
      { destruct (0 <=? e) eqn:E.
        - apply Z.leb_le in E. assert (0 < 2 ^ e) by (apply Z.pow_pos_nonneg; lia).
          destruct (Z.compare_spec z1 (Z.neg m * 2 ^ e)); try done; nia.
        - apply Z.leb_gt in E. assert (0 < 2 ^ (- e)) by (apply Z.pow_pos_nonneg; lia).
          destruct (Z.compare_spec (z1 * 2 ^ (- e)) (Z.neg m)); try done; nia. }
      assert (et < e) as Hlt.
      { destruct (Z.le_gt_cases e et) as [Hee|]; [exfalso|done].
        assert ((0 <=? e) = false) as E by lia. rewrite E in Hle.
        assert (0 < 2 ^ (- e)) by (apply Z.pow_pos_nonneg; lia).
        assert (Z.pos m < 2 ^ 53).
        { apply (Zdigits2_le (Z.pos m)); [lia|lia|]. simpl. lia. }
        assert (2 ^ 53 <= 2 ^ (- e)) by (apply Z.pow_le_mono_r; lia).
        destruct (Z.compare_spec (z1 * 2 ^ (- e)) (Z.pos m)); try done; nia. }
      unfold SFleb. simpl.
      destruct (Z.compare_spec et e); try done; lia.
  - rewrite Z_ge_threshold by done. rewrite leb_spec, Hpt.
    unfold Z_compare_float in Hle.
    destruct (Prim2SF f1) as [s|s| |s m e]; simpl in *; try done.
    + by destruct s.
    + destruct s; [done|]. intros _.
      destruct (0 <=? e) eqn:E.
      * apply Z.leb_le in E. assert (0 < 2 ^ e) by (apply Z.pow_pos_nonneg; lia).
        destruct (Z.compare_spec z2 (Z.pos m * 2 ^ e)); try done; nia.
      * apply Z.leb_gt in E. assert (0 < 2 ^ (- e)) by (apply Z.pow_pos_nonneg; lia).
        destruct (Z.compare_spec (z2 * 2 ^ (- e)) (Z.pos m)); try done; nia.
  - rewrite !leb_spec in *. intros H. by eapply SFleb_trans.
Qed.

Lemma thresholds : threshold 0.8 ∧ threshold 0.6 ∧ threshold 0.4.
Proof. repeat split; eexists _, _; (split; [vm_compute; reflexivity|]); split; done. Qed.

(** C9: for a fixed damage type and a fixed area, the severity is monotone
    in the confidence: for numbers [c1 <= c2] both severities are computed
    and the one of [c1] is at most the one of [c2] in the order
    minor < moderate < severe < critical, the area escalation applied in
    both runs. *)
Theorem severity_monotone_in_confidence c1 c2 damage_type area_sqm :
  num_le c1 c2 = true ->
  ∃ s1 s2,
    determine_severity (number_value c1) damage_type area_sqm = Ok s1
    ∧ determine_severity (number_value c2) damage_type area_sqm = Ok s2
    ∧ severity_rank s1 <= severity_rank s2.
Proof.
  intros Hle. destruct thresholds as (T8 & T6 & T4).
  pose proof (num_ge_float_mono c1 c2 0.8 T8 Hle) as H8.
  pose proof (num_ge_float_mono c1 c2 0.6 T6 Hle) as H6.
  unfold determine_severity, py_ge_float.
  assert (∀ n, as_number (number_value n) = Ok n) as Hn by (by intros []).
  rewrite !Hn. simpl.
  destruct (num_ge_float c1 0.8), (num_ge_float c2 0.8); simpl;
    try (by discriminate H8);
    destruct (num_ge_float c1 0.6), (num_ge_float c2 0.6); simpl;
    try (by discriminate H6);
    destruct (num_ge_float c1 0.4), (num_ge_float c2 0.4); simpl;
    eexists _, _; (split; [done|]); (split; [done|]);
    destruct (high_impact damage_type), (2.0 <? area_sqm)%float, (0.5 <? area_sqm)%float;
    simpl; lia.
Qed.

Lemma severity_monotone_in_confidence_witness :
  ∃ s1 s2,
    determine_severity (PFloat 0.5) (PStr "D40_Pothole") 1 = Ok s1
    ∧ determine_severity (PInt 1) (PStr "D40_Pothole") 1 = Ok s2
    ∧ severity_rank s1 <= severity_rank s2.
Proof.
  apply (severity_monotone_in_confidence (NFloat 0.5) (NInt 1)). vm_compute. reflexivity.
Defined.

(** C3: the code at the failing input.  A pothole or an alligator crack of
    confidence 0.5 and area 3.0 (above 0.5 and above 2.0) stays [minor]: the
    minor-to-moderate escalation sits in the [elif] of the [area > 2.0] test
    and is skipped; at area 1.0 the same detection is [moderate]. *)
Theorem large_low_confidence_pothole_stays_minor :
  determine_severity (PFloat 0.5) (PStr "D40_Pothole") 3.0 = Ok minor
  ∧ determine_severity (PFloat 0.5) (PStr "D20_Alligator_Crack") 3.0 = Ok minor
  ∧ determine_severity (PFloat 0.5) (PStr "D40_Pothole") 1.0 = Ok moderate.
Proof. repeat split; vm_compute; reflexivity. Qed.

(** C5 (as amended): the pothole of confidence 0.85 and bounding box
    [[100, 150, 180, 220]] yields [area_sqm] 0.56, severity severe,
    [repair_cost] 3360.0, [repair_time_hours] 2.2 (2.24 rounded to one
    decimal) and [repair_days] 1. *)
Theorem demo_pothole_estimate :
  ∃ d, analyze_single_damage demo_pothole PNone = Ok d
       ∧ area_sqm d = 0.56%float
       ∧ severity d = severe
       ∧ repair_cost d = 3360%float
       ∧ repair_time_hours d = 2.2%float
       ∧ repair_days d = 1.
Proof. eexists. split; [vm_compute; reflexivity|]. repeat split; vm_compute; reflexivity. Qed.

(** The stored hours are 2.2, which is not 2.24. *)
Lemma demo_pothole_hours_not_2_24 :
  ∃ d, analyze_single_damage demo_pothole PNone = Ok d
       ∧ repair_time_hours d = 2.2%float
       ∧ (repair_time_hours d =? 2.24)%float = false.
Proof. eexists. split; [vm_compute; reflexivity|]. split; vm_compute; reflexivity. Qed.

(** A 20 by 30 pixel crack: the stored hours round to 0.0, whose ceiling of
    an eighth is 0, while [repair_days] is 1. *)
Lemma small_crack_days :
  ∃ d, analyze_single_damage small_crack PNone = Ok d
       ∧ repair_time_hours d = 0%float
       ∧ py_ceil (repair_time_hours d / 8) = Ok 0
       ∧ repair_days d = 1.
Proof. eexists. split; [vm_compute; reflexivity|]. repeat split; vm_compute; reflexivity. Qed.

(** C6: for every area name and every image count, the aggregator on an
    empty list returns the clean-area report, never the report of the
    non-empty branch: the condition is EXCELLENT, the cost, time and area
    totals are 0, and the next inspection is 180 days after the clock
    reading. *)
Theorem empty_survey_is_clean now area_name total_images :
  ∃ r, generate_area_summary now area_name [] total_images = Ok (CleanReport r)
       ∧ r = generate_clean_area_report now area_name total_images
       ∧ clean_overall_condition r = "EXCELLENT"
       ∧ total_repair_cost_usd (clean_summary_statistics r) = 0%float
       ∧ total_repair_time_hours (clean_summary_statistics r) = 0%float
       ∧ total_damaged_area_sqm (clean_summary_statistics r) = 0%float
       ∧ damage_rate_percentage (clean_summary_statistics r) = 0%float
       ∧ damaged_locations (clean_summary_statistics r) = 0
       ∧ estimated_project_duration_days (clean_summary_statistics r) = 0
       ∧ total_images_surveyed (clean_summary_statistics r) = total_images
       ∧ next_inspection r = ordinal now + 180.
Proof. eexists. split; [reflexivity|]. repeat split. Qed.

(** ** The aggregator *)

Lemma estimator_output_wf d :
  estimator_output d ->
  py_hashable (damage_type d) = Ok () ∧ priority d = priority_matrix (severity d).
Proof.
  intros (detection & image_shape & H). unfold analyze_single_damage in H.
  apply fmap_Ok_inv in H as ([d' t] & Haux & ->). simpl.
  destruct (analyze_aux_inv _ _ _ _ Haux)
    as (a & sev & cost & time & cf & _ & _ & _ & _ & _ & _ & <- & Hp & Hh & _).
  done.
Qed.

Lemma estimates_of_output detections :
  Forall estimator_output (estimates_of detections).
Proof.
  induction detections as [|det dets IH]; simpl; [constructor|].
  unfold estimates_of in *. simpl.
  destruct (analyze_single_damage det PNone) eqn:E; simpl; [|done].
  constructor; [|done]. by exists det, PNone.
Qed.

Lemma count_incr_lookup `{Countable K} (counts : gmap K Z) k k' :
  default 0 (count_incr counts k !! k') =
  default 0 (counts !! k') + (if decide (k = k') then 1 else 0).
Proof.
  unfold count_incr. destruct (decide (k = k')) as [->|Hne].
  - by rewrite lookup_insert_eq.
  - rewrite lookup_insert_ne by done. lia.
Qed.

Lemma count_severity_cons s d ds :
  count_severity s (d :: ds) =
  (if decide (severity d = s) then 1 else 0) + count_severity s ds.
Proof.
  unfold count_severity. rewrite filter_cons.
  destruct (decide (severity d = s)); simpl; lia.
Qed.

Lemma count_damages_severity ds acc counts s :
  count_damages ds acc = Ok counts ->
  default 0 (severity_counts counts !! s) =
  default 0 (severity_counts acc !! s) + count_severity s ds.
Proof.
  revert acc. induction ds as [|d ds IH]; intros acc; simpl.
  - intros [= <-]. unfold count_severity. simpl. lia.
  - intros H. apply bind_Ok_inv in H as ([] & _ & H).
    rewrite (IH _ H). simpl. rewrite count_incr_lookup, count_severity_cons. lia.
Qed.

Lemma count_damages_returns ds acc :
  Forall (λ d, py_hashable (damage_type d) = Ok ()) ds -> returns (count_damages ds acc).
Proof.
  intros Hds. revert acc. induction Hds as [|d ds Hd _ IH]; intros acc; simpl.
  - by eexists.
  - rewrite Hd. simpl. apply IH.
Qed.

Lemma group_by_priority_returns ds groups :
  Forall (λ d, 1 <= level (priority d) <= 4) ds ->
  (∀ k, 1 <= k <= 4 -> is_Some (groups !! k)) ->
  returns (group_by_priority ds groups).
Proof.
  intros Hds. revert groups. induction Hds as [|d ds Hd _ IH]; intros groups Hg; simpl.
  - by eexists.
  - destruct (Hg _ Hd) as [g ->]. apply IH. intros k Hk.
    destruct (decide (level (priority d) = k)) as [->|Hne].
    + rewrite lookup_insert_eq. by eexists.
    + rewrite lookup_insert_ne by done. by apply Hg.
Qed.

Lemma calculate_project_timeline_returns ds :
  Forall (λ d, 1 <= level (priority d) <= 4) ds ->
  returns (calculate_project_timeline ds).
Proof.
  intros Hds. unfold calculate_project_timeline.
  destruct (group_by_priority_returns ds {[ 1 := []; 2 := []; 3 := []; 4 := [] ]} Hds)
    as [groups ->].
  - intros k Hk.
    assert (k = 1 ∨ k = 2 ∨ k = 3 ∨ k = 4) as [-> | [-> | [-> | ->]]] by lia; by eexists.
  - simpl. by eexists.
Qed.

Lemma priority_matrix_level s : 1 <= level (priority_matrix s) <= 4.
Proof. destruct s; simpl; lia. Qed.

Lemma RN_ratio_below a b k :
  0 <= a < 2 ^ k -> 0 < b -> 0 <= k <= 1023 ->
  SFbelow false (k + 1) (RN_ratio a b).
Proof.
  intros Ha Hb Hk. unfold RN_ratio. destruct (a =? 0) eqn:E; [done|].
  apply Z.eqb_neq in E.
  set (K := Z.max 0 (55 + Z.log2 b - Z.log2 a)).
  assert (0 <= K) by lia.
  rewrite !Z.shiftl_mul_pow2 by done.
  assert (0 < 2 ^ K) by (apply Z.pow_pos_nonneg; lia).
  set (q := a * 2 ^ K / b).
  assert (0 <= q <= a * 2 ^ K) as Hq.
  { split; [apply Z.div_pos; nia|]. apply Z.div_le_upper_bound; nia. }
  eapply SFbelow_mono; [|apply (binary_normalize_below _ _ k)]; [lia| | |lia].
  - destruct (_ =? 0); lia.
  - cut (Zdigits2 (2 * q + (if a * 2 ^ K mod b =? 0 then 0 else 1)) <= k + K + 1); [lia|].
    apply Zdigits2_le; [destruct (_ =? 0); lia|lia|].
    rewrite !Z.pow_add_r by lia. destruct (_ =? 0); nia.
Qed.

Lemma int_true_divide_returns a b k :
  Z.abs a < 2 ^ k -> b ≠ 0 -> 0 <= k -> k + 3 <= 1023 ->
  ∃ f s, int_true_divide a b = Ok f ∧ SFbelow s (k + 3) (Prim2SF f).
Proof.
  intros Ha Hb Hk Hr. unfold int_true_divide.
  assert ((b =? 0) = false) as -> by lia.
  pose proof (RN_ratio_below (Z.abs a) (Z.abs b) k ltac:(lia) ltac:(lia) ltac:(lia)) as Hn.
  pose proof (Prim2SF_SF2Prim_below false (k + 1) _ Hn ltac:(lia)) as Hp.
  rewrite Z.max_l in Hp by lia. replace (k + 1 + 1 + 1) with (k + 3) in Hp by lia.
  destruct (RN_ratio (Z.abs a) (Z.abs b)) eqn:E; try done.
  - eexists _, (Z.sgn a * Z.sgn b <? 0); split; [done|]. destruct (_ <? 0); [|done].
    rewrite FloatAxioms.opp_spec. by apply (SFopp_below false).
  - eexists _, (Z.sgn a * Z.sgn b <? 0); split; [done|]. destruct (_ <? 0); [|done].
    rewrite FloatAxioms.opp_spec. by apply (SFopp_below false).
Qed.

Lemma max_with_one_nonzero x f :
  to_float (max_with_one x) = Ok f -> (f =? 0)%float = false.
Proof.
  unfold max_with_one, Z_compare_float.
  destruct (Prim2SF x) as [s|s| |s m e] eqn:E.
  - simpl. intros [= <-]. vm_compute. reflexivity.
  - destruct s; simpl; [intros [= <-]; vm_compute; reflexivity|].
    intros [= <-]. rewrite eqb_spec, E. done.
  - simpl. intros [= <-]. rewrite eqb_spec, E. done.
  - destruct (if 0 <=? e then _ else _); simpl; intros [= <-];
      first [by vm_compute | rewrite eqb_spec, E; by destruct s].
Qed.

Lemma to_float_max_with_one x : returns (to_float (max_with_one x)).
Proof.
  unfold max_with_one. destruct (Z_compare_float 1 x) as [[]|]; simpl; try by eexists.
Qed.

Lemma generate_budget_breakdown_aux_returns ds :
  returns (generate_budget_breakdown_aux ds).
Proof.
  unfold generate_budget_breakdown_aux.
  destruct (to_float_max_with_one (py_sum (area_sqm <$> ds))) as [divisor Hd].
  rewrite Hd. simpl. unfold float_div.
  rewrite (max_with_one_nonzero _ _ Hd). simpl. by eexists.
Qed.

Lemma calculate_total_resources_returns ds :
  Z.of_nat (length ds) < 2 ^ 63 -> returns (calculate_total_resources ds).
Proof.
  intros Hlen. unfold calculate_total_resources.
  destruct (int_true_divide_returns (Z.of_nat (length ds)) 5 63) as (f & s & -> & Hf);
    [lia|done|lia|lia|].
  simpl. destruct (py_ceil_returns s _ f Hf) as [n ->]. simpl. by eexists.
Qed.

(** The first-match-wins rule of the overall condition. *)
Lemma generate_area_summary_condition now area_name ds total_images r :
  ds ≠ [] ->
  generate_area_summary now area_name ds total_images = Ok r ->
  report_condition r =
    if 0 <? count_severity critical ds then "CRITICAL"
    else if 2 <? count_severity severe ds then "POOR"
    else if (0 <? count_severity severe ds) || (5 <? Z.of_nat (length ds)) then "FAIR"
    else "GOOD".
Proof.
  intros Hne H. unfold generate_area_summary in H.
  destruct ds as [|d ds']; [done|]. set (ds := d :: ds') in *.
  apply bind_Ok_inv in H as (counts & Hcounts & H).
  rewrite !(count_damages_severity _ _ _ _ Hcounts) in H.
  cbn [severity_counts] in H. rewrite !lookup_empty in H. cbn [default] in H.
  rewrite !Z.add_0_l in H.
  destruct (0 <? count_severity critical ds);
    [|destruct (2 <? count_severity severe ds);
      [|destruct ((0 <? count_severity severe ds) || (5 <? Z.of_nat (length ds)))]].
  all: apply bind_Ok_inv in H as (tl & _ & H).
  all: apply bind_Ok_inv in H as (rate & _ & H).
  all: apply bind_Ok_inv in H as (budget & _ & H).
  all: apply bind_Ok_inv in H as (resources & _ & H).
  all: by injection H as <-.
Qed.

(** C7: for every non-empty estimate list the overall condition of the
    report is decided first match first: a critical estimate gives
    CRITICAL; otherwise more than two severe give POOR; otherwise a severe
    one or more than five estimates give FAIR; otherwise GOOD.  Severities
    [[critical, severe, minor]] give CRITICAL, and no critical with three
    severe among six estimates gives POOR. *)
Theorem overall_condition_first_match now area_name ds total_images r :
  ds ≠ [] ->
  generate_area_summary now area_name ds total_images = Ok r ->
  report_condition r =
    (if 0 <? count_severity critical ds then "CRITICAL"
     else if 2 <? count_severity severe ds then "POOR"
     else if (0 <? count_severity severe ds) || (5 <? Z.of_nat (length ds)) then "FAIR"
     else "GOOD")
  ∧ (severity <$> ds = [critical; severe; minor] -> report_condition r = "CRITICAL")
  ∧ (count_severity critical ds = 0 -> count_severity severe ds = 3 ->
     length ds = 6%nat -> report_condition r = "POOR").
Proof.
  intros Hne H. rewrite (generate_area_summary_condition _ _ _ _ _ Hne H).
  split; [done|]. split.
  - intros Hs. destruct ds as [|d1 [|d2 [|d3 [|]]]]; try done.
    injection Hs as H1 H2 H3.
    assert ((0 <? count_severity critical [d1; d2; d3]) = true) as ->; [|done].
    apply Z.ltb_lt. rewrite count_severity_cons, H1, decide_True by done.
    unfold count_severity. lia.
  - by intros -> -> ->.
Qed.

Lemma overall_condition_first_match_witness :
  ∃ r, generate_area_summary demo_clock "Ring Road" demo_estimates 10 = Ok r
       ∧ report_condition r = "CRITICAL".
Proof.
  eexists. split; [vm_compute; reflexivity|].
  refine (proj1 (proj2 (overall_condition_first_match demo_clock "Ring Road"
                          demo_estimates 10 _ _ _)) _).
  - intros H. vm_compute in H. discriminate H.
  - vm_compute. reflexivity.
  - vm_compute. reflexivity.
Defined.


Lemma estimator_outputs_counted ds :
  Forall estimator_output ds ->
  Forall (λ d, py_hashable (damage_type d) = Ok ()) ds
  ∧ Forall (λ d, 1 <= level (priority d) <= 4) ds.
Proof.
  intros H. split; eapply Forall_impl; try exact H; intros d [Hh Hp]%estimator_output_wf.
  - done.
  - rewrite Hp. apply priority_matrix_level.
Qed.

(** On a non-empty list of estimator outputs the counting loop and the
    timeline succeed, and the report is assembled from the damage rate, the
    budget and the resources, computed in this order. *)
Lemma generate_area_summary_nonempty now area_name ds total_images :
  ds ≠ [] -> Forall estimator_output ds ->
  ∃ assemble : float → Budget → Resources → AreaSummary,
    generate_area_summary now area_name ds total_images =
      damage_rate ← int_true_divide (Z.of_nat (length ds)) total_images;
      budget ← generate_budget_breakdown ds;
      resources ← calculate_total_resources ds;
      Ok (FullReport (assemble damage_rate budget resources)).
Proof.
  intros Hne [Hhash Hlevel]%estimator_outputs_counted.
  destruct ds as [|d ds']; [done|]. unfold generate_area_summary.
  destruct (count_damages_returns (d :: ds')
              {| severity_counts := ∅; damage_type_counts := []; priority_counts := ∅ |}
              Hhash) as [counts ->].
  destruct (calculate_project_timeline_returns (d :: ds') Hlevel) as [tl Htl].
  cbn [mbind exc_bind].
  destruct (_ <? _); [|destruct (_ <? _); [|destruct (_ || _)]];
    rewrite Htl; cbn [mbind exc_bind]; by eexists (λ damage_rate budget resources, _).
Qed.

(** C10: on a non-empty list of estimates the aggregator divides by
    [total_images] unguarded: with [total_images = 0] it raises
    [ZeroDivisionError]; with [total_images > 0] it returns; the empty list
    is unaffected, its damage rate is the constant 0.0. *)
Theorem zero_images_divides_by_zero now area_name ds :
  ds ≠ [] -> Forall estimator_output ds ->
  generate_area_summary now area_name ds 0 = Raise ZeroDivisionError
  ∧ (∀ total_images, 0 < total_images -> Z.of_nat (length ds) < 2 ^ 63 ->
       returns (generate_area_summary now area_name ds total_images))
  ∧ (∀ total_images,
       ∃ r, generate_area_summary now area_name [] total_images = Ok (CleanReport r)
            ∧ damage_rate_percentage (clean_summary_statistics r) = 0%float).
Proof.
  intros Hne Hds. split; [|split].
  - destruct (generate_area_summary_nonempty now area_name ds 0 Hne Hds) as [k ->].
    reflexivity.
  - intros N HN Hlen.
    destruct (generate_area_summary_nonempty now area_name ds N Hne Hds) as [k ->].
    destruct (int_true_divide_returns (Z.of_nat (length ds)) N 63) as (f & s & -> & _);
      [lia..|].
    destruct (generate_budget_breakdown_aux_returns ds) as [[b t] Hb].
    unfold generate_budget_breakdown. rewrite Hb.
    destruct (calculate_total_resources_returns ds Hlen) as [res ->].
    by eexists.
  - intros N. by eexists.
Qed.

Lemma zero_images_divides_by_zero_witness :
  generate_area_summary demo_clock "Ring Road" demo_estimates 0 = Raise ZeroDivisionError
  ∧ returns (generate_area_summary demo_clock "Ring Road" demo_estimates 10).
Proof.
  assert (demo_estimates ≠ []) as Hne by (intros H; vm_compute in H; discriminate H).
  assert (Forall estimator_output demo_estimates) as Hout.
  { unfold demo_estimates. apply estimates_of_output. }
  destruct (zero_images_divides_by_zero demo_clock "Ring Road" demo_estimates Hne Hout)
    as (H0 & Hpos & _).
  split; [exact H0|]. apply Hpos; [lia|]. vm_compute. reflexivity.
Defined.


Lemma round_half_even_error n den :
  0 < den -> 2 * Z.abs (round_half_even n den * den - n) <= den.
Proof.
  intros Hd. unfold round_half_even.
  pose proof (Z.div_mod n den ltac:(lia)) as Hdm.
  pose proof (Z.mod_pos_bound n den Hd) as Hr.
  destruct (Z.compare_spec (2 * (n mod den)) den); [destruct (Z.even _)|..]; nia.
Qed.

Lemma accumulate_categories_from ds init :
  fold_left
    (λ acc damage,
       let repair_cost := repair_cost damage in
       {| materials := materials acc + repair_cost * 0.4;
          labor := labor acc + repair_cost * 0.35;
          equipment := equipment acc + repair_cost * 0.15;
          traffic_control_budget := traffic_control_budget acc + repair_cost * 0.05;
          contingency := contingency acc + repair_cost * 0.05 |})%float
    ds init =
  {| materials :=
       fold_left (λ a x, a + x)%float ((λ d, repair_cost d * 0.4)%float <$> ds) (materials init);
     labor :=
       fold_left (λ a x, a + x)%float ((λ d, repair_cost d * 0.35)%float <$> ds) (labor init);
     equipment :=
       fold_left (λ a x, a + x)%float ((λ d, repair_cost d * 0.15)%float <$> ds) (equipment init);
     traffic_control_budget :=
       fold_left (λ a x, a + x)%float ((λ d, repair_cost d * 0.05)%float <$> ds)
         (traffic_control_budget init);
     contingency :=
       fold_left (λ a x, a + x)%float ((λ d, repair_cost d * 0.05)%float <$> ds)
         (contingency init) |}.
Proof.
  revert init. induction ds as [|d ds IH]; intros [m l e t c]; simpl; [done|].
  by rewrite IH.
Qed.

Lemma accumulate_categories_shares ds :
  let acc := accumulate_categories ds in
  materials acc = py_sum ((λ d, repair_cost d * 0.4)%float <$> ds)
  ∧ labor acc = py_sum ((λ d, repair_cost d * 0.35)%float <$> ds)
  ∧ equipment acc = py_sum ((λ d, repair_cost d * 0.15)%float <$> ds)
  ∧ traffic_control_budget acc = py_sum ((λ d, repair_cost d * 0.05)%float <$> ds)
  ∧ contingency acc = py_sum ((λ d, repair_cost d * 0.05)%float <$> ds).
Proof.
  unfold accumulate_categories. rewrite accumulate_categories_from. done.
Qed.

(** * Further properties *)

(** ** More on the unit estimator *)

(** X4: the priority of a returned estimate is the row of the priority
    matrix for its severity: level 1 exactly for critical, 2 for severe, 3
    for moderate and 4 for minor. *)
Theorem estimate_priority_follows_severity detection image_shape d :
  analyze_single_damage detection image_shape = Ok d ->
  priority d = priority_matrix (severity d)
  ∧ (level (priority d) = 1 <-> severity d = critical)
  ∧ (level (priority d) = 2 <-> severity d = severe)
  ∧ (level (priority d) = 3 <-> severity d = moderate)
  ∧ (level (priority d) = 4 <-> severity d = minor).
Proof.
  intros H.
  assert (estimator_output d) as [_ Hp]%estimator_output_wf by (by eexists _, _).
  split; [done|]. rewrite Hp. destruct (severity d); simpl; repeat split; done.
Qed.

Lemma estimate_priority_follows_severity_witness :
  ∃ d, analyze_single_damage demo_pothole PNone = Ok d
       ∧ priority d = priority_matrix (severity d)
       ∧ (level (priority d) = 2 <-> severity d = severe).
Proof.
  eexists. split; [vm_compute; reflexivity|].
  destruct (estimate_priority_follows_severity demo_pothole PNone _
              ltac:(vm_compute; reflexivity)) as (H1 & _ & H2 & _).
  split; [exact H1|exact H2].
Defined.

Lemma py_ceil_nonneg x n :
  SFsign_is false (Prim2SF x) -> py_ceil x = Ok n -> 0 <= n.
Proof.
  unfold py_ceil. destruct (Prim2SF x) as [s|s| |s m e]; simpl; try done.
  - by intros _ [= <-].
  - intros -> [= <-]. destruct (0 <=? e) eqn:E.
    + apply Z.leb_le in E. assert (0 < 2 ^ e) by (apply Z.pow_pos_nonneg; lia). nia.
    + apply Z.leb_gt in E. assert (0 < 2 ^ (- e)) by (apply Z.pow_pos_nonneg; lia).
      assert (- Z.pos m / 2 ^ (- e) <= 0); [|lia].
      apply Z.div_le_upper_bound; lia.
Qed.

Lemma SFdiv_sign sx sy x my ey :
  SFsign_is sx x -> SFsign_is (xorb sx sy) (SFdiv prec emax x (S754_finite sy my ey)).
Proof.
  destruct x as [s1|s1| |s1 m1 e1]; simpl; try done; try by intros ->.
  intros ->.
  pose proof (SFdiv_core_binary_spec m1 e1 my ey
    (Z.max (Z.pos (digits2_pos m1) + e1 - (Z.pos (digits2_pos my) + ey) + 1) (-1074))
    ltac:(lia) ltac:(lia)) as Hc.
  destruct (SFdiv_core_binary prec emax (Z.pos m1) e1 (Z.pos my) ey) as [[q e'] l].
  destruct Hc as (Hq & _). by apply binary_round_aux_sign.
Qed.

(** The area and the unrounded time behind a returned estimate are not
    negative and not NaN. *)
Lemma analyze_aux_signs detection image_shape d t :
  analyze_single_damage_aux detection image_shape = Ok (d, t) ->
  ∃ a, calculate_damage_area (detection_bbox detection) image_shape 0.01 = Ok a
       ∧ area_sqm d = py_round a 2
       ∧ SFsign_is false (Prim2SF a)
       ∧ SFsign_is false (Prim2SF t)
       ∧ SFsign_is false (Prim2SF (t / 8)).
Proof.
  intros Haux.
  destruct (analyze_aux_inv _ _ _ _ Haux)
    as (a & sev & cost & time & cf & Ha & Hcost & Hcf & Htime & -> & Hdays
        & _ & _ & _ & Harea & _).
  exists a. split; [done|]. split; [done|].
  pose proof (calculate_damage_area_nn _ _ _ Ha) as Hnn.
  assert (SFsign_is false (Prim2SF a) ∧ SFsign_is false (Prim2SF (a * time))) as [Hsa Hst].
  { unfold py_ceil in Hdays. rewrite div_spec, mul_spec in Hdays. rewrite mul_spec.
    change (Prim2SF 8) with (S754_finite false 4503599627370496 (-49)) in Hdays.
    destruct (Prim2SF time) as [| | |[] mt et]; try done.
    destruct (Prim2SF a) as [sa|sa| |sa ma ea]; simpl in *; try done.
    all: subst sa; split; [done|]; first [done|by apply binary_round_aux_sign]. }
  split; [done|]. split; [done|].
  rewrite div_spec. change (Prim2SF 8) with (S754_finite false 4503599627370496 (-49)).
  by apply (SFdiv_sign false false).
Qed.

(** X5: the repair days of a returned estimate are not negative. *)
Theorem estimate_repair_days_nonneg detection image_shape d :
  analyze_single_damage detection image_shape = Ok d -> 0 <= repair_days d.
Proof.
  unfold analyze_single_damage. intros ([d' t] & Haux & ->)%fmap_Ok_inv. simpl.
  destruct (analyze_aux_signs _ _ _ _ Haux) as (a & _ & _ & _ & _ & Hs).
  destruct (analyze_aux_inv _ _ _ _ Haux)
    as (a' & sev & cost & time & cf & _ & _ & _ & _ & _ & Hdays & _).
  by apply (py_ceil_nonneg _ _ Hs Hdays).
Qed.

Lemma estimate_repair_days_nonneg_witness :
  ∃ d, analyze_single_damage demo_pothole PNone = Ok d ∧ 0 <= repair_days d.
Proof.
  eexists. split; [vm_compute; reflexivity|].
  apply (estimate_repair_days_nonneg demo_pothole PNone). vm_compute. reflexivity.
Defined.

(** X3: [determine_severity] returns critical exactly for a high-impact
    type (alligator crack, pothole) with a confidence of at least 0.8 and an
    area above 2.0; for any other type the area plays no part. *)
Theorem critical_needs_large_high_impact confidence damage_type area_sqm s :
  determine_severity confidence damage_type area_sqm = Ok s ->
  (s = critical <->
     high_impact damage_type = true
     ∧ py_ge_float confidence 0.8 = Ok true
     ∧ (2.0 <? area_sqm)%float = true)
  ∧ (high_impact damage_type = false ->
     ∀ area_sqm', determine_severity confidence damage_type area_sqm' = Ok s).
Proof.
  unfold determine_severity, py_ge_float.
  destruct (as_number confidence) as [n|]; [|done]. simpl.
  destruct (num_ge_float n 0.8); simpl;
    [|destruct (num_ge_float n 0.6); simpl; [|destruct (num_ge_float n 0.4); simpl]].
  all: destruct (high_impact damage_type); simpl.
  all: destruct (2.0 <? area_sqm)%float, (0.5 <? area_sqm)%float; simpl.
  all: intros [= <-]; split; [split; [done|intros (? & ? & ?); done]|done].
Qed.

Lemma critical_needs_large_high_impact_witness :
  (critical = critical <->
     high_impact (PStr "D40_Pothole") = true
     ∧ py_ge_float (PFloat 0.9) 0.8 = Ok true
     ∧ (2.0 <? 3.0)%float = true).
Proof.
  apply (critical_needs_large_high_impact (PFloat 0.9) (PStr "D40_Pothole") 3.0 critical).
  vm_compute. reflexivity.
Defined.

(** X8: [estimate_crew_size] gives a crew of 2 to 8, and the head count of
    the roles of [get_crew_roles] is between the crew total and the total
    plus two; the two agree only for a crew of 2.  The first role is one
    supervisor. *)
Theorem crew_roles_head_count damage_type severity area_sqm :
  2 <= total (estimate_crew_size damage_type severity area_sqm) <= 8
  ∧ total (estimate_crew_size damage_type severity area_sqm)
    <= Zsum (snd <$> roles (estimate_crew_size damage_type severity area_sqm))
    <= total (estimate_crew_size damage_type severity area_sqm) + 2
  ∧ (Zsum (snd <$> roles (estimate_crew_size damage_type severity area_sqm))
     = total (estimate_crew_size damage_type severity area_sqm)
     <-> total (estimate_crew_size damage_type severity area_sqm) = 2)
  ∧ head (roles (estimate_crew_size damage_type severity area_sqm))
    = Some ("supervisor", 1).
Proof.
  unfold estimate_crew_size.
  destruct severity, (5.0 <? area_sqm)%float, (2.0 <? area_sqm)%float;
    vm_compute; repeat split; congruence.
Qed.

(** *** The corners of the bounding box *)

Lemma SFabs_binary_round s s' m e :
  SFabs (binary_round prec emax s m e) = SFabs (binary_round prec emax s' m e).
Proof.
  unfold binary_round. destruct (shl_align _ _ _) as [mz ez].
  unfold binary_round_aux.
  destruct (shr_fexp prec emax (Z.pos mz) ez loc_Exact) as [r1 e1].
  destruct (shr_fexp prec emax _ e1 loc_Exact) as [r2 e2].
  destruct (shr_m r2); [done| |done]. by destruct (_ <=? _).
Qed.

Lemma SFabs_binary_normalize_opp m e :
  SFabs (binary_normalize prec emax (- m) e false)
  = SFabs (binary_normalize prec emax m e false).
Proof. destruct m; simpl; [done|..]; apply SFabs_binary_round. Qed.

Lemma SFabs_SFsub_comm x y :
  SFabs (SFsub prec emax x y) = SFabs (SFsub prec emax y x).
Proof.
  destruct x as [s1|s1| |s1 m1 e1], y as [s2|s2| |s2 m2 e2]; simpl; try done;
    try (by destruct s1, s2).
  rewrite (Z.min_comm e2 e1). rewrite <- SFabs_binary_normalize_opp. do 2 f_equal. lia.
Qed.

Lemma abs_sub_comm (a b : float) : abs (a - b) = abs (b - a).
Proof. apply Prim2SF_inj. rewrite !abs_spec, !sub_spec. apply SFabs_SFsub_comm. Qed.

Lemma num_sub_swap x y : num_abs <$> num_sub x y = num_abs <$> num_sub y x.
Proof.
  destruct x as [x|f], y as [y|g]; simpl.
  - do 2 f_equal. lia.
  - destruct (float_of_Z x); simpl; [|done]. by rewrite abs_sub_comm.
  - destruct (float_of_Z y); simpl; [|done]. by rewrite abs_sub_comm.
  - by rewrite abs_sub_comm.
Qed.

Lemma as_number_error v e : as_number v = Raise e -> e = TypeError.
Proof. destruct v; simpl; congruence. Qed.

Lemma py_sub_swap a b : num_abs <$> py_sub a b = num_abs <$> py_sub b a.
Proof.
  unfold py_sub.
  destruct (as_number a) as [x|ea] eqn:Ea, (as_number b) as [y|eb] eqn:Eb;
    cbn [mbind exc_bind fmap exc_fmap]; try done.
  - apply num_sub_swap.
  - apply as_number_error in Ea, Eb. by subst.
Qed.

Lemma bind_fmap {A B C} (m : exc A) (f : A → B) (k : B → exc C) :
  m ≫= (λ a, k (f a)) = (f <$> m) ≫= k.
Proof. by destruct m. Qed.

(** X1: [calculate_damage_area] does not depend on which corner of the box
    comes first: for any four entries, any image shape and any ratio,
    swapping (x1, y1) with (x2, y2) gives the same float or the same
    exception. *)
Theorem calculate_damage_area_corner_order x1 y1 x2 y2 image_shape ratio :
  calculate_damage_area (PList [x1; y1; x2; y2]) image_shape ratio
  = calculate_damage_area (PList [x2; y2; x1; y1]) image_shape ratio.
Proof.
  unfold calculate_damage_area. cbn [py_truthy length Nat.eqb negb py_len].
  cbn [mbind exc_bind Z.of_nat Z.ltb Z.compare Pos.of_succ_nat Pos.succ Pos.compare
       Pos.compare_cont unpack4 py_iter].
  rewrite (bind_fmap (py_sub x2 x1) num_abs
             (λ w, dy ← py_sub y2 y1; wm ← num_mul_float w ratio;
                   hm ← num_mul_float (num_abs dy) ratio; Ok (wm * hm)%float)).
  rewrite (bind_fmap (py_sub x1 x2) num_abs
             (λ w, dy ← py_sub y1 y2; wm ← num_mul_float w ratio;
                   hm ← num_mul_float (num_abs dy) ratio; Ok (wm * hm)%float)).
  rewrite (py_sub_swap x2 x1).
  destruct (num_abs <$> py_sub x1 x2) as [w|]; [|done]. cbn [mbind exc_bind].
  rewrite (bind_fmap (py_sub y2 y1) num_abs
             (λ h, wm ← num_mul_float w ratio;
                   hm ← num_mul_float h ratio; Ok (wm * hm)%float)).
  rewrite (bind_fmap (py_sub y1 y2) num_abs
             (λ h, wm ← num_mul_float w ratio;
                   hm ← num_mul_float h ratio; Ok (wm * hm)%float)).
  by rewrite (py_sub_swap y2 y1).
Qed.

(** *** Degenerate boxes *)



Lemma SFsub_self x k s : SFbelow s k x -> SFzero (SFsub prec emax x x).
Proof.
  destruct x as [s1| | |s1 m e]; simpl; try done.
  - intros _. destruct s1; by eexists.
  - intros _. rewrite Z.min_id, Z.sub_diag. by eexists.
Qed.

Lemma py_sub_self x : pixel x -> ∃ c, py_sub x x = Ok c ∧ num_is_zero c.
Proof.
  intros (n & Hn & Hb)%pixel_number. unfold py_sub. rewrite Hn. simpl.
  destruct n as [z|f]; simpl in *.
  - eexists; split; [done|]. simpl. lia.
  - eexists; split; [done|]. simpl. rewrite sub_spec. destruct Hb as [s Hs].
    by eapply SFsub_self.
Qed.

Lemma num_mul_float_zero n ratio k :
  num_is_zero n -> SFpositive k (Prim2SF ratio) ->
  ∃ f, num_mul_float (num_abs n) ratio = Ok f ∧ Prim2SF f = S754_zero false.
Proof.
  intros Hn Hr. unfold num_mul_float. destruct n as [z|g]; simpl in *.
  - subst z. change (float_of_Z (Z.abs 0)) with (Ok 0%float). simpl.
    eexists; split; [done|]. rewrite mul_spec. change (Prim2SF 0) with (S754_zero false).
    by destruct (Prim2SF ratio) as [| | |[] m e].
  - eexists; split; [done|]. rewrite mul_spec, abs_spec. destruct Hn as [s ->].
    by destruct (Prim2SF ratio) as [| | |[] m e].
Qed.

Lemma calculate_damage_area_degenerate x1 y1 x2 y2 image_shape :
  pixel x1 -> pixel y1 -> pixel x2 -> pixel y2 -> x1 = x2 ∨ y1 = y2 ->
  ∃ a, calculate_damage_area (PList [x1; y1; x2; y2]) image_shape 0.01 = Ok a
       ∧ Prim2SF a = S754_zero false.
Proof.
  intros H1 H2 H3 H4 Heq. unfold calculate_damage_area. simpl.
  assert (SFpositive (-6) (Prim2SF 0.01)) as Hr by (vm_compute; split; discriminate).
  assert (SFbelow false (-6) (Prim2SF 0.01)) as Hr' by by apply SFpositive_below.
  destruct Heq as [<-|<-].
  - destruct (py_sub_self x1 H1) as (dx & -> & Hdx).
    destruct (py_sub_pixels y2 y1 H4 H2) as (dy & -> & Hdy). simpl.
    destruct (num_mul_float_zero dx 0.01 (-6) Hdx Hr) as (w & -> & Hw).
    destruct (num_mul_float_below (num_abs dy) 0.01 25 (-6)) as (h & -> & Hh);
      [lia..|by apply num_abs_below|done|].
    simpl. eexists; split; [done|]. rewrite mul_spec, Hw.
    destruct (Prim2SF h) as [sh| | |sh mh eh]; simpl in *; try done; [by subst|].
    by destruct Hh as (-> & _).
  - destruct (py_sub_pixels x2 x1 H3 H1) as (dx & -> & Hdx).
    destruct (py_sub_self y1 H2) as (dy & -> & Hdy). simpl.
    destruct (num_mul_float_below (num_abs dx) 0.01 25 (-6)) as (w & -> & Hw);
      [lia..|by apply num_abs_below|done|].
    destruct (num_mul_float_zero dy 0.01 (-6) Hdy Hr) as (h & -> & Hh).
    simpl. eexists; split; [done|]. rewrite mul_spec, Hh.
    destruct (Prim2SF w) as [sw| | |sw mw ew]; simpl in *; try done; [by subst|].
    by destruct Hw as (-> & _).
Qed.

Lemma py_round_zero x s ndigits : Prim2SF x = S754_zero s -> py_round x ndigits = x.
Proof. unfold py_round. by intros ->. Qed.

Lemma eqb_zero x s : Prim2SF x = S754_zero s -> (x =? 0)%float = true.
Proof. intros H. rewrite eqb_spec, H. done. Qed.

(** X2: a detection whose box has four pixel coordinates with [x1 = x2] or
    [y1 = y2] is estimated, and its area, repair cost and repair time are
    zero and it takes 0 repair days. *)
Theorem degenerate_bbox_estimate detection image_shape x1 y1 x2 y2 :
  detection_ok detection ->
  detection !! "bbox" = Some (PList [x1; y1; x2; y2]) ->
  pixel x1 -> pixel y1 -> pixel x2 -> pixel y2 -> x1 = x2 ∨ y1 = y2 ->
  ∃ d, analyze_single_damage detection image_shape = Ok d
       ∧ (area_sqm d =? 0)%float = true
       ∧ (repair_cost d =? 0)%float = true
       ∧ (repair_time_hours d =? 0)%float = true
       ∧ repair_days d = 0.
Proof.
  intros Hok Hbbox H1 H2 H3 H4 Heq.
  destruct (calculate_damage_area_degenerate x1 y1 x2 y2 image_shape H1 H2 H3 H4 Heq)
    as (a & Ha & Hz).
  assert (calculate_damage_area (detection_bbox detection) image_shape 0.01 = Ok a) as Ha'.
  { unfold detection_bbox. by rewrite Hbbox. }
  destruct (analyze_aux_returns detection image_shape a false Hok Ha') as (d & t & Haux & _).
  { by rewrite Hz. }
  exists d. unfold analyze_single_damage. rewrite Haux. split; [done|].
  destruct (analyze_aux_inv _ _ _ _ Haux)
    as (a' & sev & cost & time & cf & Ha'' & Hcost & Hcf & Htime & -> & Hdays
        & _ & _ & _ & Harea & Hrc & Hrt).
  rewrite Ha' in Ha''. injection Ha'' as <-.
  assert (Prim2SF (a * time) = S754_zero false) as Ht.
  { rewrite mul_spec, Hz. by destruct (Prim2SF time) as [| | |[] mt et]. }
  assert (Prim2SF (a * cf) = S754_zero false) as Hc.
  { rewrite mul_spec, Hz.
    destruct (float_of_Z_below cost 14) as (cf' & Hcf' & Hcs); [lia..|].
    rewrite Hcf in Hcf'. injection Hcf' as <-.
    assert ((cost <? 0) = false) as Hneg by lia. rewrite Hneg in Hcs.
    destruct (Prim2SF cf) as [sc| | |sc mc ec]; simpl in *; try done; [by subst|].
    by destruct Hcs as (-> & _). }
  rewrite Harea, Hrc, Hrt.
  rewrite (py_round_zero _ _ _ Hz), (py_round_zero _ _ _ Hc), (py_round_zero _ _ _ Ht).
  rewrite (eqb_zero _ _ Hz), (eqb_zero _ _ Hc), (eqb_zero _ _ Ht).
  repeat split.
  unfold py_ceil in Hdays. rewrite div_spec, Ht in Hdays.
  change (Prim2SF 8) with (S754_finite false 4503599627370496 (-49)) in Hdays.
  simpl in Hdays. by injection Hdays as <-.
Qed.



Lemma degenerate_bbox_estimate_witness :
  ∃ d, analyze_single_damage flat_box_detection PNone = Ok d
       ∧ (area_sqm d =? 0)%float = true
       ∧ (repair_cost d =? 0)%float = true
       ∧ (repair_time_hours d =? 0)%float = true
       ∧ repair_days d = 0.
Proof.
  apply (degenerate_bbox_estimate flat_box_detection PNone
           (PInt 40) (PInt 60) (PInt 90) (PInt 60)).
  - split; intros ? Hv; vm_compute in Hv; injection Hv as <-; [by eexists|done].
  - vm_compute. reflexivity.
  - simpl. lia.
  - simpl. lia.
  - simpl. lia.
  - simpl. lia.
  - right. reflexivity.
Defined.

(** *** The fields of a returned estimate *)

Lemma analyze_aux_fields detection image_shape d t :
  analyze_single_damage_aux detection image_shape = Ok (d, t) ->
  ∃ a prow costs,
    calculate_damage_area (detection_bbox detection) image_shape 0.01 = Ok a
    ∧ determine_severity (confidence d) (damage_type d) a = Ok (severity d)
    ∧ repair_costs !! "D40_Pothole" = Some prow
    ∧ dict_get repair_costs (damage_type d) prow = Ok costs
    ∧ repair_method d = method (costs (severity d))
    ∧ materials_needed d = material (costs (severity d))
    ∧ crew_size d = estimate_crew_size (damage_type d) (severity d) a
    ∧ equipment_needed d = get_equipment_list (damage_type d) (severity d)
    ∧ safety_requirements d = get_safety_requirements (damage_type d) (severity d)
    ∧ traffic_impact d = assess_traffic_impact (damage_type d) (severity d) a
    ∧ damage_type d = default (PStr "Unknown") (detection !! "damage_type")
    ∧ confidence d = default (PFloat 0.5) (detection !! "confidence")
    ∧ bbox d = detection_bbox detection.
Proof.
  unfold analyze_single_damage_aux. fold (detection_bbox detection). intros H.
  apply bind_Ok_inv in H as (a & Ha & H).
  apply bind_Ok_inv in H as (sev & Hsev & H).
  apply bind_Ok_inv in H as (prow & Hprow & H).
  apply bind_Ok_inv in H as (costs & Hcosts & H).
  apply bind_Ok_inv in H as (trow & Htrow & H).
  apply bind_Ok_inv in H as (times & Htimes & H).
  apply bind_Ok_inv in H as (cf & Hcf & H).
  apply bind_Ok_inv in H as (days & Hdays & H).
  injection H as <- <-.
  cbn [damage_type severity repair_method materials_needed confidence crew_size
       equipment_needed safety_requirements traffic_impact bbox].
  unfold dict_index in Hprow. destruct (repair_costs !! "D40_Pothole") eqn:E; [|done].
  injection Hprow as ->.
  by exists a, prow, costs.
Qed.

Lemma high_impact_has_row t :
  high_impact t = true -> ∃ s, t = PStr s ∧ is_Some (repair_costs !! s).
Proof.
  destruct t as [| | | |s|]; simpl; try done.
  intros [-> | ->]%bool_decide_eq_true; eexists; (split; [done|]); by eexists.
Qed.

Lemma determine_severity_low_impact confidence damage_type area_sqm s :
  high_impact damage_type = false ->
  determine_severity confidence damage_type area_sqm = Ok s ->
  s ≠ critical
  ∧ ∀ area_sqm', determine_severity confidence damage_type area_sqm' = Ok s.
Proof.
  unfold determine_severity, py_ge_float. intros ->.
  destruct (as_number confidence) as [n|]; [|done]. simpl.
  destruct (num_ge_float n 0.8); simpl;
    [|destruct (num_ge_float n 0.6); simpl; [|destruct (num_ge_float n 0.4); simpl]].
  all: by intros [= <-].
Qed.

(** X6: a returned estimate whose damage type has no row in the cost table
    is priced with the pothole row (method and material), at the severity
    of its confidence alone: it is never critical and the area plays no
    part in its severity. *)
Theorem unknown_type_priced_as_pothole detection image_shape d :
  analyze_single_damage detection image_shape = Ok d ->
  (∀ s, damage_type d = PStr s -> repair_costs !! s = None) ->
  ∃ pothole,
    repair_costs !! "D40_Pothole" = Some pothole
    ∧ repair_method d = method (pothole (severity d))
    ∧ materials_needed d = material (pothole (severity d))
    ∧ severity d ≠ critical
    ∧ ∀ area, determine_severity (confidence d) (damage_type d) area = Ok (severity d).
Proof.
  unfold analyze_single_damage. intros ([d' t] & Haux & ->)%fmap_Ok_inv Hnone. simpl in *.
  destruct (analyze_aux_fields _ _ _ _ Haux)
    as (a & prow & costs & _ & Hsev & Hprow & Hcosts & Hm & Hmat & _).
  assert (high_impact (damage_type d') = false) as Hhi.
  { destruct (high_impact (damage_type d')) eqn:E; [|done].
    apply high_impact_has_row in E as (s & Hs & [row Hrow]).
    rewrite (Hnone s Hs) in Hrow. done. }
  destruct (determine_severity_low_impact _ _ _ _ Hhi Hsev) as [Hcrit Hany].
  assert (costs = prow) as ->.
  { unfold dict_get in Hcosts. destruct (py_hashable _); [|done]. simpl in Hcosts.
    injection Hcosts as <-. destruct (damage_type d') eqn:E; try done.
    by rewrite (Hnone _ eq_refl). }
  exists prow. repeat split; try done.
Qed.

Lemma unknown_type_priced_as_pothole_witness :
  ∃ d, analyze_single_damage unknown_damage PNone = Ok d
       ∧ repair_method d = "Saw cut and replace"
       ∧ severity d ≠ critical.
Proof.
  eexists. split; [vm_compute; reflexivity|].
  destruct (unknown_type_priced_as_pothole unknown_damage PNone _
              ltac:(vm_compute; reflexivity)) as (row & Hrow & Hm & _ & Hs & _).
  - intros s Hs. vm_compute in Hs. injection Hs as <-. vm_compute. reflexivity.
  - split; [|exact Hs]. vm_compute in Hrow. injection Hrow as <-. exact Hm.
Defined.

(** *** Class names and the tables *)

Lemma demo_mapping_lookup class_id :
  demo_mapping !! class_id =
  if decide (0 <= class_id <= 5) then
    Some (if decide (class_id = 0) then "D40_Pothole"
          else if decide (class_id = 1) then "D00_Longitudinal_Crack"
          else if decide (class_id = 2) then "D10_Transverse_Crack"
          else if decide (class_id = 3) then "D20_Alligator_Crack"
          else if decide (class_id = 4) then "Repair"
          else "Block_Crack")
  else None.
Proof.
  destruct (decide (0 <= class_id <= 5)) as [Hk|Hk].
  - assert (class_id = 0 ∨ class_id = 1 ∨ class_id = 2 ∨ class_id = 3
            ∨ class_id = 4 ∨ class_id = 5) as [-> | [-> | [-> | [-> | [-> | ->]]]]] by lia;
      reflexivity.
  - unfold demo_mapping. rewrite !lookup_insert_ne by lia. apply lookup_singleton_ne. lia.
Qed.

Lemma unknown_damage_no_cost_row s : repair_costs !! ("Unknown_Damage_" +:+ s) = None.
Proof.
  apply not_elem_of_list_to_map_1. cbn [fmap list_fmap fst].
  rewrite !not_elem_of_cons. repeat split; try discriminate. apply not_elem_of_nil.
Qed.

Lemma unknown_damage_no_time_row s : repair_times !! ("Unknown_Damage_" +:+ s) = None.
Proof.
  apply not_elem_of_list_to_map_1. cbn [fmap list_fmap fst].
  rewrite !not_elem_of_cons. repeat split; try discriminate. apply not_elem_of_nil.
Qed.

(** X24: [_map_class_to_damage] names the class ids 0 to 5 by damage types
    that have a row in the cost and in the time table; every other id gets
    the name Unknown_Damage_<id>, which has no row in either; the
    high-impact names are those of the ids 0 and 3. *)
Theorem class_names_and_rows class_id :
  (is_Some (repair_costs !! map_class_to_damage class_id) <-> 0 <= class_id <= 5)
  ∧ (is_Some (repair_times !! map_class_to_damage class_id) <-> 0 <= class_id <= 5)
  ∧ (high_impact (PStr (map_class_to_damage class_id)) = true
     <-> class_id = 0 ∨ class_id = 3)
  ∧ (¬ 0 <= class_id <= 5 ->
     map_class_to_damage class_id = "Unknown_Damage_" +:+ pretty class_id).
Proof.
  unfold map_class_to_damage. rewrite demo_mapping_lookup.
  destruct (decide (0 <= class_id <= 5)) as [Hk|Hk]; cbn [default].
  - assert (class_id = 0 ∨ class_id = 1 ∨ class_id = 2 ∨ class_id = 3
            ∨ class_id = 4 ∨ class_id = 5) as [-> | [-> | [-> | [-> | [-> | ->]]]]] by lia.
    all: repeat split; try done; try lia; try (by eexists); try (by vm_compute);
      try (intros [|]; lia); try (by left); try (by right).
  - rewrite unknown_damage_no_cost_row, unknown_damage_no_time_row.
    repeat split; try done; try lia; try (by intros [? [=]]).
Qed.

(** *** From a box of the model to an estimate *)

Lemma detection_of_ok x1 y1 x2 y2 confidence class_id :
  detection_ok (detection_of x1 y1 x2 y2 confidence class_id).
Proof.
  split; intros v Hv; vm_compute in Hv; injection Hv as <-; [by eexists|done].
Qed.

(** X25: a detection built by the detector from a box with coordinates of
    absolute value at most a million is always analyzed, whatever its
    confidence and class id; the estimate carries the class name, the
    confidence and the box, and for a class id outside 0 to 5 it is priced
    with the pothole row. *)
Theorem detector_box_is_analyzed x1 y1 x2 y2 conf class_id image_shape :
  pixel (PFloat x1) -> pixel (PFloat y1) -> pixel (PFloat x2) -> pixel (PFloat y2) ->
  ∃ d pothole,
    analyze_single_damage (detection_of x1 y1 x2 y2 conf class_id) image_shape = Ok d
    ∧ damage_type d = PStr (map_class_to_damage class_id)
    ∧ confidence d = PFloat conf
    ∧ bbox d = PList [PFloat x1; PFloat y1; PFloat x2; PFloat y2]
    ∧ repair_costs !! "D40_Pothole" = Some pothole
    ∧ (¬ 0 <= class_id <= 5 -> repair_method d = method (pothole (severity d))).
Proof.
  intros H1 H2 H3 H4.
  set (detection := detection_of x1 y1 x2 y2 conf class_id).
  assert (detection_bbox detection = PList [PFloat x1; PFloat y1; PFloat x2; PFloat y2])
    as Hbb by reflexivity.
  destruct (calculate_damage_area_pixels (PFloat x1) (PFloat y1) (PFloat x2) (PFloat y2)
              image_shape H1 H2 H3 H4) as (a & Ha & Hbelow).
  rewrite <- Hbb in Ha.
  destruct (analyze_aux_returns detection image_shape a false
              (detection_of_ok _ _ _ _ _ _) Ha) as (d & t & Hd & _).
  { eapply SFbelow_mono; [|done]. lia. }
  destruct (analyze_aux_fields _ _ _ _ Hd)
    as (a' & prow & costs & _ & _ & Hprow & Hcosts & Hm & _ & _ & _ & _ & _ & Hdt & Hc & Hb).
  exists d, prow. unfold analyze_single_damage. rewrite Hd.
  split; [done|]. split; [exact Hdt|]. split; [exact Hc|]. split; [by rewrite Hb|].
  split; [done|]. intros Hk. rewrite Hm. f_equal.
  change (damage_type d = PStr (map_class_to_damage class_id)) in Hdt.
  rewrite Hdt in Hcosts. unfold dict_get in Hcosts. simpl in Hcosts.
  injection Hcosts as <-. unfold map_class_to_damage.
  rewrite demo_mapping_lookup, decide_False by done. cbn [default].
  by rewrite unknown_damage_no_cost_row.
Qed.

Lemma detector_box_is_analyzed_witness :
  ∃ d, analyze_single_damage (detection_of 10 20 110 220 0.7 9) (PInt 640) = Ok d
       ∧ damage_type d = PStr "Unknown_Damage_9".
Proof.
  destruct (detector_box_is_analyzed 10 20 110 220 0.7 9 (PInt 640))
    as (d & row & Hd & Ht & _); try (vm_compute; reflexivity).
  exists d. split; [exact Hd|exact Ht].
Defined.

(** *** Crew, equipment, safety and traffic of an estimate *)

(** X7: in every returned estimate the equipment starts with the three
    basic items, and neither the equipment nor the safety list repeats an
    item.  A severe or critical estimate has a crew of at least four, a
    required lane closure, flaggers and a crack router; a minor or moderate
    one has a crew of at most five, the two crack sealing items and basic
    traffic control. *)
Theorem estimate_resources_follow_severity detection image_shape d :
  analyze_single_damage detection image_shape = Ok d ->
  take 3 (equipment_needed d) = ["Hand tools"; "Safety equipment"; "Traffic cones"]
  ∧ NoDup (equipment_needed d)
  ∧ NoDup (safety_requirements d)
  ∧ (severity d = severe ∨ severity d = critical ->
       4 <= total (crew_size d)
       ∧ lane_closure (traffic_impact d) = "Required"
       ∧ "Flaggers" ∈ safety_requirements d
       ∧ "Crack router" ∈ equipment_needed d)
  ∧ (severity d = minor ∨ severity d = moderate ->
       total (crew_size d) <= 5
       ∧ drop 3 (equipment_needed d) = ["Crack sealing equipment"; "Cleaning tools"]
       ∧ "Basic traffic control" ∈ safety_requirements d).
Proof.
  unfold analyze_single_damage. intros ([d' t] & Haux & ->)%fmap_Ok_inv. cbn [fst].
  destruct (analyze_aux_fields _ _ _ _ Haux)
    as (a & prow & costs & _ & _ & _ & _ & _ & _ & -> & -> & -> & -> & _).
  unfold estimate_crew_size, get_equipment_list, get_safety_requirements,
    assess_traffic_impact.
  destruct (severity d'), (high_impact (damage_type d')),
    (5.0 <? a)%float, (2.0 <? a)%float, (1.0 <? a)%float;
    cbn [total lane_closure app take drop bool_decide orb].
  all: split; [done|].
  all: split; [apply (bool_decide_unpack _); vm_compute; exact I|].
  all: split; [apply (bool_decide_unpack _); vm_compute; exact I|].
  all: split; intros [|]; try done.
  all: repeat split; try lia; try done;
    try (apply (bool_decide_unpack _); vm_compute; exact I).
Qed.

Lemma estimate_resources_follow_severity_witness :
  ∃ d, analyze_single_damage demo_pothole PNone = Ok d
       ∧ NoDup (equipment_needed d)
       ∧ NoDup (safety_requirements d).
Proof.
  eexists. split; [vm_compute; reflexivity|].
  destruct (estimate_resources_follow_severity demo_pothole PNone _
              ltac:(vm_compute; reflexivity)) as (_ & H1 & H2 & _).
  split; [exact H1|exact H2].
Defined.

(** ** The report of a non-empty survey, field by field *)

Lemma generate_area_summary_inv now name ds total_images f :
  generate_area_summary now name ds total_images = Ok (FullReport f) ->
  ds ≠ [] ∧
  ∃ counts tl rate budget resources,
    count_damages ds {| severity_counts := ∅; damage_type_counts := [];
                        priority_counts := ∅ |} = Ok counts
    ∧ calculate_project_timeline ds = Ok tl
    ∧ int_true_divide (Z.of_nat (length ds)) total_images = Ok rate
    ∧ generate_budget_breakdown ds = Ok budget
    ∧ calculate_total_resources ds = Ok resources
    ∧ severity_breakdown f = severity_counts counts
    ∧ damage_type_breakdown f = damage_type_counts counts
    ∧ priority_breakdown f = priority_counts counts
    ∧ project_timeline f = tl
    ∧ budget_breakdown f = budget
    ∧ resource_requirements f = resources
    ∧ recommendations f = generate_recommendations ds name
    ∧ risk_assessment f = assess_overall_risk ds
    ∧ summary_statistics f =
        {| total_images_surveyed := total_images;
           damaged_locations := Z.of_nat (length ds);
           damage_rate_percentage := py_round (rate * 100) 1;
           total_damaged_area_sqm := py_round (py_sum (area_sqm <$> ds)) 2;
           total_repair_cost_usd := py_round (py_sum (repair_cost <$> ds)) 2;
           total_repair_time_hours := py_round (py_sum (repair_time_hours <$> ds)) 1;
           estimated_project_duration_days := total_days tl |}.
Proof.
  intros H. unfold generate_area_summary in H.
  destruct ds as [|d ds']; [done|]. split; [done|]. set (ds := d :: ds') in *.
  apply bind_Ok_inv in H as (counts & Hcounts & H).
  destruct (0 <? _); [|destruct (2 <? _); [|destruct (_ || _)]].
  all: apply bind_Ok_inv in H as (tl & Htl & H).
  all: apply bind_Ok_inv in H as (rate & Hrate & H).
  all: apply bind_Ok_inv in H as (budget & Hbudget & H).
  all: apply bind_Ok_inv in H as (resources & Hres & H).
  all: injection H as <-.
  all: by exists counts, tl, rate, budget, resources.
Qed.

(** ** The breakdowns *)

Lemma count_priority_cons k d ds :
  count_priority k (d :: ds) =
  (if decide (level (priority d) = k) then 1 else 0) + count_priority k ds.
Proof.
  unfold count_priority. rewrite filter_cons.
  destruct (decide (level (priority d) = k)); simpl; lia.
Qed.

Lemma count_damages_priority ds acc counts k :
  count_damages ds acc = Ok counts ->
  default 0 (priority_counts counts !! k) =
  default 0 (priority_counts acc !! k) + count_priority k ds.
Proof.
  revert acc. induction ds as [|d ds IH]; intros acc; simpl.
  - intros [= <-]. unfold count_priority. simpl. lia.
  - intros H. apply bind_Ok_inv in H as ([] & _ & H).
    rewrite (IH _ H). simpl. rewrite count_incr_lookup, count_priority_cons. lia.
Qed.

Lemma count_incr_positive `{Countable K} (counts : gmap K Z) k :
  map_Forall (λ _ v, 0 < v) counts -> map_Forall (λ _ v, 0 < v) (count_incr counts k).
Proof.
  intros Hpos. unfold count_incr. apply map_Forall_insert_2; [|done].
  destruct (counts !! k) as [v|] eqn:E; simpl; [|lia].
  specialize (Hpos _ _ E). simpl in Hpos. lia.
Qed.

Lemma count_damages_positive ds acc counts :
  count_damages ds acc = Ok counts ->
  map_Forall (λ _ v, 0 < v) (severity_counts acc) ->
  map_Forall (λ _ v, 0 < v) (priority_counts acc) ->
  map_Forall (λ _ v, 0 < v) (severity_counts counts)
  ∧ map_Forall (λ _ v, 0 < v) (priority_counts counts).
Proof.
  revert acc. induction ds as [|d ds IH]; intros acc; simpl.
  - by intros [= <-].
  - intros H Hs Hp. apply bind_Ok_inv in H as ([] & _ & H).
    apply (IH _ H); simpl; by apply count_incr_positive.
Qed.

(** A counter with positive entries only has a key exactly when its count
    is not zero. *)
Lemma positive_counter_lookup `{Countable K} (counts : gmap K Z) k n :
  map_Forall (λ _ v, 0 < v) counts ->
  default 0 (counts !! k) = n ->
  counts !! k = if decide (n = 0) then None else Some n.
Proof.
  intros Hpos. destruct (counts !! k) as [v|] eqn:E; simpl; intros <-.
  - specialize (Hpos _ _ E). simpl in Hpos. by rewrite decide_False by lia.
  - done.
Qed.

Lemma count_severity_total ds :
  count_severity minor ds + count_severity moderate ds
  + count_severity severe ds + count_severity critical ds = Z.of_nat (length ds).
Proof.
  induction ds as [|d ds IH]; [done|].
  rewrite !count_severity_cons. cbn [length]. destruct (severity d); simpl; lia.
Qed.

(** X9: the severity and the priority breakdown of a report hold the exact
    counts of the estimates: a key is present exactly when its count is not
    zero, and the four severity counts add up to [damaged_locations]. *)
Theorem breakdown_counts now name ds total_images f :
  generate_area_summary now name ds total_images = Ok (FullReport f) ->
  (∀ s, severity_breakdown f !! s =
        if decide (count_severity s ds = 0) then None else Some (count_severity s ds))
  ∧ (∀ k, priority_breakdown f !! k =
          if decide (count_priority k ds = 0) then None else Some (count_priority k ds))
  ∧ count_severity minor ds + count_severity moderate ds
    + count_severity severe ds + count_severity critical ds
    = damaged_locations (summary_statistics f).
Proof.
  intros (Hne & counts & tl & rate & budget & resources & Hc & _ & _ & _ & _
          & -> & _ & -> & _ & _ & _ & _ & _ & ->)%generate_area_summary_inv.
  destruct (count_damages_positive _ _ _ Hc) as [Hs Hp]; [done..|].
  split; [|split].
  - intros s. apply positive_counter_lookup; [done|].
    rewrite (count_damages_severity _ _ _ s Hc). simpl. by rewrite lookup_empty.
  - intros k. apply positive_counter_lookup; [done|].
    rewrite (count_damages_priority _ _ _ k Hc). simpl. by rewrite lookup_empty.
  - simpl. apply count_severity_total.
Qed.

Lemma breakdown_counts_witness :
  ∃ f, generate_area_summary demo_clock "Ring Road" demo_estimates 10 = Ok (FullReport f)
       ∧ severity_breakdown f !! minor = Some 1
       ∧ severity_breakdown f !! moderate = None.
Proof.
  eexists. split; [vm_compute; reflexivity|].
  destruct (breakdown_counts demo_clock "Ring Road" demo_estimates 10 _
              ltac:(vm_compute; reflexivity)) as (Hs & _ & _).
  split; [exact (Hs minor)|exact (Hs moderate)].
Defined.

Lemma count_priority_severity ds s :
  Forall (λ d, priority d = priority_matrix (severity d)) ds ->
  count_priority (level (priority_matrix s)) ds = count_severity s ds.
Proof.
  induction 1 as [|d ds Hd _ IH]; [done|].
  rewrite count_priority_cons, count_severity_cons, IH, Hd.
  destruct (severity d), s; simpl; done.
Qed.

Lemma estimator_outputs_matrix ds :
  Forall estimator_output ds -> Forall (λ d, priority d = priority_matrix (severity d)) ds.
Proof.
  intros H. eapply Forall_impl; [exact H|]. by intros d [_ Hp]%estimator_output_wf.
Qed.

(** X10: in a report over estimator outputs the priority breakdown is the
    severity breakdown under the levels of the priority matrix, and has no
    key outside 1 to 4. *)
Theorem priority_breakdown_mirrors_severity now name ds total_images f :
  Forall estimator_output ds ->
  generate_area_summary now name ds total_images = Ok (FullReport f) ->
  (∀ s, priority_breakdown f !! level (priority_matrix s) = severity_breakdown f !! s)
  ∧ (∀ k, is_Some (priority_breakdown f !! k) -> 1 <= k <= 4).
Proof.
  intros Hout%estimator_outputs_matrix
    (Hne & counts & tl & rate & budget & resources & Hc & _ & _ & _ & _
     & -> & _ & -> & _)%generate_area_summary_inv.
  destruct (count_damages_positive _ _ _ Hc) as [Hs Hp]; [done..|].
  assert (∀ k, priority_counts counts !! k =
               if decide (count_priority k ds = 0) then None else Some (count_priority k ds))
    as Hpk.
  { intros k. apply positive_counter_lookup; [done|].
    rewrite (count_damages_priority _ _ _ k Hc). simpl. by rewrite lookup_empty. }
  split.
  - intros s. rewrite Hpk, (count_priority_severity _ _ Hout). symmetry.
    apply positive_counter_lookup; [done|].
    rewrite (count_damages_severity _ _ _ s Hc). simpl. by rewrite lookup_empty.
  - intros k. rewrite Hpk. destruct (decide _) as [|Hk]; [by intros [? [=]]|]. intros _.
    assert (k = 1 ∨ k = 2 ∨ k = 3 ∨ k = 4) as Hk4; [|lia].
    clear -Hout Hk. induction Hout as [|d ds Hd _ IH]; [done|].
    rewrite count_priority_cons in Hk. destruct (decide (level (priority d) = k)) as [<-|].
    + rewrite Hd. destruct (severity d); simpl; lia.
    + apply IH. lia.
Qed.

Lemma priority_breakdown_mirrors_severity_witness :
  ∃ f, generate_area_summary demo_clock "Ring Road" demo_estimates 10 = Ok (FullReport f)
       ∧ priority_breakdown f !! 1 = severity_breakdown f !! critical.
Proof.
  eexists. split; [vm_compute; reflexivity|].
  destruct (priority_breakdown_mirrors_severity demo_clock "Ring Road" demo_estimates 10 _
              (estimates_of_output _) ltac:(vm_compute; reflexivity)) as (Hs & _).
  exact (Hs critical).
Defined.

(** *** The damage type breakdown *)

Lemma py_key_eqb_str k s : py_key_eqb k (PStr s) = true -> k = PStr s.
Proof.
  destruct k as [| | | |t|]; simpl; try done.
  by intros ->%String.eqb_eq.
Qed.

Lemma py_key_eqb_str_l k s : py_key_eqb (PStr s) k = true -> k = PStr s.
Proof.
  destruct k as [| | | |t|]; simpl; try done.
  by intros ->%String.eqb_eq.
Qed.

Lemma py_key_eqb_str_refl s : py_key_eqb (PStr s) (PStr s) = true.
Proof. simpl. apply String.eqb_refl. Qed.

Lemma entries_of_cons s e counts :
  entries_of s (e :: counts) =
  if decide (py_key_eqb e.1 (PStr s) = true) then e :: entries_of s counts
  else entries_of s counts.
Proof. unfold entries_of. by rewrite filter_cons. Qed.

Lemma assoc_incr_entries s counts k c :
  entries_of s counts = (if decide (c = 0) then [] else [(PStr s, c)]) ->
  entries_of s (assoc_incr counts k) =
    if decide (py_key_eqb k (PStr s) = true) then [(PStr s, c + 1)]
    else if decide (c = 0) then [] else [(PStr s, c)].
Proof.
  revert c. induction counts as [|[k' n] counts IH]; intros c; simpl.
  - destruct (decide (c = 0)) as [->|]; [|done]. intros _.
    rewrite entries_of_cons. simpl.
    destruct (decide (py_key_eqb k (PStr s) = true)) as [Hk|]; [|done].
    by rewrite (py_key_eqb_str _ _ Hk).
  - rewrite entries_of_cons. simpl.
    destruct (py_key_eqb k' k) eqn:Ekk; rewrite entries_of_cons; simpl.
    + destruct (decide (py_key_eqb k' (PStr s) = true)) as [Hk'|Hk'].
      * apply py_key_eqb_str in Hk' as ->. apply py_key_eqb_str_l in Ekk as ->.
        destruct (decide (py_key_eqb (PStr s) (PStr s) = true)) as [_|Hn];
          [|by rewrite py_key_eqb_str_refl in Hn].
        destruct (decide (c = 0)); [done|]. by intros [= -> ->].
      * intros Hc. rewrite Hc.
        destruct (decide (py_key_eqb k (PStr s) = true)) as [Hk|]; [|done].
        apply py_key_eqb_str in Hk as ->. by rewrite Ekk in Hk'.
    + destruct (decide (py_key_eqb k' (PStr s) = true)) as [Hk'|Hk'].
      * apply py_key_eqb_str in Hk' as ->.
        destruct (decide (c = 0)); [done|]. intros [= -> Hnil].
        rewrite (IH 0) by done.
        destruct (decide (py_key_eqb k (PStr s) = true)) as [Hk|]; [|done].
        apply py_key_eqb_str in Hk as ->. by rewrite py_key_eqb_str_refl in Ekk.
      * apply IH.
Qed.

Lemma count_type_cons s d ds :
  count_type s (d :: ds) =
  (if decide (py_key_eqb (damage_type d) (PStr s) = true) then 1 else 0) + count_type s ds.
Proof.
  unfold count_type. rewrite filter_cons.
  destruct (decide (py_key_eqb (damage_type d) (PStr s) = true)); simpl; lia.
Qed.

Lemma count_type_nonneg s ds : 0 <= count_type s ds.
Proof. unfold count_type. lia. Qed.

Lemma count_damages_entries s ds acc counts c :
  count_damages ds acc = Ok counts -> 0 <= c ->
  entries_of s (damage_type_counts acc) = (if decide (c = 0) then [] else [(PStr s, c)]) ->
  entries_of s (damage_type_counts counts) =
    if decide (c + count_type s ds = 0) then [] else [(PStr s, c + count_type s ds)].
Proof.
  revert acc c. induction ds as [|d ds IH]; intros acc c; simpl.
  - intros [= <-] _ ->. unfold count_type. simpl. by rewrite Z.add_0_r.
  - intros H Hc Hacc. apply bind_Ok_inv in H as ([] & _ & H).
    pose proof (count_type_nonneg s ds).
    rewrite count_type_cons.
    destruct (decide (py_key_eqb (damage_type d) (PStr s) = true)) as [Hk|Hk].
    + rewrite (IH _ (c + 1) H); simpl.
      * by rewrite Z.add_assoc.
      * lia.
      * rewrite (assoc_incr_entries _ _ _ _ Hacc), decide_True by done.
        by rewrite decide_False by lia.
    + rewrite (IH _ c H); simpl; [done|lia|].
      by rewrite (assoc_incr_entries _ _ _ _ Hacc), decide_False by done.
Qed.

Lemma fold_left_add_shift l a : fold_left Z.add l a = a + fold_left Z.add l 0.
Proof.
  revert a. induction l as [|x l IH]; intros a; simpl; [lia|].
  rewrite (IH (a + x)), (IH (0 + x)). lia.
Qed.

Lemma Zsum_cons x l : Zsum (x :: l) = x + Zsum l.
Proof. unfold Zsum. simpl. apply fold_left_add_shift. Qed.

Lemma Zsum_app l1 l2 : Zsum (l1 ++ l2) = Zsum l1 + Zsum l2.
Proof.
  induction l1 as [|x l1 IH]; simpl; [done|]. rewrite !Zsum_cons, IH. lia.
Qed.

Lemma assoc_incr_sum counts k :
  Zsum (snd <$> assoc_incr counts k) = Zsum (snd <$> counts) + 1.
Proof.
  induction counts as [|[k' n] counts IH]; cbn [assoc_incr]; [done|].
  destruct (py_key_eqb k' k); rewrite !fmap_cons, !Zsum_cons; cbn [snd]; [lia|].
  rewrite IH. lia.
Qed.

Lemma count_damages_type_sum ds acc counts :
  count_damages ds acc = Ok counts ->
  Zsum (snd <$> damage_type_counts counts) =
  Zsum (snd <$> damage_type_counts acc) + Z.of_nat (length ds).
Proof.
  revert acc. induction ds as [|d ds IH]; intros acc; simpl.
  - intros [= <-]. lia.
  - intros H. apply bind_Ok_inv in H as ([] & _ & H).
    rewrite (IH _ H). simpl. rewrite assoc_incr_sum. lia.
Qed.

(** X11: in the damage type breakdown of a report a damage type named by a
    string has one entry with its exact count, or none when no estimate has
    it, and the counts of all entries add up to the number of estimates. *)
Theorem damage_type_breakdown_counts now name ds total_images f :
  generate_area_summary now name ds total_images = Ok (FullReport f) ->
  (∀ s, entries_of s (damage_type_breakdown f) =
        if decide (count_type s ds = 0) then [] else [(PStr s, count_type s ds)])
  ∧ Zsum (snd <$> damage_type_breakdown f) = Z.of_nat (length ds).
Proof.
  intros (Hne & counts & tl & rate & budget & resources & Hc & _ & _ & _ & _
          & _ & -> & _)%generate_area_summary_inv.
  split.
  - intros s. by apply (count_damages_entries s _ _ _ 0 Hc).
  - by rewrite (count_damages_type_sum _ _ _ Hc).
Qed.

Lemma damage_type_breakdown_counts_witness :
  ∃ f, generate_area_summary demo_clock "Ring Road" demo_estimates 10 = Ok (FullReport f)
       ∧ entries_of "D40_Pothole" (damage_type_breakdown f) = [(PStr "D40_Pothole", 2)]
       ∧ Zsum (snd <$> damage_type_breakdown f) = 3.
Proof.
  eexists. split; [vm_compute; reflexivity|].
  destruct (damage_type_breakdown_counts demo_clock "Ring Road" demo_estimates 10 _
              ltac:(vm_compute; reflexivity)) as (Hs & Ht).
  split; [exact (Hs "D40_Pothole")|exact Ht].
Defined.

(** ** The project timeline *)

Lemma of_level_cons k d ds :
  of_level k (d :: ds) =
  if decide (level (priority d) = k) then d :: of_level k ds else of_level k ds.
Proof. unfold of_level. by rewrite filter_cons. Qed.

Lemma group_by_priority_groups ds groups groups' k :
  group_by_priority ds groups = Ok groups' ->
  groups' !! k = (λ g, g ++ of_level k ds) <$> groups !! k.
Proof.
  revert groups. induction ds as [|d ds IH]; intros groups; simpl.
  - intros [= <-]. destruct (groups !! k); simpl; [|done]. by rewrite app_nil_r.
  - destruct (groups !! level (priority d)) as [g|] eqn:E; [|done].
    intros H. rewrite (IH _ H), of_level_cons.
    destruct (decide (level (priority d) = k)) as [<-|Hne].
    + rewrite lookup_insert_eq, E. simpl. by rewrite <- app_assoc.
    + by rewrite lookup_insert_ne.
Qed.

Lemma group_by_priority_valid ds groups groups' :
  group_by_priority ds groups = Ok groups' ->
  Forall (λ d, is_Some (groups !! level (priority d))) ds.
Proof.
  revert groups. induction ds as [|d ds IH]; intros groups; simpl; [constructor|].
  destruct (groups !! level (priority d)) as [g|] eqn:E; [|done].
  intros H. constructor; [by eexists|].
  eapply Forall_impl; [apply (IH _ H)|]. intros d' Hd'. simpl in Hd'.
  destruct (decide (level (priority d) = level (priority d'))) as [<-|Hne].
  - by eexists.
  - by rewrite lookup_insert_ne in Hd'.
Qed.

Lemma group_by_priority_raises ds groups e :
  group_by_priority ds groups = Raise e ->
  e = KeyError ∧ Exists (λ d, groups !! level (priority d) = None) ds.
Proof.
  revert groups. induction ds as [|d ds IH]; intros groups; simpl; [done|].
  destruct (groups !! level (priority d)) as [g|] eqn:E.
  - intros [-> Hex]%IH. split; [done|]. apply Exists_cons_tl.
    eapply Exists_impl; [exact Hex|]. intros d' Hd'. simpl in Hd'.
    destruct (decide (level (priority d) = level (priority d'))) as [Heq|Hne].
    + by rewrite <- Heq, lookup_insert_eq in Hd'.
    + by rewrite lookup_insert_ne in Hd'.
  - intros [= <-]. split; [done|]. by apply Exists_cons_hd.
Qed.

Lemma initial_groups_lookup k :
  ({[ 1 := []; 2 := []; 3 := []; 4 := [] ]} : gmap Z (list DamageEstimate)) !! k =
  if decide (1 <= k <= 4) then Some [] else None.
Proof.
  destruct (decide (1 <= k <= 4)) as [Hk|Hk].
  - assert (k = 1 ∨ k = 2 ∨ k = 3 ∨ k = 4) as [-> | [-> | [-> | ->]]] by lia;
      reflexivity.
  - rewrite !lookup_insert_ne by lia. apply lookup_singleton_ne. lia.
Qed.

Lemma calculate_project_timeline_inv ds tl :
  calculate_project_timeline ds = Ok tl ->
  Forall valid_level ds
  ∧ tl = {| immediate_phase :=
              {| damages := of_level 1 ds;
                 duration_days := Zmax_list (repair_days <$> of_level 1 ds);
                 description := "Critical repairs - safety hazards" |};
            urgent_phase :=
              {| damages := of_level 2 ds;
                 duration_days := Zsum (repair_days <$> of_level 2 ds) / 2;
                 description := "Urgent repairs - prevent deterioration" |};
            scheduled_phase :=
              {| damages := of_level 3 ds;
                 duration_days := Zsum (repair_days <$> of_level 3 ds) / 3;
                 description := "Scheduled maintenance" |};
            preventive_phase :=
              {| damages := of_level 4 ds;
                 duration_days := Zsum (repair_days <$> of_level 4 ds) / 4;
                 description := "Preventive maintenance" |};
            total_days :=
              Z.max (Zmax_list (repair_days <$> of_level 1 ds)
                     + Zsum (repair_days <$> of_level 2 ds) / 2
                     + Zsum (repair_days <$> of_level 3 ds) / 3
                     + Zsum (repair_days <$> of_level 4 ds) / 4) 1 |}.
Proof.
  unfold calculate_project_timeline. intros H.
  apply bind_Ok_inv in H as (groups & Hg & H). injection H as <-.
  split.
  - eapply Forall_impl; [apply (group_by_priority_valid _ _ _ Hg)|].
    intros d Hd. cbv beta in Hd. rewrite initial_groups_lookup in Hd.
    unfold valid_level. destruct (decide _); [done|]. by destruct Hd as [? [=]].
  - rewrite !(group_by_priority_groups _ _ _ _ Hg), !initial_groups_lookup. simpl.
    by f_equal.
Qed.

Lemma length_of_levels ds :
  Forall valid_level ds ->
  (length (of_level 1 ds) + length (of_level 2 ds)
   + length (of_level 3 ds) + length (of_level 4 ds))%nat = length ds.
Proof.
  induction 1 as [|d ds Hd _ IH]; [done|]. unfold valid_level in Hd.
  rewrite !of_level_cons.
  repeat destruct (decide _); simpl; lia.
Qed.

(** X12: the phases of a timeline partition the estimates by priority
    level (immediate 1, urgent 2, scheduled 3, preventive 4), each phase in
    the order of the input. *)
Theorem timeline_phases_partition ds tl :
  calculate_project_timeline ds = Ok tl ->
  damages (immediate_phase tl) = of_level 1 ds
  ∧ damages (urgent_phase tl) = of_level 2 ds
  ∧ damages (scheduled_phase tl) = of_level 3 ds
  ∧ damages (preventive_phase tl) = of_level 4 ds
  ∧ (length (damages (immediate_phase tl)) + length (damages (urgent_phase tl))
     + length (damages (scheduled_phase tl)) + length (damages (preventive_phase tl)))%nat
    = length ds.
Proof.
  intros [Hv ->]%calculate_project_timeline_inv. simpl.
  repeat split; try done. by apply length_of_levels.
Qed.

Lemma timeline_phases_partition_witness :
  ∃ tl, calculate_project_timeline demo_estimates = Ok tl
        ∧ damages (immediate_phase tl) = of_level 1 demo_estimates
        ∧ length (damages (immediate_phase tl)) = 1%nat.
Proof.
  eexists. split; [vm_compute; reflexivity|].
  destruct (timeline_phases_partition demo_estimates _ ltac:(vm_compute; reflexivity))
    as (H1 & _).
  split; [exact H1|vm_compute; reflexivity].
Defined.

(** X13: [calculate_project_timeline] returns exactly when every priority
    level is one of 1 to 4; any other level raises [KeyError]. *)
Theorem timeline_key_error ds :
  (returns (calculate_project_timeline ds) <-> Forall valid_level ds)
  ∧ (¬ Forall valid_level ds -> calculate_project_timeline ds = Raise KeyError).
Proof.
  assert (returns (calculate_project_timeline ds) -> Forall valid_level ds) as Hr.
  { intros [tl Htl]. by apply calculate_project_timeline_inv in Htl as [? _]. }
  split; [split; [done|apply calculate_project_timeline_returns]|].
  intros Hn. unfold calculate_project_timeline.
  destruct (group_by_priority ds _) as [groups|e] eqn:E.
  - destruct Hn. apply Hr. unfold calculate_project_timeline. rewrite E. by eexists.
  - by apply group_by_priority_raises in E as [-> _].
Qed.

(** *** Durations *)

Lemma Zsum_nonneg l : Forall (λ x, 0 <= x) l -> 0 <= Zsum l.
Proof.
  induction 1 as [|x l Hx _ IH]; [done|]. rewrite Zsum_cons. lia.
Qed.

Lemma fold_left_max_ge l a : a <= fold_left Z.max l a.
Proof.
  revert a. induction l as [|x l IH]; intros a; simpl; [lia|].
  specialize (IH (Z.max a x)). lia.
Qed.

Lemma fold_left_max_elem l a x : x ∈ l -> x <= fold_left Z.max l a.
Proof.
  revert a. induction l as [|y l IH]; intros a; [by intros ?%elem_of_nil|].
  intros [->|Hx]%elem_of_cons; simpl.
  - pose proof (fold_left_max_ge l (Z.max a y)). lia.
  - by apply IH.
Qed.

Lemma fold_left_max_attained l a :
  fold_left Z.max l a = a ∨ fold_left Z.max l a ∈ l.
Proof.
  revert a. induction l as [|y l IH]; intros a; simpl; [by left|].
  destruct (IH (Z.max a y)) as [->|Hin].
  - destruct (Z.max_spec a y) as [[_ ->]|[_ ->]]; [right; left|by left].
  - right. by right.
Qed.

Lemma Zmax_list_elem l x : x ∈ l -> x <= Zmax_list l.
Proof.
  destruct l as [|y l]; [by intros ?%elem_of_nil|].
  intros [->|Hx]%elem_of_cons; simpl.
  - apply fold_left_max_ge.
  - by apply fold_left_max_elem.
Qed.

Lemma Zmax_list_attained l : l ≠ [] -> Zmax_list l ∈ l.
Proof.
  destruct l as [|y l]; [done|]. intros _. simpl.
  destruct (fold_left_max_attained l y) as [->|Hin]; [left|by right].
Qed.

Lemma Zmax_list_le_sum l : Forall (λ x, 0 <= x) l -> 0 <= Zmax_list l <= Zsum l.
Proof.
  intros Hl. destruct l as [|y l]; [done|].
  pose proof (Zmax_list_attained (y :: l) ltac:(done)) as Hin.
  split.
  - rewrite Forall_forall in Hl. by apply Hl.
  - revert Hin. generalize (Zmax_list (y :: l)). intros m.
    induction Hl as [|x l' Hx Hl' IH]; [by intros ?%elem_of_nil|].
    pose proof (Zsum_nonneg _ Hl'). rewrite Zsum_cons.
    intros [->|Hm]%elem_of_cons; [lia|]. specialize (IH Hm). lia.
Qed.

Lemma Zsum_of_levels (f : DamageEstimate → Z) ds :
  Forall valid_level ds ->
  Zsum (f <$> of_level 1 ds) + Zsum (f <$> of_level 2 ds)
  + Zsum (f <$> of_level 3 ds) + Zsum (f <$> of_level 4 ds) = Zsum (f <$> ds).
Proof.
  induction 1 as [|d ds Hd _ IH]; [done|]. unfold valid_level in Hd.
  rewrite !of_level_cons, fmap_cons, Zsum_cons, <- IH.
  repeat destruct (decide _); rewrite ?fmap_cons, ?Zsum_cons; lia.
Qed.

Lemma Forall_of_level (P : DamageEstimate → Prop) k ds :
  Forall P ds -> Forall P (of_level k ds).
Proof.
  rewrite !Forall_forall. intros H d [_ Hd]%list_elem_of_filter. by apply H.
Qed.

Lemma estimator_output_days d : estimator_output d -> 0 <= repair_days d.
Proof.
  intros (detection & image_shape & H). unfold analyze_single_damage in H.
  apply fmap_Ok_inv in H as ([d' t] & Haux & ->). simpl.
  destruct (analyze_aux_signs _ _ _ _ Haux) as (a & _ & _ & _ & _ & Hs).
  destruct (analyze_aux_inv _ _ _ _ Haux)
    as (a' & sev & cost & time & cf & _ & _ & _ & _ & _ & Hdays & _).
  by apply (py_ceil_nonneg _ _ Hs Hdays).
Qed.

(** X14: over estimator outputs the timeline is built, no phase has a
    negative duration, the immediate phase lasts at least as long as each
    of its repairs, and the project lasts at least one day and at most the
    sum of all repair days (or one day). *)
Theorem timeline_duration_bounds ds :
  Forall estimator_output ds ->
  ∃ tl, calculate_project_timeline ds = Ok tl
    ∧ 0 <= duration_days (immediate_phase tl)
    ∧ 0 <= duration_days (urgent_phase tl)
    ∧ 0 <= duration_days (scheduled_phase tl)
    ∧ 0 <= duration_days (preventive_phase tl)
    ∧ (∀ d, d ∈ damages (immediate_phase tl) ->
            repair_days d <= duration_days (immediate_phase tl))
    ∧ 1 <= total_days tl <= Z.max 1 (Zsum (repair_days <$> ds)).
Proof.
  intros Hout.
  assert (Forall (λ d, 0 <= repair_days d) ds) as Hdays.
  { eapply Forall_impl; [exact Hout|]. apply estimator_output_days. }
  destruct (estimator_outputs_counted _ Hout) as [_ Hlev].
  destruct (calculate_project_timeline_returns ds Hlev) as [tl Htl].
  exists tl. split; [done|].
  apply calculate_project_timeline_inv in Htl as [Hv ->]. simpl.
  assert (∀ k, Forall (λ x, 0 <= x) (repair_days <$> of_level k ds)) as Hk.
  { intros k. apply Forall_fmap. by apply Forall_of_level. }
  pose proof (Zmax_list_le_sum _ (Hk 1)) as H1.
  pose proof (Zsum_nonneg _ (Hk 2)) as H2.
  pose proof (Zsum_nonneg _ (Hk 3)) as H3.
  pose proof (Zsum_nonneg _ (Hk 4)) as H4.
  pose proof (Zsum_of_levels repair_days ds Hv) as Hsum.
  assert (0 <= Zsum (repair_days <$> of_level 2 ds) / 2
               <= Zsum (repair_days <$> of_level 2 ds)) as ?.
  { split; [apply Z.div_pos; lia|apply Z.div_le_upper_bound; lia]. }
  assert (0 <= Zsum (repair_days <$> of_level 3 ds) / 3
               <= Zsum (repair_days <$> of_level 3 ds)) as ?.
  { split; [apply Z.div_pos; lia|apply Z.div_le_upper_bound; lia]. }
  assert (0 <= Zsum (repair_days <$> of_level 4 ds) / 4
               <= Zsum (repair_days <$> of_level 4 ds)) as ?.
  { split; [apply Z.div_pos; lia|apply Z.div_le_upper_bound; lia]. }
  repeat split; try lia.
  intros d Hd. apply Zmax_list_elem. apply list_elem_of_fmap. by exists d.
Qed.

Lemma timeline_duration_bounds_witness :
  ∃ tl, calculate_project_timeline demo_estimates = Ok tl
        ∧ 1 <= total_days tl <= Z.max 1 (Zsum (repair_days <$> demo_estimates)).
Proof.
  destruct (timeline_duration_bounds demo_estimates (estimates_of_output _))
    as (tl & Htl & _ & _ & _ & _ & _ & Hb).
  exists tl. split; [exact Htl|exact Hb].
Defined.

(** ** The risk assessment *)

Lemma risk_fold ds score fs :
  fold_left
    (λ '(score, fs) damage,
       match severity damage with
       | critical => (score + 4, fs ++ [("Critical", damage_type damage)])
       | severe => (score + 3, fs ++ [("Severe", damage_type damage)])
       | moderate => (score + 2, fs)
       | minor => (score + 1, fs)
       end)
    ds (score, fs)
  = (score + Zsum (risk_points ∘ severity <$> ds), fs ++ omap risk_factor ds).
Proof.
  revert score fs. induction ds as [|d ds IH]; intros score fs.
  - simpl. by rewrite Z.add_0_r, app_nil_r.
  - rewrite fmap_cons, Zsum_cons. cbn [fold_left omap list_omap]. unfold risk_factor at 1.
    cbn [compose].
    destruct (severity d); rewrite IH; cbn [risk_points]; rewrite <- ?app_assoc;
      f_equal; lia.
Qed.

Lemma risk_points_sum ds :
  Zsum (risk_points ∘ severity <$> ds) =
  4 * count_severity critical ds + 3 * count_severity severe ds
  + 2 * count_severity moderate ds + count_severity minor ds.
Proof.
  induction ds as [|d ds IH]; [done|].
  rewrite fmap_cons, Zsum_cons, IH, !count_severity_cons. simpl.
  destruct (severity d); simpl; lia.
Qed.

Lemma assess_overall_risk_eq ds :
  let score := Zsum (risk_points ∘ severity <$> ds) in
  assess_overall_risk ds =
    {| risk_level := (risk_band score).1.1;
       risk_score := score;
       factors := take 5 (omap risk_factor ds);
       mitigation := get_mitigation_strategies (risk_band score).1.1;
       monitoring_frequency := get_monitoring_frequency (risk_band score).1.1 |}.
Proof.
  unfold assess_overall_risk. rewrite risk_fold. simpl. unfold risk_band.
  destruct (15 <=? _); [done|]. destruct (10 <=? _); [done|]. by destruct (5 <=? _).
Qed.

(** X17: for a non-empty list the risk score is four points per critical
    estimate, three per severe, two per moderate and one per minor: between
    one and four times the number of estimates.  The factors are the first
    five critical or severe estimates in order.  Fifteen estimates always
    give VERY HIGH, and one estimate alone always gives LOW. *)
Theorem risk_score_formula ds :
  ds ≠ [] ->
  risk_score (assess_overall_risk ds) =
    4 * count_severity critical ds + 3 * count_severity severe ds
    + 2 * count_severity moderate ds + count_severity minor ds
  ∧ Z.of_nat (length ds) <= risk_score (assess_overall_risk ds) <= 4 * Z.of_nat (length ds)
  ∧ factors (assess_overall_risk ds) = take 5 (omap risk_factor ds)
  ∧ (15 <= length ds -> risk_level (assess_overall_risk ds) = "VERY HIGH")%nat
  ∧ (length ds = 1 -> risk_level (assess_overall_risk ds) = "LOW")%nat.
Proof.
  intros _. rewrite assess_overall_risk_eq. cbn [risk_score factors risk_level].
  pose proof (risk_points_sum ds) as Hsum.
  pose proof (count_severity_total ds) as Htot.
  assert (0 <= count_severity critical ds ∧ 0 <= count_severity severe ds
          ∧ 0 <= count_severity moderate ds ∧ 0 <= count_severity minor ds)
    as (? & ? & ? & ?) by (unfold count_severity; lia).
  split; [done|]. split; [lia|]. split; [done|]. unfold risk_band. split.
  - intros Hl. assert ((15 <=? Zsum (risk_points ∘ severity <$> ds)) = true) as ->; [|done].
    apply Z.leb_le. lia.
  - intros Hl.
    assert ((15 <=? Zsum (risk_points ∘ severity <$> ds)) = false) as -> by lia.
    assert ((10 <=? Zsum (risk_points ∘ severity <$> ds)) = false) as -> by lia.
    assert ((5 <=? Zsum (risk_points ∘ severity <$> ds)) = false) as -> by lia.
    done.
Qed.

Lemma risk_score_formula_witness :
  risk_score (assess_overall_risk demo_estimates) = 8
  ∧ length (factors (assess_overall_risk demo_estimates)) = 2%nat.
Proof.
  destruct (risk_score_formula demo_estimates) as (Hs & _ & Hf & _).
  - intros H. vm_compute in H. discriminate H.
  - split; [exact Hs|]. rewrite Hf. vm_compute. reflexivity.
Defined.

(** X18: for a non-empty list the risk level follows the score by the
    bands 15, 10 and 5, and the monitoring frequency and the number of
    mitigation strategies follow the level: weekly monitoring exactly from
    15 points, LOW exactly below 5. *)
Theorem risk_level_bands ds :
  ds ≠ [] ->
  (risk_level (assess_overall_risk ds), monitoring_frequency (assess_overall_risk ds),
   length (mitigation (assess_overall_risk ds)))
  = risk_band (risk_score (assess_overall_risk ds))
  ∧ (monitoring_frequency (assess_overall_risk ds) = "Weekly"
     <-> 15 <= risk_score (assess_overall_risk ds))
  ∧ (risk_level (assess_overall_risk ds) = "LOW"
     <-> risk_score (assess_overall_risk ds) < 5).
Proof.
  intros _. rewrite assess_overall_risk_eq.
  cbn [risk_score factors risk_level monitoring_frequency mitigation].
  generalize (Zsum (risk_points ∘ severity <$> ds)). intros score. unfold risk_band.
  destruct (15 <=? score) eqn:E15; [|destruct (10 <=? score) eqn:E10;
    [|destruct (5 <=? score) eqn:E5]]; cbn [fst snd].
  all: split; [by vm_compute|].
  all: split; split; first [by intros [=] | lia | done].
Qed.

Lemma risk_level_bands_witness :
  (risk_level (assess_overall_risk demo_estimates),
   monitoring_frequency (assess_overall_risk demo_estimates),
   length (mitigation (assess_overall_risk demo_estimates)))
  = risk_band 8.
Proof.
  destruct (risk_level_bands demo_estimates) as (Hb & _).
  - intros H. vm_compute in H. discriminate H.
  - exact Hb.
Defined.

(** X19: a risk level that is none of VERY HIGH, HIGH and MEDIUM gets the
    mitigation strategies of LOW and quarterly monitoring. *)
Theorem unknown_risk_level_is_low risk_level :
  risk_level ∉ ["VERY HIGH"; "HIGH"; "MEDIUM"] ->
  get_mitigation_strategies risk_level = get_mitigation_strategies "LOW"
  ∧ get_monitoring_frequency risk_level = "Quarterly".
Proof.
  intros Hn. rewrite !not_elem_of_cons in Hn. destruct Hn as (H1 & H2 & H3 & _).
  split.
  - unfold get_mitigation_strategies.
    rewrite bool_decide_eq_false_2 by (intros [|]; done).
    rewrite bool_decide_eq_false_2 by done. done.
  - unfold get_monitoring_frequency.
    destruct (decide (risk_level = "LOW")) as [->|H4]; [done|].
    rewrite !lookup_insert_ne by congruence. by rewrite lookup_singleton_ne by congruence.
Qed.

Lemma unknown_risk_level_is_low_witness :
  get_mitigation_strategies "SEVERE" = get_mitigation_strategies "LOW"
  ∧ get_monitoring_frequency "SEVERE" = "Quarterly".
Proof.
  apply (unknown_risk_level_is_low "SEVERE").
  rewrite !not_elem_of_cons. repeat split; try discriminate. apply not_elem_of_nil.
Defined.

(** ** The recommendations *)

(** X16: [generate_recommendations] gives between one and five
    recommendations, in a fixed order and ending with the preventive one;
    the first is IMMEDIATE exactly when there is a critical estimate,
    URGENT appears exactly when there is a severe one, STRATEGIC exactly
    for more than two alligator cracks, PLANNING exactly for more than ten
    estimates, and the area name plays no part in the priorities. *)
Theorem recommendations_shape ds area_name :
  sublist (rec_priority <$> generate_recommendations ds area_name) recommendation_order
  ∧ (1 <= length (generate_recommendations ds area_name) <= 5)%nat
  ∧ (rec_priority <$> last (generate_recommendations ds area_name)) = Some "PREVENTIVE"
  ∧ ((rec_priority <$> head (generate_recommendations ds area_name)) = Some "IMMEDIATE"
     <-> 0 < count_severity critical ds)
  ∧ ("URGENT" ∈ rec_priority <$> generate_recommendations ds area_name <-> 0 < count_severity severe ds)
  ∧ ("STRATEGIC" ∈ rec_priority <$> generate_recommendations ds area_name
     <-> 2 < count_type "D20_Alligator_Crack" ds)
  ∧ ("PLANNING" ∈ rec_priority <$> generate_recommendations ds area_name <-> (10 < length ds)%nat)
  ∧ ∀ other, rec_priority <$> generate_recommendations ds other
             = rec_priority <$> generate_recommendations ds area_name.
Proof.
  unfold generate_recommendations, recommendation_order.
  fold (count_type "D20_Alligator_Crack" ds).
  destruct (0 <? count_severity critical ds) eqn:Ec;
    destruct (0 <? count_severity severe ds) eqn:Es;
    destruct (2 <? count_type "D20_Alligator_Crack" ds) eqn:Ea;
    destruct (10 <? Z.of_nat (length ds)) eqn:El.
  all: cbn [app fmap list_fmap rec_priority length last head option_fmap option_map].
  all: first [apply Z.ltb_lt in Ec | apply Z.ltb_ge in Ec].
  all: first [apply Z.ltb_lt in Es | apply Z.ltb_ge in Es].
  all: first [apply Z.ltb_lt in Ea | apply Z.ltb_ge in Ea].
  all: first [apply Z.ltb_lt in El | apply Z.ltb_ge in El].
  all: split; [repeat first [apply sublist_nil | apply sublist_skip | apply sublist_cons]|].
  all: split; [lia|].
  all: split; [done|].
  all: split; [split; [first [done | intros [=]; lia] | first [done | lia]]|].
  all: repeat
         (split;
          [split;
           [first [intros _; lia
                  | intros Hin; exfalso; revert Hin; apply (bool_decide_unpack _);
                    vm_compute; exact I]
           | first [intros _; apply (bool_decide_unpack _); vm_compute; exact I
                   | lia]]|]).
  all: done.
Qed.

(** ** The resources *)

Lemma foldl_union_elem {A} (f : A → gset string) (l : list A) (X : gset string) x :
  x ∈ foldl (λ acc d, acc ∪ f d) X l ↔ x ∈ X ∨ ∃ d, d ∈ l ∧ x ∈ f d.
Proof.
  revert X. induction l as [|d l IH]; intros X; simpl.
  - split; [by left|]. intros [?|(d & Hd & _)]; [done|]. by apply elem_of_nil in Hd.
  - rewrite IH, elem_of_union. split.
    + intros [[?|?]|(d' & Hd' & ?)]; [by left|right; exists d|right; exists d'].
      * split; [left|done].
      * split; [by right|done].
    + intros [?|(d' & [->|Hd']%elem_of_cons & ?)].
      * by left; left.
      * by left; right.
      * right. by exists d'.
Qed.

Lemma calculate_total_resources_inv ds r :
  calculate_total_resources ds = Ok r ->
  peak_crew_size r = Zmax_list ((λ d, total (crew_size d)) <$> ds)
  ∧ equipment_list r = foldl (λ acc d, acc ∪ list_to_set (equipment_needed d)) ∅ ds
  ∧ material_types r = foldl (λ acc d, acc ∪ {[ materials_needed d ]}) ∅ ds
  ∧ total_equipment_types r = Z.of_nat (size (equipment_list r))
  ∧ storage_requirements r = (if 10 <? Z.of_nat (length ds) then "Medium" else "Small").
Proof.
  unfold calculate_total_resources. intros H.
  apply bind_Ok_inv in H as (per_truck & _ & H).
  apply bind_Ok_inv in H as (trucks & _ & H).
  by injection H as <-.
Qed.

(** X15: the peak crew of [calculate_total_resources] is the largest crew
    total of an estimate (0 for none), the equipment and material lists
    hold exactly what some estimate needs, the number of equipment types is
    the size of the equipment list, and the storage is Medium exactly for
    more than ten estimates. *)
Theorem resources_cover_every_estimate ds r :
  calculate_total_resources ds = Ok r ->
  (∀ d, d ∈ ds -> total (crew_size d) <= peak_crew_size r)
  ∧ (ds ≠ [] -> ∃ d, d ∈ ds ∧ total (crew_size d) = peak_crew_size r)
  ∧ (ds = [] -> peak_crew_size r = 0)
  ∧ (∀ x, x ∈ equipment_list r <-> ∃ d, d ∈ ds ∧ x ∈ equipment_needed d)
  ∧ (∀ m, m ∈ material_types r <-> ∃ d, d ∈ ds ∧ materials_needed d = m)
  ∧ total_equipment_types r = Z.of_nat (size (equipment_list r))
  ∧ (storage_requirements r = "Medium" <-> (10 < length ds)%nat).
Proof.
  intros (Hp & He & Hm & Ht & Hs)%calculate_total_resources_inv.
  rewrite Hp, He, Hm, Hs. split; [|split; [|split; [|split; [|split; [|split]]]]].
  - intros d Hd. apply Zmax_list_elem. apply list_elem_of_fmap. by exists d.
  - intros Hne.
    assert ((λ d, total (crew_size d)) <$> ds ≠ []) as Hne' by by destruct ds.
    apply Zmax_list_attained in Hne'. apply list_elem_of_fmap in Hne' as (d & Hd & Hin).
    by exists d.
  - by intros ->.
  - intros x. rewrite foldl_union_elem. split.
    + intros [H|(d & Hd & Hx)]; [by apply elem_of_empty in H|].
      exists d. split; [done|]. by apply elem_of_list_to_set in Hx.
    + intros (d & Hd & Hx). right. exists d. split; [done|]. by apply elem_of_list_to_set.
  - intros m. rewrite foldl_union_elem. split.
    + intros [H|(d & Hd & Hx)]; [by apply elem_of_empty in H|].
      exists d. split; [done|]. by apply elem_of_singleton in Hx.
    + intros (d & Hd & Hx). right. exists d. split; [done|]. by apply elem_of_singleton.
  - rewrite Ht, He. done.
  - destruct (10 <? Z.of_nat (length ds)) eqn:E.
    + apply Z.ltb_lt in E. split; [lia|done].
    + apply Z.ltb_ge in E. split; [done|lia].
Qed.

Lemma resources_cover_every_estimate_witness :
  ∃ r, calculate_total_resources demo_estimates = Ok r
       ∧ (∀ d, d ∈ demo_estimates -> total (crew_size d) <= peak_crew_size r).
Proof.
  eexists. split; [vm_compute; reflexivity|].
  refine (proj1 (resources_cover_every_estimate demo_estimates _ _)).
  vm_compute. reflexivity.
Defined.

(** ** Signs of the totals *)

Lemma SFadd_sign x y :
  SFsign_is false x -> SFsign_is false y -> SFsign_is false (SFadd prec emax x y).
Proof.
  destruct x as [s1|s1| |s1 m1 e1], y as [s2|s2| |s2 m2 e2]; simpl; try done;
    try (by intros -> ->).
  intros -> ->. simpl. apply binary_round_sign.
Qed.

Lemma SFmul_sign_finite x m e :
  SFsign_is false x -> SFsign_is false (SFmul prec emax x (S754_finite false m e)).
Proof.
  destruct x as [s1|s1| |s1 m1 e1]; simpl; try done; try by intros ->.
  intros ->. by apply binary_round_aux_sign.
Qed.

Lemma fold_add_sign l a :
  SFsign_is false (Prim2SF a) ->
  Forall (λ x, SFsign_is false (Prim2SF x)) l ->
  SFsign_is false (Prim2SF (fold_left (λ acc x, acc + x)%float l a)).
Proof.
  intros Ha Hl. revert a Ha. induction Hl as [|x l Hx _ IH]; intros a Ha; simpl; [done|].
  apply IH. rewrite add_spec. by apply SFadd_sign.
Qed.

Lemma py_sum_sign l :
  Forall (λ x, SFsign_is false (Prim2SF x)) l -> SFsign_is false (Prim2SF (py_sum l)).
Proof. intros Hl. by apply fold_add_sign. Qed.

(** The cost, the time and the area of an estimator output are not
    negative and not NaN. *)
Lemma estimator_output_signs d :
  estimator_output d ->
  SFsign_is false (Prim2SF (repair_cost d))
  ∧ SFsign_is false (Prim2SF (repair_time_hours d))
  ∧ SFsign_is false (Prim2SF (area_sqm d)).
Proof.
  intros (detection & image_shape & H). unfold analyze_single_damage in H.
  apply fmap_Ok_inv in H as ([d' t] & Haux & ->). simpl.
  destruct (analyze_aux_inv _ _ _ _ Haux)
    as (a & sev & cost & time & cf & Ha & Hcost & Hcf & Htime & -> & Hdays
        & _ & _ & _ & Harea & Hrc & Hrt).
  assert (SFsign_is false (Prim2SF a) ∧ SFsign_is false (Prim2SF (a * time))) as [Hsa Hst].
  { pose proof (calculate_damage_area_nn _ _ _ Ha) as Hnn.
    unfold py_ceil in Hdays. rewrite div_spec, mul_spec in Hdays. rewrite mul_spec.
    change (Prim2SF 8) with (S754_finite false 4503599627370496 (-49)) in Hdays.
    destruct (Prim2SF time) as [| | |[] mt et]; try done.
    destruct (Prim2SF a) as [sa|sa| |sa ma ea]; simpl in *; try done.
    all: subst sa; split; [done|]; first [done|by apply binary_round_aux_sign]. }
  assert (SFsign_is false (Prim2SF (a * cf))) as Hsc.
  { rewrite mul_spec.
    destruct (float_of_Z_below cost 14) as (cf' & Hcf' & Hcs); [lia..|].
    rewrite Hcf in Hcf'. injection Hcf' as <-.
    assert ((cost <? 0) = false) as Hneg by lia. rewrite Hneg in Hcs.
    unfold py_ceil in Hdays. rewrite div_spec, mul_spec in Hdays.
    change (Prim2SF 8) with (S754_finite false 4503599627370496 (-49)) in Hdays.
    destruct (Prim2SF time) as [| | |[] mt et]; try done.
    destruct (Prim2SF a) as [sa|sa| |sa ma ea], (Prim2SF cf) as [sc|sc| |sc mc ec];
      simpl in *; try done; subst; try done.
    all: destruct Hcs as (-> & _); first [done|by apply binary_round_aux_sign]. }
  rewrite Hrc, Hrt, Harea. repeat split; by apply py_round_sign.
Qed.

Lemma Forall_fmap_sign (f : DamageEstimate → float) ds :
  Forall (λ d, SFsign_is false (Prim2SF (f d))) ds ->
  Forall (λ x, SFsign_is false (Prim2SF x)) (f <$> ds).
Proof. intros H. by apply Forall_fmap. Qed.

Lemma generate_budget_breakdown_inv ds budget :
  generate_budget_breakdown ds = Ok budget ->
  materials (categories budget)
    = py_round (py_sum ((λ d, repair_cost d * 0.4)%float <$> ds)) 2
  ∧ labor (categories budget)
    = py_round (py_sum ((λ d, repair_cost d * 0.35)%float <$> ds)) 2
  ∧ equipment (categories budget)
    = py_round (py_sum ((λ d, repair_cost d * 0.15)%float <$> ds)) 2
  ∧ traffic_control_budget (categories budget)
    = py_round (py_sum ((λ d, repair_cost d * 0.05)%float <$> ds)) 2
  ∧ contingency (categories budget)
    = py_round (py_sum ((λ d, repair_cost d * 0.05)%float <$> ds)) 2
  ∧ total_budget budget
    = py_round (py_sum [py_sum ((λ d, repair_cost d * 0.4)%float <$> ds);
                        py_sum ((λ d, repair_cost d * 0.35)%float <$> ds);
                        py_sum ((λ d, repair_cost d * 0.15)%float <$> ds);
                        py_sum ((λ d, repair_cost d * 0.05)%float <$> ds);
                        py_sum ((λ d, repair_cost d * 0.05)%float <$> ds)]) 2.
Proof.
  unfold generate_budget_breakdown, generate_budget_breakdown_aux.
  pose proof (accumulate_categories_shares ds) as (Hm & Hl & He & Ht & Hc).
  cbv zeta in Hm, Hl, He, Ht, Hc.
  intros ([b t] & H & ->)%fmap_Ok_inv.
  apply bind_Ok_inv in H as (divisor & _ & H).
  apply bind_Ok_inv in H as (average & _ & H).
  injection H as <- _. cbn [fst categories materials labor equipment
                            traffic_control_budget contingency total_budget].
  by rewrite Hm, Hl, He, Ht, Hc.
Qed.

(** X20: in a report over estimator outputs no total is negative or NaN:
    the damaged area, the repair cost, the repair time, the five budget
    categories and the total budget. *)
Theorem survey_totals_nonneg now name ds total_images f :
  Forall estimator_output ds ->
  generate_area_summary now name ds total_images = Ok (FullReport f) ->
  (0 <=? total_damaged_area_sqm (summary_statistics f))%float = true
  ∧ (0 <=? total_repair_cost_usd (summary_statistics f))%float = true
  ∧ (0 <=? total_repair_time_hours (summary_statistics f))%float = true
  ∧ (0 <=? materials (categories (budget_breakdown f)))%float = true
  ∧ (0 <=? labor (categories (budget_breakdown f)))%float = true
  ∧ (0 <=? equipment (categories (budget_breakdown f)))%float = true
  ∧ (0 <=? traffic_control_budget (categories (budget_breakdown f)))%float = true
  ∧ (0 <=? contingency (categories (budget_breakdown f)))%float = true
  ∧ (0 <=? total_budget (budget_breakdown f))%float = true.
Proof.
  intros Hout (Hne & counts & tl & rate & budget & resources & _ & _ & _ & Hb & _
          & _ & _ & _ & _ & -> & _ & _ & _ & ->)%generate_area_summary_inv.
  apply generate_budget_breakdown_inv in Hb as (-> & -> & -> & -> & -> & ->).
  cbn [total_damaged_area_sqm total_repair_cost_usd total_repair_time_hours].
  assert (Forall (λ d, SFsign_is false (Prim2SF (repair_cost d))) ds) as Hc.
  { eapply Forall_impl; [exact Hout|]. by intros d (? & ? & ?)%estimator_output_signs. }
  assert (Forall (λ d, SFsign_is false (Prim2SF (repair_time_hours d))) ds) as Ht.
  { eapply Forall_impl; [exact Hout|]. by intros d (? & ? & ?)%estimator_output_signs. }
  assert (Forall (λ d, SFsign_is false (Prim2SF (area_sqm d))) ds) as Ha.
  { eapply Forall_impl; [exact Hout|]. by intros d (? & ? & ?)%estimator_output_signs. }
  assert (∀ c m e, Prim2SF c = S754_finite false m e ->
            SFsign_is false (Prim2SF (py_sum ((λ d, repair_cost d * c)%float <$> ds)))) as Hs.
  { intros c m e Hce. apply py_sum_sign, Forall_fmap.
    eapply Forall_impl; [exact Hc|]. intros d Hd. simpl.
    rewrite mul_spec, Hce. by apply SFmul_sign_finite. }
  pose proof (Hs 0.4%float _ _ eq_refl) as H40.
  pose proof (Hs 0.35%float _ _ eq_refl) as H35.
  pose proof (Hs 0.15%float _ _ eq_refl) as H15.
  pose proof (Hs 0.05%float _ _ eq_refl) as H05.
  repeat split; apply leb_zero_nonneg, py_round_sign; try done.
  - by apply py_sum_sign, Forall_fmap_sign.
  - by apply py_sum_sign, Forall_fmap_sign.
  - by apply py_sum_sign, Forall_fmap_sign.
  - apply py_sum_sign. by repeat constructor.
Qed.

Lemma survey_totals_nonneg_witness :
  ∃ f, generate_area_summary demo_clock "Ring Road" demo_estimates 10 = Ok (FullReport f)
       ∧ (0 <=? total_repair_cost_usd (summary_statistics f))%float = true.
Proof.
  eexists. split; [vm_compute; reflexivity|].
  destruct (survey_totals_nonneg demo_clock "Ring Road" demo_estimates 10 _
              (estimates_of_output _) ltac:(vm_compute; reflexivity)) as (_ & H & _).
  exact H.
Defined.

(** ** The fields of a report against each other *)

Lemma recommendations_head ds name :
  rec_priority <$> head (generate_recommendations ds name) = Some "IMMEDIATE"
  <-> 0 < count_severity critical ds.
Proof.
  unfold generate_recommendations.
  destruct (0 <? count_severity critical ds) eqn:Ec.
  - apply Z.ltb_lt in Ec. by split.
  - apply Z.ltb_ge in Ec. split; [|lia]. intros H. exfalso. revert H.
    destruct (0 <? count_severity severe ds); [by intros [=]|].
    destruct (2 <? _); [by intros [=]|].
    destruct (10 <? _); by intros [=].
Qed.

Lemma of_level_length k ds : Z.of_nat (length (of_level k ds)) = count_priority k ds.
Proof. done. Qed.

(** X21: in a report over estimator outputs the overall condition is
    CRITICAL exactly when the immediate phase has a repair, exactly when the
    severity breakdown has the key critical, exactly when the first
    recommendation is IMMEDIATE.  The project duration is the one of the
    timeline, the phases hold as many repairs as there are damaged
    locations, and the risk score is at least that number. *)
Theorem report_fields_agree now name ds total_images f :
  Forall estimator_output ds ->
  generate_area_summary now name ds total_images = Ok (FullReport f) ->
  (overall_condition f = "CRITICAL"
   <-> damages (immediate_phase (project_timeline f)) ≠ [])
  ∧ (overall_condition f = "CRITICAL" <-> is_Some (severity_breakdown f !! critical))
  ∧ (overall_condition f = "CRITICAL"
     <-> rec_priority <$> head (recommendations f) = Some "IMMEDIATE")
  ∧ estimated_project_duration_days (summary_statistics f)
    = total_days (project_timeline f)
  ∧ Z.of_nat (length (damages (immediate_phase (project_timeline f)))
              + length (damages (urgent_phase (project_timeline f)))
              + length (damages (scheduled_phase (project_timeline f)))
              + length (damages (preventive_phase (project_timeline f))))
    = damaged_locations (summary_statistics f)
  ∧ damaged_locations (summary_statistics f) <= risk_score (risk_assessment f).
Proof.
  intros Hout H.
  pose proof (estimator_outputs_matrix _ Hout) as Hmat.
  destruct (generate_area_summary_inv _ _ _ _ _ H)
    as (Hne & counts & tl & rate & budget & resources & Hc & Htl & _ & _ & _
        & Hsb & _ & _ & Hpt & _ & _ & Hrec & Hrisk & Hstats).
  pose proof (generate_area_summary_condition _ _ _ _ _ Hne H) as Hcond.
  cbn [report_condition] in Hcond.
  destruct (calculate_project_timeline_inv _ _ Htl) as [Hv Htleq].
  destruct (count_damages_positive _ _ _ Hc) as [Hs _]; [done..|].
  pose proof (positive_counter_lookup (severity_counts counts) critical
                (count_severity critical ds) Hs) as Hlook.
  rewrite (count_damages_severity _ _ _ critical Hc) in Hlook.
  cbn [severity_counts] in Hlook. rewrite lookup_empty in Hlook.
  specialize (Hlook eq_refl).
  assert (overall_condition f = "CRITICAL" <-> 0 < count_severity critical ds) as Hcrit.
  { rewrite Hcond. destruct (0 <? count_severity critical ds) eqn:Ec.
    - apply Z.ltb_lt in Ec. by split.
    - apply Z.ltb_ge in Ec. split; [|lia].
      destruct (2 <? _); [by intros [=]|]. destruct (_ || _); by intros [=]. }
  rewrite Hpt, Hsb, Hrec, Hrisk, Hstats, Htleq.
  cbn [immediate_phase urgent_phase scheduled_phase preventive_phase damages
       estimated_project_duration_days damaged_locations total_days].
  split; [|split; [|split; [|split; [|split]]]].
  - rewrite Hcrit, <- (count_priority_severity ds critical Hmat).
    cbn [priority_matrix level]. rewrite <- of_level_length.
    destruct (of_level 1 ds); simpl; split; try done; lia.
  - rewrite Hcrit, Hlook. destruct (decide (count_severity critical ds = 0)) as [E|E].
    + split; [lia|by intros [? [=]]].
    + split; [by eexists|]. intros _. unfold count_severity in *. lia.
  - by rewrite Hcrit, recommendations_head.
  - done.
  - by rewrite (length_of_levels ds Hv).
  - rewrite assess_overall_risk_eq. cbn [risk_score]. rewrite risk_points_sum.
    pose proof (count_severity_total ds).
    assert (0 <= count_severity critical ds ∧ 0 <= count_severity severe ds
            ∧ 0 <= count_severity moderate ds) as (? & ? & ?)
      by (unfold count_severity; lia).
    lia.
Qed.

Lemma report_fields_agree_witness :
  ∃ f, generate_area_summary demo_clock "Ring Road" demo_estimates 10 = Ok (FullReport f)
       ∧ (overall_condition f = "CRITICAL"
          <-> damages (immediate_phase (project_timeline f)) ≠ []).
Proof.
  eexists. split; [vm_compute; reflexivity|].
  destruct (report_fields_agree demo_clock "Ring Road" demo_estimates 10 _
              (estimates_of_output _) ltac:(vm_compute; reflexivity)) as (H & _).
  exact H.
Defined.

(** ** The per-image totals *)

Lemma fold_left_min_spec l a :
  fold_left Z.min l a <= a
  ∧ (∀ x, x ∈ l -> fold_left Z.min l a <= x)
  ∧ (fold_left Z.min l a = a ∨ fold_left Z.min l a ∈ l).
Proof.
  revert a. induction l as [|y l IH]; intros a; simpl.
  - split; [lia|]. split; [by intros x ?%elem_of_nil|by left].
  - destruct (IH (Z.min a y)) as (H1 & H2 & H3). split; [lia|]. split.
    + intros x [->|Hx]%elem_of_cons; [lia|by apply H2].
    + destruct H3 as [H3|H3]; [|by right; right].
      rewrite H3. destruct (Z.min_spec a y) as [[_ ->]|[_ ->]]; [by left|right; left].
Qed.

Lemma level_of_index s : level (priority_matrix s) = 4 - severity_index s.
Proof. by destruct s. Qed.

Lemma mapM_exc_inv {A B} (f : A → exc B) l :
  match mapM f l with
  | Ok k => Forall2 (λ x y, f x = Ok y) l k
  | Raise e => ∃ x, x ∈ l ∧ f x = Raise e
  end.
Proof.
  induction l as [|x l IH]; simpl; [constructor|].
  destruct (f x) as [y|e] eqn:Ex; simpl; [|exists x; split; [left|done]].
  destruct (mapM f l) as [k|e]; simpl.
  - by constructor.
  - destruct IH as (x' & Hx' & He). exists x'. split; [by right|done].
Qed.

Lemma py_max_by_spec {A} (key : A → Z) l d :
  let best := fold_left (λ best y, if key best <? key y then y else best) l d in
  key d <= key best
  ∧ (∀ x, x ∈ l -> key x <= key best)
  ∧ (best = d ∨ best ∈ l).
Proof.
  revert d. induction l as [|y l IH]; intros d; simpl.
  - split; [lia|]. split; [by intros x ?%elem_of_nil|by left].
  - destruct (key d <? key y) eqn:E.
    + apply Z.ltb_lt in E. destruct (IH y) as (H1 & H2 & H3). split; [lia|]. split.
      * intros x [->|Hx]%elem_of_cons; [done|by apply H2].
      * right. destruct H3 as [->|H3]; [left|by right].
    + apply Z.ltb_ge in E. destruct (IH d) as (H1 & H2 & H3). split; [lia|]. split.
      * intros x [->|Hx]%elem_of_cons; [lia|by apply H2].
      * destruct H3 as [H3|H3]; [by left|by right; right].
Qed.

(** X26: [process_single_image] summarizes the detections of an image only
    under [if has_damage:].  Without a detection the block is skipped: no
    key is set and nothing is raised.  Otherwise every detection has its
    estimate, in order, [highest_priority] is the priority level of
    [most_severe], [most_severe] is the severity of some estimate and no
    estimate is more severe; the only exceptions are those of the
    estimator. *)
Theorem image_priority_of_most_severe algorithm detections image_shape :
  match detailed_damage_totals algorithm detections image_shape with
  | Ok None => detections = []
  | Ok (Some totals) =>
      detections ≠ []
      ∧ Forall2 (λ detection d, analyze_single_damage detection image_shape = Ok d)
          detections (detailed_damage_analysis totals)
      ∧ highest_priority totals = level (priority_matrix (most_severe totals))
      ∧ (∃ d, d ∈ detailed_damage_analysis totals ∧ severity d = most_severe totals)
      ∧ (∀ d, d ∈ detailed_damage_analysis totals ->
           severity_index (severity d) <= severity_index (most_severe totals))
  | Raise e =>
      ∃ detection,
        detection ∈ detections ∧ analyze_single_damage detection image_shape = Raise e
  end.
Proof.
  unfold detailed_damage_totals.
  destruct detections as [|detection0 rest]; [done|].
  set (detections := detection0 :: rest).
  assert ((0 <? Z.of_nat (length detections)) = true) as -> by (apply Z.ltb_lt; simpl; lia).
  pose proof (mapM_exc_inv (λ detection, analyze_single_damage detection image_shape)
                detections) as Hmap.
  destruct (mapM _ detections) as [ds|e]; [|done]. cbn [mbind exc_bind].
  assert (Forall estimator_output ds) as Hout.
  { apply Forall2_Forall_r with (Q := estimator_output) in Hmap; [done|].
    apply Forall_true. intros detection d Hd. by exists detection, image_shape. }
  apply estimator_outputs_matrix in Hout.
  destruct ds as [|d l]; [by apply Forall2_cons_nil_inv in Hmap|].
  apply Forall_cons_1 in Hout as [Hd Hl]. rewrite Forall_forall in Hl.
  unfold py_min, py_max_by. rewrite fmap_cons. cbn [mbind exc_bind].
  cbv beta iota. cbn [detailed_damage_analysis highest_priority most_severe].
  pose proof (py_max_by_spec (severity_index ∘ severity) l d) as (B1 & B2 & B3).
  cbv zeta in B1, B2, B3.
  set (best := fold_left _ l d) in *. cbn [compose] in B1, B2.
  pose proof (fold_left_min_spec (level ∘ priority <$> l) ((level ∘ priority) d))
    as (M1 & M2 & M3).
  set (m := fold_left Z.min _ _) in *.
  split; [done|]. split; [done|].
  cbn [detailed_damage_analysis highest_priority most_severe]. change (list_fmap _ _ ?f ?l) with (f <$> l). fold m.
  split; [|split].
  - rewrite level_of_index. apply Z.le_antisymm.
    + destruct B3 as [->|Hin].
      * cbn [compose] in M1. rewrite Hd, level_of_index in M1. done.
      * assert (m <= (level ∘ priority) best) as Hm.
        { apply M2. apply list_elem_of_fmap. by exists best. }
        cbn [compose] in Hm. by rewrite (Hl _ Hin), level_of_index in Hm.
    + destruct M3 as [->|Hin].
      * cbn [compose]. rewrite Hd, level_of_index. lia.
      * apply list_elem_of_fmap in Hin as (x & -> & Hx). cbn [compose].
        rewrite (Hl _ Hx), level_of_index. specialize (B2 _ Hx). lia.
  - exists best. split; [|done]. destruct B3 as [->|Hin]; [left|by right].
  - intros x [->|Hx]%elem_of_cons; [done|by apply B2].
Qed.

(** ** The maintenance schedule *)

Lemma schedule_fold strftime now ds (schedule : gmap string (list ScheduleEntry)) w :
  fold_left
    (λ schedule damage,
       let priority_level := level (priority damage) in
       let start_date := add_days now (start_offset priority_level) in
       let week_key := strftime start_date in
       <[week_key := default [] (schedule !! week_key) ++ [schedule_entry damage]]> schedule)
    ds schedule !! w =
  match filter (λ d, week_of strftime now d = w) ds with
  | [] => schedule !! w
  | l => Some (default [] (schedule !! w) ++ (schedule_entry <$> l))
  end.
Proof.
  revert schedule. induction ds as [|d ds IH]; intros schedule; [done|].
  cbn [fold_left]. rewrite IH, filter_cons. fold (week_of strftime now d).
  destruct (decide (week_of strftime now d = w)) as [<-|Hne].
  - rewrite lookup_insert_eq. cbn [default].
    destruct (filter _ ds) as [|d' l]; cbn [fmap list_fmap]; [done|].
    unfold id. by rewrite <- app_assoc.
  - by rewrite lookup_insert_ne.
Qed.

(** X22: a week of the maintenance schedule lists, in the order of the
    input, the estimates whose start date (1, 7, 30 or 90 days from now for
    levels 1, 2, 3 and any other) falls in it, and a week without one is
    absent; this holds for every formatting of the week label. *)
Theorem schedule_weeks strftime now ds w :
  create_maintenance_schedule strftime now ds !! w =
  match filter (λ d, week_of strftime now d = w) ds with
  | [] => None
  | l => Some (schedule_entry <$> l)
  end.
Proof.
  unfold create_maintenance_schedule. rewrite schedule_fold, lookup_empty.
  by destruct (filter _ ds).
Qed.

(** X23: every estimate has its entry in the week of its start date,
    whatever its priority level, and the start is 90 days out for each
    level other than 1, 2 and 3. *)
Theorem schedule_covers_every_estimate strftime now ds d :
  d ∈ ds ->
  (∃ l, create_maintenance_schedule strftime now ds !! week_of strftime now d = Some l
        ∧ schedule_entry d ∈ l)
  ∧ (level (priority d) ∉ [1; 2; 3] ->
     week_of strftime now d = strftime (add_days now 90)).
Proof.
  intros Hd. split.
  - unfold create_maintenance_schedule. rewrite schedule_fold, lookup_empty.
    assert (d ∈ filter (λ d', week_of strftime now d' = week_of strftime now d) ds) as Hin
      by by apply list_elem_of_filter.
    destruct (filter _ ds) as [|d' l] eqn:E; [by apply elem_of_nil in Hin|].
    eexists. split; [done|]. apply list_elem_of_fmap. by exists d.
  - rewrite !not_elem_of_cons. intros (H1 & H2 & H3 & _).
    unfold week_of, start_offset.
    by rewrite (proj2 (Z.eqb_neq _ _) H1), (proj2 (Z.eqb_neq _ _) H2),
      (proj2 (Z.eqb_neq _ _) H3).
Qed.

Lemma schedule_covers_every_estimate_witness :
  ∃ d l, d ∈ demo_estimates
         ∧ create_maintenance_schedule week_label demo_clock demo_estimates
             !! week_of week_label demo_clock d = Some l
         ∧ schedule_entry d ∈ l.
Proof.
  assert (∃ d, head demo_estimates = Some d) as [d Hd]
    by (eexists; vm_compute; reflexivity).
  assert (d ∈ demo_estimates) as Hin.
  { destruct demo_estimates as [|d' l]; [discriminate Hd|].
    injection Hd as ->. left. }
  destruct (schedule_covers_every_estimate week_label demo_clock demo_estimates d Hin)
    as [(l & Hl & Hdl) _].
  exists d, l. split; [exact Hin|]. split; [exact Hl|exact Hdl].
Defined.

(** * The budget within rounding tolerance *)

Example utf8_chars_example :
  utf8_chars "aé€b" = ["a"; "é"; "€"; "b"] ∧ length (utf8_chars "éé") = 2%nat
  ∧ utf8_chars "abcd" = ["a"; "b"; "c"; "d"] ∧ utf8_chars "" = [].
Proof. repeat split; vm_compute; reflexivity. Qed.

(** ** Binary64 rounding: values *)

Lemma Zdigits2_eq m k : 0 < k -> 2 ^ (k - 1) <= m < 2 ^ k -> Zdigits2 m = k.
Proof.
  intros Hk [Hl Hu].
  assert (0 < 2 ^ (k - 1)) by (apply Z.pow_pos_nonneg; lia).
  pose proof (proj2 (Zdigits2_le m k ltac:(lia) ltac:(lia)) Hu).
  destruct (Z.le_gt_cases (Zdigits2 m) (k - 1)) as [Hle|]; [|lia].
  apply (Zdigits2_le m (k - 1)) in Hle; lia.
Qed.

Lemma valid_finite_inv s m e :
  valid_binary (S754_finite s m e) = true ->
  -1074 <= e <= 971 ∧ Z.pos m < 2 ^ 53 ∧ (e = -1074 ∨ 2 ^ 52 <= Z.pos m).
Proof.
  unfold valid_binary, SpecFloat.valid_binary, bounded, canonical_mantissa. rewrite fexp_eq.
  intros [He Hmax]%andb_true_iff. apply Z.eqb_eq in He. apply Z.leb_le in Hmax.
  change (emax - prec) with 971 in Hmax.
  pose proof (Zdigits2_lower m) as Hl. cbn [Zdigits2] in Hl.
  assert (Z.pos (digits2_pos m) <= 53) as Hd by lia.
  apply (Zdigits2_le (Z.pos m)) in Hd; [|lia..].
  split; [lia|]. split; [done|].
  destruct (Z.eq_dec e (-1074)) as [|Hne]; [by left|right].
  by replace (Z.pos (digits2_pos m)) with 53 in Hl by lia.
Qed.

Lemma valid_finite_intro s m e :
  -1074 <= e <= 971 -> Z.pos m < 2 ^ 53 -> e = -1074 ∨ 2 ^ 52 <= Z.pos m ->
  valid_binary (S754_finite s m e) = true.
Proof.
  intros He Hm Hn. unfold valid_binary, SpecFloat.valid_binary, bounded, canonical_mantissa.
  rewrite fexp_eq.
  apply andb_true_iff. split; [|apply Z.leb_le; change (emax - prec) with 971; lia].
  apply Z.eqb_eq.
  assert (Zdigits2 (Z.pos m) <= 53) as Hd by (apply Zdigits2_le; lia).
  change (Zdigits2 (Z.pos m)) with (Z.pos (digits2_pos m)) in Hd.
  destruct Hn as [->|Hn]; [lia|].
  pose proof (Zdigits2_eq (Z.pos m) 53 ltac:(lia) ltac:(lia)) as E.
  change (Zdigits2 (Z.pos m)) with (Z.pos (digits2_pos m)) in E. lia.
Qed.

Lemma mod_mul_split m a b :
  0 < a -> 0 < b -> m mod (a * b) = 0 -> m mod a = 0 ∧ (m / a) mod b = 0.
Proof.
  intros Ha Hb Hm. apply Z.mod_divide in Hm; [|lia]. destruct Hm as [k ->].
  replace (k * (a * b)) with (k * b * a) by ring.
  rewrite Z.mod_mul by lia. rewrite Z.div_mul by lia. by rewrite Z.mod_mul by lia.
Qed.

Lemma shr_1_exact r :
  0 <= shr_m r -> shr_r r = false -> shr_s r = false -> shr_m r mod 2 = 0 ->
  shr_r (shr_1 r) = false ∧ shr_s (shr_1 r) = false.
Proof.
  destruct r as [m r s]. simpl. intros Hm -> -> Hmod.
  destruct m as [|[p|p|]|]; simpl; try done.
  rewrite Pos2Z.inj_xI in Hmod. exfalso. Z.div_mod_to_equations. lia.
Qed.

Lemma iter_shr_1_exact p r :
  0 <= shr_m r -> shr_r r = false -> shr_s r = false -> shr_m r mod 2 ^ Z.pos p = 0 ->
  shr_r (iter_pos shr_1 p r) = false ∧ shr_s (iter_pos shr_1 p r) = false.
Proof.
  revert r. induction p as [p IH|p IH|]; intros r Hm Hr Hs Hmod; simpl iter_pos.
  - assert (0 < 2 ^ Z.pos p) by (apply Z.pow_pos_nonneg; lia).
    rewrite pow2_xI in Hmod.
    apply mod_mul_split in Hmod as [H2 Hmod]; [|lia..].
    apply mod_mul_split in Hmod as [H3 H4]; [|lia..].
    destruct (shr_1_exact r Hm Hr Hs H2) as [Hr1 Hs1].
    assert (0 <= shr_m (shr_1 r)) as Hm1 by (rewrite shr_1_m by done; apply Z.div_pos; lia).
    rewrite <- (shr_1_m r Hm) in H3, H4.
    destruct (IH (shr_1 r) Hm1 Hr1 Hs1 H3) as [Hr2 Hs2].
    apply IH; [rewrite iter_shr_1_m by done; apply Z.div_pos; lia|done|done|].
    by rewrite iter_shr_1_m.
  - assert (0 < 2 ^ Z.pos p) by (apply Z.pow_pos_nonneg; lia).
    rewrite pow2_xO in Hmod.
    apply mod_mul_split in Hmod as [H3 H4]; [|lia..].
    destruct (IH r Hm Hr Hs H3) as [Hr2 Hs2].
    apply IH; [rewrite iter_shr_1_m by done; apply Z.div_pos; lia|done|done|].
    by rewrite iter_shr_1_m.
  - apply shr_1_exact; try done.
Qed.

Lemma pos_iter_xO_value m d : Z.pos (Pos.iter xO m d) = Z.pos m * 2 ^ Z.pos d.
Proof.
  induction d as [|d IH] using Pos.peano_ind.
  - simpl. lia.
  - rewrite Pos.iter_succ, Pos2Z.inj_xO, IH, Pos2Z.inj_succ, Z.pow_succ_r by lia. lia.
Qed.

Lemma shl_align_exact mx ex ez :
  ez <= ex ->
  Z.pos (shl_align mx ex ez).1 = Z.pos mx * 2 ^ (ex - ez) ∧ (shl_align mx ex ez).2 = ez.
Proof.
  intros He. unfold shl_align. destruct (ez - ex) as [|d|d] eqn:Ed; simpl.
  - replace (ex - ez) with 0 by lia. lia.
  - lia.
  - rewrite pos_iter_xO_value. replace (ex - ez) with (Z.pos d) by lia. done.
Qed.

Lemma shl_align_none mx ex ez : ex <= ez -> shl_align mx ex ez = (mx, ex).
Proof. intros He. unfold shl_align. destruct (ez - ex) as [|d|d] eqn:Ed; try done. lia. Qed.

(** The first shift of [binary_round_aux] on an exact mantissa. *)
Lemma shr_fexp_exact_loc m e :
  0 <= m ->
  let n := fexp prec emax (Zdigits2 m + e) - e in
  (0 < n -> m mod 2 ^ n = 0) ->
  loc_of_shr_record (shr_fexp prec emax m e loc_Exact).1 = loc_Exact.
Proof.
  intros Hm n Hmod. unfold shr_fexp. fold n. unfold shr.
  destruct n as [|p|p] eqn:En; simpl; try done.
  destruct (iter_shr_1_exact p {| shr_m := m; shr_r := false; shr_s := false |})
    as [Hr Hs]; simpl; try done.
  { apply Hmod. lia. }
  destruct (iter_pos shr_1 p _) as [m' r' s']. simpl in *. by subst.
Qed.

Lemma binary_round_aux_spec s m e :
  0 < m -> -1074 <= e ->
  Z.max (Zdigits2 m + e - 53) (-1074) <= e ->
  ∃ m', Z.pos m' = m ∧
    binary_round_aux prec emax s m e loc_Exact
    = if e <=? 971 then S754_finite s m' e else S754_infinity s.
Proof.
  intros Hm He Hfe. unfold binary_round_aux.
  assert (∀ l, shr_fexp prec emax m e l = (shr_record_of_loc m l, e)) as Hshr.
  { intros l. unfold shr_fexp, shr. rewrite fexp_eq.
    destruct (Z.max (Zdigits2 m + e - 53) (-1074) - e) eqn:E; try done. lia. }
  rewrite Hshr. cbn [shr_record_of_loc loc_of_shr_record shr_m round_nearest_even].
  rewrite Hshr. cbn [shr_record_of_loc shr_m].
  destruct m as [|p|p]; try lia. exists p. split; [done|].
  done.
Qed.

Lemma binary_round_spec s p e :
  -1074 <= e ->
  let e1 := Z.max (Z.pos (digits2_pos p) + e - 53) (-1074) in
  if e1 <=? e then
    ∃ m', Z.pos m' = Z.pos p * 2 ^ (e - e1)
          ∧ binary_round prec emax s p e
            = (if e1 <=? 971 then S754_finite s m' e1 else S754_infinity s)
  else
    ∃ m1, (m1 = Z.pos p / 2 ^ (e1 - e) ∨ m1 = Z.pos p / 2 ^ (e1 - e) + 1)
          ∧ (Z.pos p mod 2 ^ (e1 - e) = 0 -> m1 = Z.pos p / 2 ^ (e1 - e))
          ∧ 2 ^ 52 <= Z.pos p / 2 ^ (e1 - e) < 2 ^ 53
          ∧ binary_round prec emax s p e
            = if m1 <? 2 ^ 53
              then (if e1 <=? 971 then S754_finite s (Z.to_pos m1) e1 else S754_infinity s)
              else (if e1 + 1 <=? 971 then S754_finite s (Z.to_pos (2 ^ 52)) (e1 + 1)
                    else S754_infinity s).
Proof.
  intros He e1. unfold binary_round. rewrite fexp_eq. fold e1.
  destruct (e1 <=? e) eqn:Ee.
  - apply Z.leb_le in Ee.
    destruct (shl_align_exact p e e1 Ee) as [Hv Hx].
    pose proof (shl_align_spec p e e1) as Hsp.
    destruct (shl_align p e e1) as [mz ez]. simpl in Hv, Hx. subst ez.
    destruct Hsp as [Hd _].
    destruct (binary_round_aux_spec s (Z.pos mz) e1) as (m' & Hm' & ->); [lia|lia| |].
    { cbn [Zdigits2]. lia. }
    exists m'. split; [lia|done].
  - apply Z.leb_gt in Ee. rewrite shl_align_none by lia.
    set (d := Z.pos (digits2_pos p)) in *.
    assert (e1 = d + e - 53) as He1 by lia.
    set (n := e1 - e). assert (0 < n) as Hn by lia.
    assert (0 < 2 ^ n) as Hpn by (apply Z.pow_pos_nonneg; lia).
    pose proof (Zdigits2_lower p) as Hlow. cbn [Zdigits2] in Hlow. fold d in Hlow.
    assert (Z.pos p < 2 ^ d) as Hup by (apply (Zdigits2_le (Z.pos p)); [lia|lia|done]).
    replace (d - 1) with (52 + n) in Hlow by lia. rewrite Z.pow_add_r in Hlow by lia.
    replace d with (53 + n) in Hup by lia. rewrite Z.pow_add_r in Hup by lia.
    set (q := Z.pos p / 2 ^ n).
    assert (2 ^ 52 <= q < 2 ^ 53) as Hq.
    { split; [apply Z.div_le_lower_bound; lia|apply Z.div_lt_upper_bound; lia]. }
    unfold binary_round_aux.
    pose proof (shr_fexp_spec (Z.pos p) e loc_Exact ltac:(lia)) as [Hr1 He1'].
    pose proof (shr_fexp_exact_loc (Z.pos p) e ltac:(lia)) as Hloc.
    cbv zeta in Hr1, He1', Hloc. rewrite fexp_eq in Hr1, He1', Hloc.
    cbn [Zdigits2] in Hr1, He1', Hloc. fold d in Hr1, He1', Hloc. fold e1 in Hr1, He1', Hloc.
    fold n in Hr1, He1', Hloc.
    destruct (shr_fexp prec emax (Z.pos p) e loc_Exact) as [r1 e1''].
    cbn [fst snd] in Hr1, He1', Hloc.
    assert ((0 <? n) = true) as Hnb by (apply Z.ltb_lt; lia).
    rewrite Hnb in Hr1, He1'. fold q in Hr1. subst e1''.
    replace (e + n) with e1 by (unfold n; lia).
    set (m1 := round_nearest_even (shr_m r1) (loc_of_shr_record r1)).
    pose proof (round_nearest_even_bounds (shr_m r1) (loc_of_shr_record r1)) as Hb.
    fold m1 in Hb. rewrite Hr1 in Hb.
    exists m1. split; [|split; [|split; [done|]]].
    + destruct (Z.eq_dec m1 q); [by left|right; lia].
    + intros Hmod. unfold m1. rewrite Hloc by done. simpl. done.
    + destruct (m1 <? 2 ^ 53) eqn:Em.
      * apply Z.ltb_lt in Em.
        destruct (binary_round_aux_spec s m1 e1) as (m' & Hm' & Haux); [lia|lia| |].
        { rewrite (Zdigits2_eq m1 53); lia. }
        unfold binary_round_aux in Haux.
        assert (∀ l, shr_fexp prec emax m1 e1 l = (shr_record_of_loc m1 l, e1)) as Hshr.
        { intros l. unfold shr_fexp, shr. rewrite fexp_eq.
          rewrite (Zdigits2_eq m1 53) by lia.
          destruct (Z.max (53 + e1 - 53) (-1074) - e1) eqn:E; try done. lia. }
        rewrite Hshr. cbn [shr_record_of_loc shr_m].
        destruct m1 as [|pm|pm]; try lia. simpl. done.
      * apply Z.ltb_ge in Em. assert (m1 = 2 ^ 53) as -> by lia.
        unfold shr_fexp. rewrite fexp_eq.
        replace (Zdigits2 (2 ^ 53)) with 54 by reflexivity.
        replace (Z.max (54 + e1 - 53) (-1074) - e1) with 1 by lia.
        reflexivity.
Qed.

Lemma pow2_pos k : 0 < 2 ^ k ∨ (k < 0 ∧ 2 ^ k = 0).
Proof.
  destruct (Z.le_gt_cases 0 k); [left; apply Z.pow_pos_nonneg; lia|right].
  split; [done|]. by apply Z.pow_neg_r.
Qed.

Lemma pow2_split a b : 0 <= a -> 0 <= b -> 2 ^ (a + b) = 2 ^ a * 2 ^ b.
Proof. intros. by rewrite Z.pow_add_r. Qed.

Lemma Zdigits2_shift p k : 0 <= k -> Zdigits2 (Z.pos p * 2 ^ k) = Zdigits2 (Z.pos p) + k.
Proof.
  intros Hk. pose proof (Zdigits2_lower p) as Hl.
  assert (Z.pos p < 2 ^ Zdigits2 (Z.pos p)) as Hu by (apply Zdigits2_le; simpl; lia).
  assert (0 < Zdigits2 (Z.pos p)) as Hd by (simpl; lia).
  assert (0 < 2 ^ k) by (apply Z.pow_pos_nonneg; lia).
  apply Zdigits2_eq; [lia|].
  replace (Zdigits2 (Z.pos p) + k - 1) with (Zdigits2 (Z.pos p) - 1 + k) by lia.
  rewrite !Z.pow_add_r by lia. nia.
Qed.

(** [binary_round] on a mantissa and an exponent not below [-1074]: an
    overflow, or a valid double within one part in [2 ^ 52] of the exact
    value. *)
Lemma binary_round_units s p e :
  -1074 <= e ->
  (binary_round prec emax s p e = S754_infinity s
   ∧ 2 ^ 2097 <= Z.pos p * 2 ^ (e + 1074))
  ∨ (∃ m' e', binary_round prec emax s p e = S754_finite s m' e'
       ∧ valid_binary (S754_finite s m' e') = true
       ∧ 2 ^ 52 * Z.abs (Z.pos m' * 2 ^ (e' + 1074) - Z.pos p * 2 ^ (e + 1074))
         <= Z.pos p * 2 ^ (e + 1074)).
Proof.
  intros He. pose proof (binary_round_spec s p e He) as H. cbv zeta in H.
  set (d := Z.pos (digits2_pos p)) in *.
  set (e1 := Z.max (d + e - 53) (-1074)) in *.
  pose proof (Zdigits2_lower p) as Hlow. cbn [Zdigits2] in Hlow. fold d in Hlow.
  assert (Z.pos p < 2 ^ d) as Hup by (apply (Zdigits2_le (Z.pos p)); [lia|lia|done]).
  assert (0 < d) as Hd by (unfold d; lia).
  set (X := 2 ^ (e + 1074)). assert (0 < X) as HX by (apply Z.pow_pos_nonneg; lia).
  assert (∀ k, 1023 <= k -> k <= d - 1 + e -> 2 ^ 2097 <= Z.pos p * X) as Hbig.
  { intros k Hk1 Hk2.
    assert (2 ^ 2097 <= 2 ^ (d - 1 + (e + 1074))) as Hp by (apply Z.pow_le_mono_r; lia).
    rewrite Z.pow_add_r in Hp by lia. fold X in Hp.
    assert (0 < 2 ^ (d - 1)) by (apply Z.pow_pos_nonneg; lia). nia. }
  destruct (e1 <=? e) eqn:Ee.
  - apply Z.leb_le in Ee. destruct H as (m' & Hm' & ->).
    assert (0 < 2 ^ (e - e1)) as Hs by (apply Z.pow_pos_nonneg; lia).
    assert (X = 2 ^ (e - e1) * 2 ^ (e1 + 1074)) as HXs.
    { unfold X. rewrite <- Z.pow_add_r by lia. f_equal. lia. }
    destruct (e1 <=? 971) eqn:Emax.
    + apply Z.leb_le in Emax. right. exists m', e1. split; [done|]. split.
      * apply valid_finite_intro; [lia| |].
        -- rewrite Hm'. 
           assert (2 ^ d * 2 ^ (e - e1) <= 2 ^ 53); [|nia].
           rewrite <- Z.pow_add_r by lia. apply Z.pow_le_mono_r; lia.
        -- destruct (Z.eq_dec e1 (-1074)) as [|Hne]; [by left|right].
           rewrite Hm'.
           assert (2 ^ 52 <= 2 ^ (d - 1) * 2 ^ (e - e1)); [|nia].
           rewrite <- Z.pow_add_r by lia. apply Z.pow_le_mono_r; lia.
      * rewrite Hm', HXs.
        replace (Z.pos p * 2 ^ (e - e1) * 2 ^ (e1 + 1074)
                 - Z.pos p * (2 ^ (e - e1) * 2 ^ (e1 + 1074))) with 0 by ring.
        simpl. rewrite <- HXs. lia.
    + apply Z.leb_gt in Emax. left. split; [done|]. apply (Hbig 1023); lia.
  - apply Z.leb_gt in Ee. destruct H as (m1 & Hm1 & _ & Hq & ->).
    set (n := e1 - e) in *. assert (0 < n) as Hn by lia.
    assert (0 < 2 ^ n) as Hpn by (apply Z.pow_pos_nonneg; lia).
    assert (2 ^ (e1 + 1074) = 2 ^ n * X) as HX1.
    { unfold X. rewrite <- Z.pow_add_r by lia. f_equal. lia. }
    pose proof (Z.div_mod (Z.pos p) (2 ^ n) ltac:(lia)) as Hdm.
    pose proof (Z.mod_pos_bound (Z.pos p) (2 ^ n) Hpn) as Hr.
    set (q := Z.pos p / 2 ^ n) in *. set (r := Z.pos p mod 2 ^ n) in *.
    assert (2 ^ 52 * Z.abs (m1 * 2 ^ n - Z.pos p) <= Z.pos p) as Herr.
    { destruct Hm1 as [->| ->]; nia. }
    assert (2 ^ 52 * Z.abs (m1 * (2 ^ n * X) - Z.pos p * X) <= Z.pos p * X) as HerrX.
    { replace (m1 * (2 ^ n * X) - Z.pos p * X) with ((m1 * 2 ^ n - Z.pos p) * X) by ring.
      rewrite Z.abs_mul, (Z.abs_eq X) by lia. nia. }
    assert (e1 = d + e - 53) as He1 by lia.
    destruct (m1 <? 2 ^ 53) eqn:Em.
    + apply Z.ltb_lt in Em. destruct (e1 <=? 971) eqn:Emax.
      * apply Z.leb_le in Emax. right. exists (Z.to_pos m1), e1. split; [done|].
        assert (Z.pos (Z.to_pos m1) = m1) as Hid by (apply Z2Pos.id; lia).
        split; [apply valid_finite_intro; lia|]. rewrite Hid, HX1. done.
      * apply Z.leb_gt in Emax. left. split; [done|]. apply (Hbig 1023); lia.
    + apply Z.ltb_ge in Em. assert (m1 = 2 ^ 53) as Hm53 by lia.
      destruct (e1 + 1 <=? 971) eqn:Emax.
      * apply Z.leb_le in Emax. right. exists (Z.to_pos (2 ^ 52)), (e1 + 1).
        split; [done|]. split; [by apply valid_finite_intro; [lia|done|right]|].
        replace (e1 + 1 + 1074) with (1 + (e1 + 1074)) by lia.
        rewrite Z.pow_add_r, HX1 by lia.
        replace (Z.pos (Z.to_pos (2 ^ 52)) * (2 ^ 1 * (2 ^ n * X))) with (m1 * (2 ^ n * X)).
        -- done.
        -- rewrite Hm53. change (Z.pos (Z.to_pos (2 ^ 52))) with (2 ^ 52).
           change (2 ^ 53) with (2 ^ 52 * 2 ^ 1). ring.
      * apply Z.leb_gt in Emax. left. split; [done|]. apply (Hbig 1023); lia.
Qed.

(** A value that a double holds is rounded to that double. *)
Lemma binary_round_exact s p e m0 e0 :
  -1074 <= e -> valid_binary (S754_finite s m0 e0) = true ->
  Z.pos p * 2 ^ (e + 1074) = Z.pos m0 * 2 ^ (e0 + 1074) ->
  binary_round prec emax s p e = S754_finite s m0 e0.
Proof.
  intros He (He0 & Hm0 & Hn0)%valid_finite_inv Heq.
  pose proof (binary_round_spec s p e He) as H. cbv zeta in H.
  set (d := Z.pos (digits2_pos p)) in *.
  set (e1 := Z.max (d + e - 53) (-1074)) in *.
  assert (d + e = Zdigits2 (Z.pos m0) + e0) as Hd.
  { pose proof (Zdigits2_shift p (e + 1074) ltac:(lia)) as H1.
    pose proof (Zdigits2_shift m0 (e0 + 1074) ltac:(lia)) as H2.
    rewrite Heq in H1. rewrite H1 in H2. cbn [Zdigits2] in H2 |- *. fold d in H2. lia. }
  assert (e1 = e0) as He1.
  { destruct Hn0 as [->|Hn0].
    - assert (Zdigits2 (Z.pos m0) <= 53) by (apply Zdigits2_le; lia). lia.
    - rewrite (Zdigits2_eq (Z.pos m0) 53) in Hd by lia. lia. }
  destruct (e1 <=? e) eqn:Ee.
  - apply Z.leb_le in Ee. destruct H as (m' & Hm' & ->).
    assert ((e1 <=? 971) = true) as -> by (apply Z.leb_le; lia).
    rewrite He1 in *. f_equal.
    assert (0 < 2 ^ (e0 + 1074)) by (apply Z.pow_pos_nonneg; lia).
    replace (e + 1074) with (e - e0 + (e0 + 1074)) in Heq by lia.
    rewrite Z.pow_add_r in Heq by lia.
    assert (Z.pos m' * 2 ^ (e0 + 1074) = Z.pos m0 * 2 ^ (e0 + 1074)) as Hc
      by (rewrite Hm', <- Heq; ring).
    apply Z.mul_cancel_r in Hc; [congruence|lia].
  - apply Z.leb_gt in Ee. destruct H as (m1 & _ & Hex & _ & ->).
    rewrite He1 in *.
    assert (0 < 2 ^ (e + 1074)) by (apply Z.pow_pos_nonneg; lia).
    assert (0 < 2 ^ (e0 - e)) by (apply Z.pow_pos_nonneg; lia).
    replace (e0 + 1074) with (e0 - e + (e + 1074)) in Heq by lia.
    rewrite (Z.pow_add_r 2 (e0 - e) (e + 1074)) in Heq by lia.
    assert (Z.pos p = Z.pos m0 * 2 ^ (e0 - e)) as Hp.
    { apply (Z.mul_cancel_r _ _ (2 ^ (e + 1074))); [lia|]. rewrite Heq. ring. }
    assert (m1 = Z.pos m0) as ->.
    { rewrite Hex; rewrite Hp; [by rewrite Z.div_mul by lia|by rewrite Z.mod_mul by lia]. }
    assert ((Z.pos m0 <? 2 ^ 53) = true) as -> by (apply Z.ltb_lt; lia).
    assert ((e0 <=? 971) = true) as -> by (apply Z.leb_le; lia).
    done.
Qed.

Lemma cond_Zopp_mul s a X : cond_Zopp s (a * X) = cond_Zopp s a * X.
Proof. destruct s; simpl; lia. Qed.

Lemma finite_units_aligned s m e ez :
  -1074 <= ez <= e ->
  SFunits (S754_finite s m e)
  = cond_Zopp s (Z.pos (shl_align m e ez).1) * 2 ^ (ez + 1074).
Proof.
  intros He. destruct (shl_align_exact m e ez) as [-> _]; [lia|]. cbn [SFunits].
  rewrite <- cond_Zopp_mul. f_equal.
  rewrite <- Z.mul_assoc, <- Z.pow_add_r by lia. do 2 f_equal. lia.
Qed.

Lemma binary_normalize_units M e :
  -1074 <= e -> SFreal (binary_normalize prec emax M e false) ->
  2 ^ 52 * Z.abs (SFunits (binary_normalize prec emax M e false) - M * 2 ^ (e + 1074))
  <= Z.abs (M * 2 ^ (e + 1074)).
Proof.
  intros He Hr.
  assert (0 < 2 ^ (e + 1074)) as HX by (apply Z.pow_pos_nonneg; lia).
  destruct M as [|p|p]; cbn [binary_normalize] in *.
  - simpl. lia.
  - destruct (binary_round_units false p e He) as [[E _]|(m' & e' & E & _ & Hb)];
      rewrite E in *; [done|]. cbn [SFunits cond_Zopp]. lia.
  - destruct (binary_round_units true p e He) as [[E _]|(m' & e' & E & _ & Hb)];
      rewrite E in *; [done|]. cbn [SFunits cond_Zopp].
    replace (- (Z.pos m' * 2 ^ (e' + 1074)) - Z.neg p * 2 ^ (e + 1074))
      with (- (Z.pos m' * 2 ^ (e' + 1074) - Z.pos p * 2 ^ (e + 1074))) by lia.
    rewrite Z.abs_opp. lia.
Qed.

(** An addition of doubles that does not overflow is within one part in
    [2 ^ 52] of the exact sum. *)
Lemma SFadd_units x y :
  valid_binary x = true -> valid_binary y = true ->
  SFreal (SFadd prec emax x y) ->
  SFreal x ∧ SFreal y
  ∧ 2 ^ 52 * Z.abs (SFunits (SFadd prec emax x y) - (SFunits x + SFunits y))
    <= Z.abs (SFunits x + SFunits y).
Proof.
  intros Vx Vy Hr.
  destruct x as [sx|sx| |sx mx ex], y as [sy|sy| |sy my ey]; try done;
    try (by destruct sx, sy).
  - split; [done|]. split; [done|]. cbn [SFadd SFunits].
    replace (cond_Zopp sy (Z.pos my * 2 ^ (ey + 1074))
             - (0 + cond_Zopp sy (Z.pos my * 2 ^ (ey + 1074)))) with 0 by lia.
    simpl. lia.
  - split; [done|]. split; [done|]. cbn [SFadd SFunits].
    replace (cond_Zopp sx (Z.pos mx * 2 ^ (ex + 1074))
             - (cond_Zopp sx (Z.pos mx * 2 ^ (ex + 1074)) + 0)) with 0 by lia.
    simpl. lia.
  - split; [done|]. split; [done|].
    apply valid_finite_inv in Vx as (Hex & _). apply valid_finite_inv in Vy as (Hey & _).
    cbn [SFadd] in *. set (ez := Z.min ex ey) in *.
    rewrite (finite_units_aligned sx mx ex ez), (finite_units_aligned sy my ey ez) by lia.
    rewrite <- Z.mul_add_distr_r.
    apply binary_normalize_units; [lia|done].
Qed.

Lemma SFsub_units x y :
  valid_binary x = true -> valid_binary y = true ->
  SFreal (SFsub prec emax x y) ->
  SFreal x ∧ SFreal y
  ∧ 2 ^ 52 * Z.abs (SFunits (SFsub prec emax x y) - (SFunits x - SFunits y))
    <= Z.abs (SFunits x - SFunits y).
Proof.
  intros Vx Vy Hr.
  destruct x as [sx|sx| |sx mx ex], y as [sy|sy| |sy my ey]; try done;
    try (by destruct sx, sy).
  - split; [done|]. split; [done|]. cbn [SFsub SFunits].
    destruct sy; simpl; lia.
  - split; [done|]. split; [done|]. cbn [SFsub SFunits].
    replace (cond_Zopp sx (Z.pos mx * 2 ^ (ex + 1074))
             - (cond_Zopp sx (Z.pos mx * 2 ^ (ex + 1074)) - 0)) with 0 by lia.
    simpl. lia.
  - split; [done|]. split; [done|].
    apply valid_finite_inv in Vx as (Hex & _). apply valid_finite_inv in Vy as (Hey & _).
    cbn [SFsub] in *. set (ez := Z.min ex ey) in *.
    rewrite (finite_units_aligned sx mx ex ez), (finite_units_aligned sy my ey ez) by lia.
    rewrite <- Z.mul_sub_distr_r.
    apply binary_normalize_units; [lia|done].
Qed.

Lemma add_units a b :
  finite_float (a + b) ->
  finite_float a ∧ finite_float b
  ∧ 2 ^ 52 * Z.abs (float_units (a + b) - (float_units a + float_units b))
    <= Z.abs (float_units a + float_units b).
Proof.
  unfold finite_float, float_units. rewrite add_spec.
  apply SFadd_units; apply Prim2SF_valid.
Qed.

Lemma sub_units a b :
  finite_float (a - b) ->
  finite_float a ∧ finite_float b
  ∧ 2 ^ 52 * Z.abs (float_units (a - b) - (float_units a - float_units b))
    <= Z.abs (float_units a - float_units b).
Proof.
  unfold finite_float, float_units. rewrite sub_spec.
  apply SFsub_units; apply Prim2SF_valid.
Qed.

Lemma float_units_nonneg x : SFsign_is false (Prim2SF x) -> 0 <= float_units x.
Proof.
  unfold float_units. destruct (Prim2SF x) as [| | |s m e]; simpl; try done.
  intros ->. simpl. destruct (pow2_pos (e + 1074)) as [|[_ ->]]; lia.
Qed.

Lemma binary_normalize_valid M e :
  -1074 <= e -> valid_binary (binary_normalize prec emax M e false) = true.
Proof.
  intros He. destruct M as [|p|p]; cbn [binary_normalize]; [done|..].
  - by destruct (binary_round_units false p e He) as [[-> _]|(m' & e' & -> & V & _)].
  - by destruct (binary_round_units true p e He) as [[-> _]|(m' & e' & -> & V & _)].
Qed.

Lemma binary_normalize_exact M e m0 e0 :
  0 < M -> -1074 <= e -> valid_binary (S754_finite false m0 e0) = true ->
  M * 2 ^ (e + 1074) = Z.pos m0 * 2 ^ (e0 + 1074) ->
  binary_normalize prec emax M e false = S754_finite false m0 e0.
Proof.
  intros HM He V Heq. destruct M as [|p|p]; try lia. cbn [binary_normalize].
  by apply binary_round_exact.
Qed.

(** The quotient of [RN_ratio] before it is rounded. *)
Lemma RN_ratio_units n :
  0 <= n < 2 ^ 60 ->
  SFreal (RN_ratio n 100) ∧ valid_binary (RN_ratio n 100) = true
  ∧ 2 ^ 51 * Z.abs (100 * SFunits (RN_ratio n 100) - n * 2 ^ 1074) <= n * 2 ^ 1074.
Proof.
  intros Hn.
  pose proof (RN_ratio_below n 100 60 Hn ltac:(lia) ltac:(lia)) as Hb.
  assert (SFreal (RN_ratio n 100)) as Hreal by (by destruct (RN_ratio n 100)).
  split; [done|]. clear Hb. revert Hreal.
  unfold RN_ratio. destruct (n =? 0) eqn:E0.
  { apply Z.eqb_eq in E0. subst. intros _. split; [done|]. simpl. lia. }
  apply Z.eqb_neq in E0. assert (0 < n) as Hpos by lia.
  change (Z.log2 100) with 6.
  set (k := Z.max 0 (55 + 6 - Z.log2 n)).
  pose proof (Z.log2_spec n Hpos) as [Hl1 Hl2].
  pose proof (Z.log2_nonneg n) as Hl0.
  assert (0 <= k <= 61) as Hk by lia.
  rewrite !Z.shiftl_mul_pow2 by lia.
  assert (0 < 2 ^ k) as Hpk by (apply Z.pow_pos_nonneg; lia).
  assert (2 ^ 61 <= n * 2 ^ k) as Hbig.
  { destruct (Z.le_gt_cases (Z.log2 n) 61).
    - assert (2 ^ 61 = 2 ^ Z.log2 n * 2 ^ k) as ->.
      { rewrite <- Z.pow_add_r by lia. f_equal. lia. }
      nia.
    - assert (2 ^ 62 <= 2 ^ Z.log2 n) by (apply Z.pow_le_mono_r; lia).
      replace k with 0 by lia. lia. }
  pose proof (Z.div_mod (n * 2 ^ k) 100 ltac:(lia)) as Hdm.
  pose proof (Z.mod_pos_bound (n * 2 ^ k) 100 ltac:(lia)) as Hr.
  set (q := n * 2 ^ k / 100) in *. set (r := n * 2 ^ k mod 100) in *.
  set (M := 2 * q + (if r =? 0 then 0 else 1)).
  intros Hreal.
  set (X := 2 ^ (- k - 1 + 1074)). assert (0 < X) as HX by (apply Z.pow_pos_nonneg; lia).
  assert (2 ^ 1074 = 2 * 2 ^ k * X) as HP.
  { unfold X. change 2 with (2 ^ 1) at 2. rewrite <- !Z.pow_add_r by lia. f_equal. lia. }
  pose proof (binary_normalize_units M (- k - 1) ltac:(lia) Hreal) as Hu.
  split; [apply binary_normalize_valid; lia|].
  fold X in Hu. set (U := SFunits _) in *.
  assert (Z.abs (100 * M - 2 * (n * 2 ^ k)) <= 100) as Hq.
  { unfold M. destruct (r =? 0) eqn:Er; [apply Z.eqb_eq in Er|apply Z.eqb_neq in Er]; lia. }
  assert (2 ^ 55 <= M) as HM.
  { unfold M. destruct (r =? 0); lia. }
  assert (Z.abs (100 * (M * X) - n * 2 ^ 1074) <= 100 * X) as HqX.
  { rewrite HP. replace (100 * (M * X) - n * (2 * 2 ^ k * X))
      with ((100 * M - 2 * (n * 2 ^ k)) * X) by ring.
    rewrite Z.abs_mul, (Z.abs_eq X) by lia. nia. }
  assert (2 ^ 55 * X <= M * X) as HMX by nia.
  generalize dependent (M * X). generalize dependent (n * 2 ^ 1074).
  intros. lia.
Qed.

Lemma RN_ratio_exact m e :
  0 <= e -> valid_binary (S754_finite false m e) = true ->
  RN_ratio (Z.pos m * 100 * 2 ^ e) 100 = S754_finite false m e.
Proof.
  intros He V. unfold RN_ratio.
  assert (0 < 2 ^ e) as Hpe by (apply Z.pow_pos_nonneg; lia).
  set (a := Z.pos m * 100 * 2 ^ e). assert (0 < a) as Ha by (unfold a; nia).
  assert ((a =? 0) = false) as -> by (apply Z.eqb_neq; lia).
  change (Z.log2 100) with 6.
  set (k := Z.max 0 (55 + 6 - Z.log2 a)).
  pose proof (Z.log2_nonneg a) as Hl0.
  assert (0 <= k <= 61) as Hk by lia.
  rewrite !Z.shiftl_mul_pow2 by lia.
  assert (0 < 2 ^ k) as Hpk by (apply Z.pow_pos_nonneg; lia).
  replace (a * 2 ^ k) with (Z.pos m * 2 ^ e * 2 ^ k * 100) by (unfold a; ring).
  rewrite Z.div_mul, Z.mod_mul by lia. cbn [Z.eqb].
  apply binary_normalize_exact; [nia|lia|done|].
  replace (e + 1074) with (e + (k + 1 + (- k - 1 + 1074))) by lia.
  rewrite (Z.pow_add_r 2 e), (Z.pow_add_r 2 (k + 1)), (Z.pow_add_r 2 k 1) by lia.
  change (2 ^ 1) with 2. ring.
Qed.

Lemma round_half_even_upper num den :
  0 <= num -> 0 < den -> round_half_even num den <= num / den + 1.
Proof.
  intros Hn Hd. unfold round_half_even.
  destruct (2 * (num mod den) ?= den); [destruct (Z.even _)|..]; lia.
Qed.

(** [round(x, 2)] of a double that is not negative: the nearest whole
    number [n] of hundredths, stored as the double next to [n / 100]. *)
Lemma py_round_units x :
  SFsign_is false (Prim2SF x) -> finite_float x ->
  finite_float (py_round x 2)
  ∧ ∃ n, 0 <= n
         ∧ 2 * Z.abs (n * 2 ^ 1074 - 100 * float_units x) <= 2 ^ 1074
         ∧ 2 ^ 51 * Z.abs (100 * float_units (py_round x 2) - n * 2 ^ 1074)
           <= n * 2 ^ 1074.
Proof.
  unfold finite_float, float_units, py_round.
  pose proof (Prim2SF_valid x) as V.
  destruct (Prim2SF x) as [s|s| |s m e] eqn:E; simpl SFsign_is; try done.
  - intros _ _. rewrite E. split; [done|]. exists 0. simpl. lia.
  - intros -> _. pose proof V as (He & Hm & Hn)%valid_finite_inv.
    change (10 ^ Z.of_nat 2) with 100.
    destruct (0 <=? e) eqn:Ee.
    + apply Z.leb_le in Ee. rewrite RN_ratio_exact by done.
      rewrite <- E, SF2Prim_Prim2SF, E. split; [done|].
      assert (0 < 2 ^ e) by (apply Z.pow_pos_nonneg; lia).
      exists (Z.pos m * 100 * 2 ^ e). split; [nia|].
      cbn [SFunits cond_Zopp]. rewrite (Z.pow_add_r 2 e 1074) by lia.
      replace (Z.pos m * 100 * 2 ^ e * 2 ^ 1074 - 100 * (Z.pos m * (2 ^ e * 2 ^ 1074)))
        with 0 by ring.
      replace (100 * (Z.pos m * (2 ^ e * 2 ^ 1074)) - Z.pos m * 100 * 2 ^ e * 2 ^ 1074)
        with 0 by ring.
      simpl Z.abs. nia.
    + apply Z.leb_gt in Ee.
      set (D := 2 ^ (- e)).
      assert (2 <= D) as HD.
      { unfold D. change 2 with (2 ^ 1) at 1. apply Z.pow_le_mono_r; lia. }
      set (n := round_half_even (Z.pos m * 100) D).
      assert (0 <= n) as Hn0 by (apply round_half_even_nonneg; lia).
      assert (n < 2 ^ 60) as Hn1.
      { pose proof (round_half_even_upper (Z.pos m * 100) D ltac:(lia) ltac:(lia)) as Hu.
        fold n in Hu.
        assert (Z.pos m * 100 / D <= Z.pos m * 100 / 2) by (apply Z.div_le_compat_l; lia).
        assert (Z.pos m * 100 / 2 = Z.pos m * 50) as Hh.
        { replace (Z.pos m * 100) with (Z.pos m * 50 * 2) by ring. by rewrite Z.div_mul. }
        lia. }
      destruct (RN_ratio_units n ltac:(lia)) as (Hreal & Hv & Hb).
      rewrite (Prim2SF_SF2Prim _ Hv). split; [done|].
      exists n. split; [done|]. split; [|done].
      cbn [SFunits cond_Zopp].
      pose proof (round_half_even_error (Z.pos m * 100) D ltac:(lia)) as Herr. fold n in Herr.
      set (Y := 2 ^ (e + 1074)). assert (0 < Y) by (apply Z.pow_pos_nonneg; lia).
      assert (2 ^ 1074 = D * Y) as ->.
      { unfold D, Y. rewrite <- Z.pow_add_r by lia. f_equal. lia. }
      replace (n * (D * Y) - 100 * (Z.pos m * Y)) with ((n * D - Z.pos m * 100) * Y) by ring.
      rewrite Z.abs_mul, (Z.abs_eq Y) by lia. nia.
Qed.

Lemma is_finite_spec x : is_finite x = true -> finite_float x.
Proof.
  unfold is_finite, is_nan, is_infinity, finite_float.
  rewrite !eqb_spec, abs_spec. change (Prim2SF infinity) with (S754_infinity false).
  destruct (Prim2SF x) as [s|[]| |s m e]; simpl; try done.
Qed.

Lemma float_units_zero : float_units 0 = 0.
Proof. reflexivity. Qed.

Lemma finite_float_zero : finite_float 0.
Proof. exact I. Qed.

(** The plain sum of five doubles that are not negative. *)
Lemma py_sum_units c1 c2 c3 c4 c5 :
  finite_float (py_sum [c1; c2; c3; c4; c5]) ->
  0 <= float_units c1 -> 0 <= float_units c2 -> 0 <= float_units c3 ->
  0 <= float_units c4 -> 0 <= float_units c5 ->
  (finite_float c1 ∧ finite_float c2 ∧ finite_float c3 ∧ finite_float c4 ∧ finite_float c5)
  ∧ 2 ^ 47 * Z.abs (float_units (py_sum [c1; c2; c3; c4; c5])
                    - (float_units c1 + float_units c2 + float_units c3
                       + float_units c4 + float_units c5))
    <= float_units c1 + float_units c2 + float_units c3 + float_units c4 + float_units c5.
Proof.
  unfold py_sum. cbn [fold_left]. intros R5 ? ? ? ? ?.
  destruct (add_units _ _ R5) as (R4 & F5 & B5).
  destruct (add_units _ _ R4) as (R3 & F4 & B4).
  destruct (add_units _ _ R3) as (R2 & F3 & B3).
  destruct (add_units _ _ R2) as (R1 & F2 & B2).
  destruct (add_units _ _ R1) as (_ & F1 & B1).
  split; [done|]. rewrite float_units_zero in B1.
  set (f1 := float_units (0 + c1)) in *. set (f2 := float_units (0 + c1 + c2)) in *.
  set (f3 := float_units (0 + c1 + c2 + c3)) in *.
  set (f4 := float_units (0 + c1 + c2 + c3 + c4)) in *.
  set (f5 := float_units (0 + c1 + c2 + c3 + c4 + c5)) in *.
  clearbody f1 f2 f3 f4 f5. change (2 ^ 52) with 4503599627370496 in *.
  change (2 ^ 47) with 140737488355328. lia.
Qed.

Lemma abs_le_mul k x y : 0 < k -> k * Z.abs x <= y -> - y <= k * x <= y.
Proof. lia. Qed.

Lemma abs_le_mul_intro k x y : 0 < k -> - y <= k * x <= y -> k * Z.abs x <= y.
Proof. lia. Qed.

(** One item of the compensated loop: the running sum stays within its
    error budget [Ef], and so does the sum with the compensation ([Ec]) as
    long as the compensation is finite.  [B] bounds the exact sum; the
    budgets are in units of [2 ^ -52]. *)
Lemma cs_add_units st x S B Ef Ec :
  finite_float (st.1 + x) ->
  0 <= float_units x -> 0 <= S -> S + float_units x <= B ->
  0 <= Ef <= 100 * B -> 0 <= Ec <= 100 * B ->
  2 ^ 52 * Z.abs (float_units st.1 - S) <= Ef ->
  (finite_float st.2 -> 2 ^ 52 * Z.abs (float_units st.2 + float_units st.1 - S) <= Ec) ->
  2 ^ 52 * Z.abs (float_units (cs_add st x).1 - (S + float_units x)) <= Ef + 2 * B
  ∧ (finite_float (cs_add st x).2 ->
     2 ^ 52 * Z.abs (float_units (cs_add st x).2 + float_units (cs_add st x).1
                     - (S + float_units x)) <= Ec + 4 * B).
Proof.
  destruct st as [f c]. cbn [fst snd]. intros Rt Hx HS HB HEf HEc Hf Hc. cbn [cs_add fst snd].
  destruct (add_units _ _ Rt) as (Rf & Rx & Bt).
  set (t := (f + x)%float) in *.
  change (2 ^ 52) with 4503599627370496 in *.
  apply abs_le_mul in Hf; [|lia]. apply abs_le_mul in Bt; [|lia].
  assert (- (Ef + 2 * B) <= 4503599627370496 * (float_units t - (S + float_units x))
          <= Ef + 2 * B) as Ht by lia.
  split; [apply abs_le_mul_intro; [lia|done]|].
  assert (∀ d a b,
    finite_float ((d + b) : float) -> d = (a - t)%float ->
    (a = f ∧ b = x) ∨ (a = x ∧ b = f) ->
    - (3 * B)
    <= 4503599627370496
       * (float_units (d + b) - (float_units f + float_units x - float_units t))
    <= 3 * B) as Hg.
  { intros d a b Rg -> Hab.
    destruct (add_units _ _ Rg) as (Rd & _ & Bg).
    destruct (sub_units _ _ Rd) as (_ & _ & Bd).
    change (2 ^ 52) with 4503599627370496 in *.
    apply abs_le_mul in Bg; [|lia]. apply abs_le_mul in Bd; [|lia].
    set (ud := float_units (a - t)) in *. set (ug := float_units (a - t + b)) in *.
    assert (float_units a + float_units b = float_units f + float_units x) as Hsum
      by (destruct Hab as [[-> ->]|[-> ->]]; lia).
    assert (- (2 * B) <= float_units a <= 2 * B ∧ - (2 * B) <= float_units b <= 2 * B)
      as [Ha Hb'].
    { destruct Hab as [[-> ->]|[-> ->]]; lia. }
    clearbody ud ug. lia. }
  intros Rc.
  assert (∀ g, finite_float ((c + g) : float) ->
    (finite_float g ->
       - (3 * B)
       <= 4503599627370496 * (float_units g - (float_units f + float_units x - float_units t))
       <= 3 * B) ->
    4503599627370496 * Z.abs (float_units (c + g) + float_units t - (S + float_units x))
    <= Ec + 4 * B) as Hfin.
  { intros g Rcg Bg. destruct (add_units _ _ Rcg) as (Rc0 & Rg & Bc).
    specialize (Hc Rc0). specialize (Bg Rg).
    change (2 ^ 52) with 4503599627370496 in *.
    apply abs_le_mul in Hc; [|lia]. apply abs_le_mul in Bc; [|lia].
    apply abs_le_mul_intro; [lia|].
    set (ug := float_units g) in *. set (uc' := float_units (c + g)) in *.
    clearbody ug uc'. lia. }
  destruct (abs x <=? abs f)%float.
  - apply Hfin; [done|]. intros Rg. by apply (Hg (f - t)%float f x); [|  |left].
  - apply Hfin; [done|]. intros Rg. by apply (Hg (x - t)%float x f); [| |right].
Qed.

Lemma cs_add_fst st x : (cs_add st x).1 = (st.1 + x)%float.
Proof. by destruct st. Qed.

(** The compensated sum of five doubles that are not negative. *)
Lemma py_sum_compensated_units c1 c2 c3 c4 c5 :
  finite_float (py_sum_compensated [c1; c2; c3; c4; c5]) ->
  0 <= float_units c1 -> 0 <= float_units c2 -> 0 <= float_units c3 ->
  0 <= float_units c4 -> 0 <= float_units c5 ->
  (finite_float c1 ∧ finite_float c2 ∧ finite_float c3 ∧ finite_float c4 ∧ finite_float c5)
  ∧ 2 ^ 47 * Z.abs (float_units (py_sum_compensated [c1; c2; c3; c4; c5])
                    - (float_units c1 + float_units c2 + float_units c3
                       + float_units c4 + float_units c5))
    <= float_units c1 + float_units c2 + float_units c3 + float_units c4 + float_units c5.
Proof.
  unfold py_sum_compensated. cbn [fold_left].
  set (st1 := ((0 + c1)%float, 0%float)).
  set (st2 := cs_add st1 c2). set (st3 := cs_add st2 c3).
  set (st4 := cs_add st3 c4). set (st5 := cs_add st4 c5).
  intros R H1 H2 H3 H4 H5.
  set (B := float_units c1 + float_units c2 + float_units c3 + float_units c4
            + float_units c5).
  assert (finite_float st5.1) as R5.
  { destruct st5 as [f c]. cbn [fst].
    destruct (negb (is_zero c) && is_finite c); [|done]. by destruct (add_units _ _ R). }
  unfold st5 in R5. rewrite cs_add_fst in R5. destruct (add_units _ _ R5) as (R4 & F5 & _).
  unfold st4 in R4. rewrite cs_add_fst in R4. destruct (add_units _ _ R4) as (R3 & F4 & _).
  unfold st3 in R3. rewrite cs_add_fst in R3. destruct (add_units _ _ R3) as (R2 & F3 & _).
  unfold st2 in R2. rewrite cs_add_fst in R2. destruct (add_units _ _ R2) as (R1 & F2 & _).
  cbn [st1 fst] in R1. destruct (add_units _ _ R1) as (_ & F1 & B1).
  rewrite float_units_zero in B1. split; [done|].
  change (2 ^ 52) with 4503599627370496 in *.
  destruct (cs_add_units st1 c2 (float_units c1) B B B) as [E2 K2]; try done; try lia.
  { cbn [st1 fst]. change (2 ^ 52) with 4503599627370496. lia. }
  { cbn [st1 fst snd]. intros _. change (2 ^ 52) with 4503599627370496.
    rewrite float_units_zero. lia. }
  fold st2 in E2, K2, R3.
  destruct (cs_add_units st2 c3 (float_units c1 + float_units c2) B (B + 2 * B) (B + 4 * B))
    as [E3 K3]; try done; try lia.
  fold st3 in E3, K3, R4.
  destruct (cs_add_units st3 c4 (float_units c1 + float_units c2 + float_units c3) B
              (B + 2 * B + 2 * B) (B + 4 * B + 4 * B)) as [E4 K4]; try done; try lia.
  fold st4 in E4, K4, R5.
  destruct (cs_add_units st4 c5
              (float_units c1 + float_units c2 + float_units c3 + float_units c4) B
              (B + 2 * B + 2 * B + 2 * B) (B + 4 * B + 4 * B + 4 * B)) as [E5 K5];
    try done; try lia.
  fold st5 in E5, K5. change (2 ^ 52) with 4503599627370496 in *.
  change (2 ^ 47) with 140737488355328.
  destruct st5 as [f c]. cbn [fst snd] in *.
  destruct (negb (is_zero c) && is_finite c).
  - destruct (add_units _ _ R) as (_ & Rc & Br). specialize (K5 Rc).
    change (2 ^ 52) with 4503599627370496 in *.
    set (ur := float_units (f + c)) in *. clearbody ur. fold B. fold B in E5, K5. lia.
  - fold B. fold B in E5. lia.
Qed.

Lemma builtin_sum_units algorithm c1 c2 c3 c4 c5 :
  finite_float (builtin_sum algorithm [c1; c2; c3; c4; c5]) ->
  0 <= float_units c1 -> 0 <= float_units c2 -> 0 <= float_units c3 ->
  0 <= float_units c4 -> 0 <= float_units c5 ->
  (finite_float c1 ∧ finite_float c2 ∧ finite_float c3 ∧ finite_float c4 ∧ finite_float c5)
  ∧ 2 ^ 47 * Z.abs (float_units (builtin_sum algorithm [c1; c2; c3; c4; c5])
                    - (float_units c1 + float_units c2 + float_units c3
                       + float_units c4 + float_units c5))
    <= float_units c1 + float_units c2 + float_units c3 + float_units c4 + float_units c5.
Proof.
  destruct algorithm; [apply py_sum_units|apply py_sum_compensated_units].
Qed.

(** Five rounded shares against the rounded total, all in the same unit:
    [P] is one, the [C]s are the shares and [T] their sum as the program
    has it, the [N]s the hundredths they round to and the [Y]s the doubles
    stored for them. *)
Lemma rounded_shares_units P S T N1 N2 N3 N4 N5 NT Y1 Y2 Y3 Y4 Y5 YT C1 C2 C3 C4 C5 :
  0 < P -> 0 <= C1 -> 0 <= C2 -> 0 <= C3 -> 0 <= C4 -> 0 <= C5 ->
  S = C1 + C2 + C3 + C4 + C5 ->
  2 ^ 47 * Z.abs (T - S) <= S ->
  2 * Z.abs (N1 - 100 * C1) <= P -> 2 ^ 51 * Z.abs (100 * Y1 - N1) <= N1 ->
  2 * Z.abs (N2 - 100 * C2) <= P -> 2 ^ 51 * Z.abs (100 * Y2 - N2) <= N2 ->
  2 * Z.abs (N3 - 100 * C3) <= P -> 2 ^ 51 * Z.abs (100 * Y3 - N3) <= N3 ->
  2 * Z.abs (N4 - 100 * C4) <= P -> 2 ^ 51 * Z.abs (100 * Y4 - N4) <= N4 ->
  2 * Z.abs (N5 - 100 * C5) <= P -> 2 ^ 51 * Z.abs (100 * Y5 - N5) <= N5 ->
  2 * Z.abs (NT - 100 * T) <= P -> 2 ^ 51 * Z.abs (100 * YT - NT) <= NT ->
  100 * 2 ^ 40 * Z.abs (Y1 + Y2 + Y3 + Y4 + Y5 - YT) <= 3 * 2 ^ 40 * P + 3 * P + 100 * YT.
Proof.
  change (2 ^ 47) with 140737488355328. change (2 ^ 51) with 2251799813685248.
  change (2 ^ 40) with 1099511627776.
  intros HP ? ? ? ? ? -> HT
    A1%abs_le_mul B1%abs_le_mul A2%abs_le_mul B2%abs_le_mul A3%abs_le_mul B3%abs_le_mul
    A4%abs_le_mul B4%abs_le_mul A5%abs_le_mul B5%abs_le_mul AT%abs_le_mul BT%abs_le_mul;
    lia.
Qed.

Lemma float_value_tolerance (y1 y2 y3 y4 y5 yT : float) :
  100 * 2 ^ 40 * Z.abs (float_units y1 + float_units y2 + float_units y3 + float_units y4
                        + float_units y5 - float_units yT)
  <= 3 * 2 ^ 40 * 2 ^ 1074 + 3 * 2 ^ 1074 + 100 * float_units yT ->
  (Qabs (float_value y1 + float_value y2 + float_value y3 + float_value y4 + float_value y5
         - float_value yT)
   <= (3 # 100) + ((3 # 100) + float_value yT) * (1 # 1099511627776))%Q.
Proof.
  unfold float_value.
  generalize (float_units y1) (float_units y2) (float_units y3) (float_units y4)
    (float_units y5) (float_units yT).
  intros Y1 Y2 Y3 Y4 Y5 YT.
  assert (0 < 2 ^ 1074) as HP by (apply Z.pow_pos_nonneg; lia).
  generalize dependent (2 ^ 1074). intros P HP H.
  change (2 ^ 40) with 1099511627776 in H.
  apply abs_le_mul in H; [|lia]. destruct H as [H1 H2].
  assert (0 < inject_Z P)%Q as HPq by (by apply (Qlt_alt 0), Z.compare_lt_iff; simpl; lia).
  set (i := (/ inject_Z P)%Q).
  assert (0 < i)%Q as Hi by (by apply Qinv_lt_0_compat).
  assert (inject_Z P * i == 1)%Q as HPi by (apply Qmult_inv_r; lra).
  unfold Qdiv. fold i.
  rewrite Zle_Qle in H1, H2. unfold Z.sub in H1, H2.
  repeat first [rewrite inject_Z_plus in H1|rewrite inject_Z_mult in H1
               |rewrite inject_Z_opp in H1].
  repeat first [rewrite inject_Z_plus in H2|rewrite inject_Z_mult in H2
               |rewrite inject_Z_opp in H2].
  change (inject_Z 100) with (100 # 1)%Q in *.
  change (inject_Z 1099511627776) with (1099511627776 # 1)%Q in *.
  change (inject_Z 3) with (3 # 1)%Q in *.
  apply (Qmult_le_compat_r _ _ i) in H1; [|lra].
  apply (Qmult_le_compat_r _ _ i) in H2; [|lra].
  apply Qabs_Qle_condition. split; lra.
Qed.

Lemma float_units_sign x :
  finite_float x -> 0 <= float_units x ->
  SFsign_is false (Prim2SF x) ∨ float_units x = 0.
Proof.
  unfold finite_float, float_units. pose proof (Prim2SF_valid x) as V.
  destruct (Prim2SF x) as [s|s| |s m e]; try done.
  - by right.
  - apply valid_finite_inv in V as (He & _). intros _.
    assert (0 < 2 ^ (e + 1074)) by (apply Z.pow_pos_nonneg; lia).
    destruct s; simpl; [lia|by left].
Qed.

Lemma py_round_finite_inv x ndigits : finite_float (py_round x ndigits) -> finite_float x.
Proof.
  unfold finite_float, py_round. destruct (Prim2SF x) as [s|s| |s m e] eqn:E; try done.
  all: by rewrite E.
Qed.

(** [py_round_units] for a double whose value is not negative (a zero of
    either sign included). *)
Lemma py_round_units_nonneg x :
  finite_float x -> 0 <= float_units x ->
  finite_float (py_round x 2)
  ∧ ∃ N, 0 <= N
         ∧ 2 * Z.abs (N - 100 * float_units x) <= 2 ^ 1074
         ∧ 2 ^ 51 * Z.abs (100 * float_units (py_round x 2) - N) <= N.
Proof.
  intros Hf Hx. destruct (float_units_sign x Hf Hx) as [Hs|H0].
  - destruct (py_round_units x Hs Hf) as (Hr & n & Hn & H1 & H2).
    split; [done|]. exists (n * 2 ^ 1074). split; [|done].
    assert (0 < 2 ^ 1074) by (by apply Z.pow_pos_nonneg). nia.
  - assert (py_round x 2 = x) as ->.
    { unfold py_round. unfold finite_float, float_units in *.
      pose proof (Prim2SF_valid x) as V.
      destruct (Prim2SF x) as [s|s| |s m e]; try done.
      apply valid_finite_inv in V as (He & _). simpl in H0.
      assert (0 < 2 ^ (e + 1074)) by (apply Z.pow_pos_nonneg; lia). destruct s; simpl in H0; lia. }
    split; [done|]. exists 0. rewrite H0. simpl. split; [done|]. split; [|done].
    assert (0 < 2 ^ 1074) by (by apply Z.pow_pos_nonneg). lia.
Qed.

Lemma accumulate_categories_running ds :
  let acc := accumulate_categories ds in
  materials acc = running_total ((λ d, repair_cost d * 0.4)%float <$> ds)
  ∧ labor acc = running_total ((λ d, repair_cost d * 0.35)%float <$> ds)
  ∧ equipment acc = running_total ((λ d, repair_cost d * 0.15)%float <$> ds)
  ∧ traffic_control_budget acc = running_total ((λ d, repair_cost d * 0.05)%float <$> ds)
  ∧ contingency acc = running_total ((λ d, repair_cost d * 0.05)%float <$> ds).
Proof. exact (accumulate_categories_shares ds). Qed.

Lemma running_total_share_sign ds c m e :
  Forall estimator_output ds -> Prim2SF c = S754_finite false m e ->
  SFsign_is false (Prim2SF (running_total ((λ d, repair_cost d * c)%float <$> ds))).
Proof.
  intros Hout Hc. apply py_sum_sign, Forall_fmap.
  eapply Forall_impl; [exact Hout|]. intros d (Hd & _)%estimator_output_signs. simpl.
  rewrite mul_spec, Hc. by apply SFmul_sign_finite.
Qed.

Lemma generate_budget_breakdown_plain ds :
  generate_budget_breakdown_with plain_sum ds = generate_budget_breakdown_aux ds.
Proof. reflexivity. Qed.

(** C8 (as amended): the budget breakdown never raises, under either
    summation of the interpreter.  Each category is the total of the
    estimates' [repair_cost] times 0.4, 0.35, 0.15, 0.05 and 0.05, added
    estimate by estimate and rounded to two decimals; [total_budget] is the
    [sum] of the five unrounded categories, rounded to two decimals.  Over
    estimates of the unit estimator and a total that did not overflow, the
    sum of the five rounded categories is the rounded [total_budget] within
    rounding tolerance: they differ by at most 0.03, up to one part in
    [2 ^ 40] of the amounts.  [cost_per_sqm_average] is the unrounded total
    divided by [max(total area, 1)], which is never zero, and is rounded to
    two decimals. *)
Theorem budget_breakdown_split algorithm ds :
  ∃ budget total divisor,
    generate_budget_breakdown_with algorithm ds = Ok (budget, total)
    ∧ (algorithm = plain_sum -> generate_budget_breakdown ds = Ok budget)
    ∧ materials (categories budget)
      = py_round (running_total ((λ d, repair_cost d * 0.4)%float <$> ds)) 2
    ∧ labor (categories budget)
      = py_round (running_total ((λ d, repair_cost d * 0.35)%float <$> ds)) 2
    ∧ equipment (categories budget)
      = py_round (running_total ((λ d, repair_cost d * 0.15)%float <$> ds)) 2
    ∧ traffic_control_budget (categories budget)
      = py_round (running_total ((λ d, repair_cost d * 0.05)%float <$> ds)) 2
    ∧ contingency (categories budget)
      = py_round (running_total ((λ d, repair_cost d * 0.05)%float <$> ds)) 2
    ∧ total
      = builtin_sum algorithm
          [running_total ((λ d, repair_cost d * 0.4)%float <$> ds);
           running_total ((λ d, repair_cost d * 0.35)%float <$> ds);
           running_total ((λ d, repair_cost d * 0.15)%float <$> ds);
           running_total ((λ d, repair_cost d * 0.05)%float <$> ds);
           running_total ((λ d, repair_cost d * 0.05)%float <$> ds)]
    ∧ total_budget budget = py_round total 2
    ∧ to_float (max_with_one (builtin_sum algorithm (area_sqm <$> ds))) = Ok divisor
    ∧ (divisor =? 0)%float = false
    ∧ cost_per_sqm_average budget = py_round (total / divisor) 2
    ∧ (Forall estimator_output ds -> finite_float (total_budget budget) ->
       (Qabs (float_value (materials (categories budget))
              + float_value (labor (categories budget))
              + float_value (equipment (categories budget))
              + float_value (traffic_control_budget (categories budget))
              + float_value (contingency (categories budget))
              - float_value (total_budget budget))
        <= (3 # 100) + ((3 # 100) + float_value (total_budget budget))
                       * (1 # 1099511627776))%Q).
Proof.
  destruct (to_float_max_with_one (builtin_sum algorithm (area_sqm <$> ds))) as [divisor Hd].
  pose proof (max_with_one_nonzero _ _ Hd) as Hnz.
  pose proof (accumulate_categories_running ds) as (Hm & Hl & He & Ht & Hc).
  cbv zeta in Hm, Hl, He, Ht, Hc.
  eexists _, _, divisor.
  unfold generate_budget_breakdown_with.
  rewrite Hd. cbn [mbind exc_bind]. unfold float_div. rewrite Hnz.
  cbn [mbind exc_bind fmap exc_fmap fst].
  split; [reflexivity|]. split.
  { intros ->. unfold generate_budget_breakdown.
    rewrite <- generate_budget_breakdown_plain. unfold generate_budget_breakdown_with.
    cbn [builtin_sum] in *. rewrite Hd. cbn [mbind exc_bind]. unfold float_div. rewrite Hnz.
    reflexivity. }
  cbn [categories materials labor equipment traffic_control_budget contingency
       total_budget cost_per_sqm_average].
  rewrite Hm, Hl, He, Ht, Hc.
  repeat (split; [reflexivity|]).
  intros Hout Hfin.
  set (c1 := running_total ((λ d, repair_cost d * 0.4)%float <$> ds)) in *.
  set (c2 := running_total ((λ d, repair_cost d * 0.35)%float <$> ds)) in *.
  set (c3 := running_total ((λ d, repair_cost d * 0.15)%float <$> ds)) in *.
  set (c4 := running_total ((λ d, repair_cost d * 0.05)%float <$> ds)) in *.
  assert (0 <= float_units c1) as H1
    by (apply float_units_nonneg, (running_total_share_sign ds 0.4%float _ _ Hout eq_refl)).
  assert (0 <= float_units c2) as H2
    by (apply float_units_nonneg, (running_total_share_sign ds 0.35%float _ _ Hout eq_refl)).
  assert (0 <= float_units c3) as H3
    by (apply float_units_nonneg, (running_total_share_sign ds 0.15%float _ _ Hout eq_refl)).
  assert (0 <= float_units c4) as H4
    by (apply float_units_nonneg, (running_total_share_sign ds 0.05%float _ _ Hout eq_refl)).
  set (total := builtin_sum algorithm [c1; c2; c3; c4; c4]) in *.
  apply py_round_finite_inv in Hfin as Htot.
  destruct (builtin_sum_units algorithm c1 c2 c3 c4 c4 Htot H1 H2 H3 H4 H4)
    as ((F1 & F2 & F3 & F4 & _) & HT).
  fold total in HT.
  assert (0 <= float_units total) as HT0.
  { change (2 ^ 47) with 140737488355328 in HT. lia. }
  destruct (py_round_units_nonneg c1 F1 H1) as (_ & N1 & ? & A1 & B1).
  destruct (py_round_units_nonneg c2 F2 H2) as (_ & N2 & ? & A2 & B2).
  destruct (py_round_units_nonneg c3 F3 H3) as (_ & N3 & ? & A3 & B3).
  destruct (py_round_units_nonneg c4 F4 H4) as (_ & N4 & ? & A4 & B4).
  destruct (py_round_units_nonneg total Htot HT0) as (_ & NT & ? & AT & BT).
  apply float_value_tolerance.
  assert (0 < 2 ^ 1074) as HP by (by apply Z.pow_pos_nonneg).
  eapply (rounded_shares_units (2 ^ 1074) _ (float_units total) N1 N2 N3 N4 N4 NT);
    [exact HP|exact H1|exact H2|exact H3|exact H4|exact H4|reflexivity|exact HT|..];
    done.
Qed.

Lemma budget_breakdown_split_witness :
  Forall
    (λ algorithm,
       ∃ budget total,
         generate_budget_breakdown_with algorithm (estimates_of [wide_crack; old_repair])
         = Ok (budget, total)
         ∧ (Qabs (float_value (materials (categories budget))
                  + float_value (labor (categories budget))
                  + float_value (equipment (categories budget))
                  + float_value (traffic_control_budget (categories budget))
                  + float_value (contingency (categories budget))
                  - float_value (total_budget budget))
            <= (3 # 100) + ((3 # 100) + float_value (total_budget budget))
                           * (1 # 1099511627776))%Q)
    [plain_sum; compensated_sum].
Proof.
  repeat constructor.
  - destruct (budget_breakdown_split plain_sum (estimates_of [wide_crack; old_repair]))
      as (b & t & dv & Hb & _ & _ & _ & _ & _ & _ & _ & _ & _ & _ & _ & Htol).
    exists b, t. split; [exact Hb|]. apply Htol; [apply estimates_of_output|].
    vm_compute in Hb. injection Hb as <- <-. vm_compute. exact I.
  - destruct (budget_breakdown_split compensated_sum (estimates_of [wide_crack; old_repair]))
      as (b & t & dv & Hb & _ & _ & _ & _ & _ & _ & _ & _ & _ & _ & _ & Htol).
    exists b, t. split; [exact Hb|]. apply Htol; [apply estimates_of_output|].
    vm_compute in Hb. injection Hb as <- <-. vm_compute. exact I.
Defined.

(** Costs 2400 and 800 over 3 square meters: under either summation the
    stored average is 1066.67, the quotient is 1066.6666666666667. *)
Lemma average_cost_is_rounded :
  Forall
    (λ algorithm,
       ∃ budget total,
         generate_budget_breakdown_with algorithm (estimates_of [wide_crack; old_repair])
         = Ok (budget, total)
         ∧ total = 3200%float
         ∧ builtin_sum algorithm (area_sqm <$> estimates_of [wide_crack; old_repair])
           = 3%float
         ∧ cost_per_sqm_average budget = 1066.67%float
         ∧ (total / 3 = 1066.6666666666667)%float
         ∧ (cost_per_sqm_average budget =? total / 3)%float = false)
    [plain_sum; compensated_sum]
  ∧ fst <$> generate_budget_breakdown_with plain_sum (estimates_of [wide_crack; old_repair])
    = generate_budget_breakdown (estimates_of [wide_crack; old_repair]).
Proof.
  split; [|reflexivity].
  repeat constructor.
  - eexists _, _. split; [vm_compute; reflexivity|]. repeat split; vm_compute; reflexivity.
  - eexists _, _. split; [vm_compute; reflexivity|]. repeat split; vm_compute; reflexivity.
Qed.



(** The tolerance is one of cents: the categories of a repair of 0.12 round
    to 0.05, 0.04, 0.02, 0.01 and 0.01, a cent more than the total. *)
Example rounded_categories_a_cent_apart :
  Forall
    (λ algorithm,
       ∃ budget total,
         generate_budget_breakdown_with algorithm (estimates_of [one_pixel_crack])
         = Ok (budget, total)
         ∧ categories budget
           = {| materials := 0.05; labor := 0.04; equipment := 0.02;
                traffic_control_budget := 0.01; contingency := 0.01 |}%float
         ∧ total_budget budget = 0.12%float
         ∧ (99 # 10000
            <= float_value (materials (categories budget))
               + float_value (labor (categories budget))
               + float_value (equipment (categories budget))
               + float_value (traffic_control_budget (categories budget))
               + float_value (contingency (categories budget))
               - float_value (total_budget budget))%Q)
    [plain_sum; compensated_sum].
Proof.
  repeat constructor.
  - eexists _, _. split; [vm_compute; reflexivity|]. split; [reflexivity|].
    split; [reflexivity|]. apply Qle_bool_iff. vm_compute. reflexivity.
  - eexists _, _. split; [vm_compute; reflexivity|]. split; [reflexivity|].
    split; [reflexivity|]. apply Qle_bool_iff. vm_compute. reflexivity.
Qed.

(** The two summations give different unrounded totals, and the same
    budget, for a repair of 72. *)
Example builtin_sum_algorithms_differ :
  snd <$> generate_budget_breakdown_with plain_sum (estimates_of [small_crack])
  = Ok 71.999999999999986%float
  ∧ snd <$> generate_budget_breakdown_with compensated_sum (estimates_of [small_crack])
    = Ok 72%float
  ∧ fst <$> generate_budget_breakdown_with plain_sum (estimates_of [small_crack])
    = fst <$> generate_budget_breakdown_with compensated_sum (estimates_of [small_crack]).
Proof. repeat split; vm_compute; reflexivity. Qed.

Example float_value_examples :
  (float_value 0.5 == 1 # 2 ∧ float_value 2.5 == 5 # 2 ∧ float_value 0 == 0
   ∧ float_value (-0.75) == - (3 # 4) ∧ float_value 0.12 < 12 # 100)%Q.
Proof.
  repeat split; apply Qeq_bool_iff; vm_compute; reflexivity.
Qed.
